(** * Span-corruption dataset of Megatron-DeepSpeed: a shallow embedding

    This development embeds [megatron/data/non_causal_mlm_dataset.py] and
    proves properties of its length planner, document packer, noise-mask
    generator, sentinel encoder, sequence assembler and dataset facade.

    Conventions of the embedding.
    - Python and numpy integers are [Z]. Of the integer widths only the
      [int32] of the end-of-sequence column of [filter_input_ids] is
      modelled, see [Np.astype_int32].
    - numpy arrays of shape [(1, n)] (the batch axis is fixed to one row by
      [np.asarray([...])] in [build_training_sample]) are lists holding the
      single row.
    - Python floats ([noise_density], [mean_noise_span_length] and the
      products and quotients handed to [round] / [np.round]) are exact
      rationals [Q] in [Planner] and [NoiseMask], and [round] is
      round-half-to-even on [Q]: there the rounding error of the float
      product and quotient is not modelled. [Planner64] and [NoiseMask64]
      are the same functions with the product and the quotient rounded to
      binary64, see [F64]; the statements that depend on how the counts are
      rounded are made about these. At the density 0.15 and the mean span
      length 3 that [build_training_sample] passes, the counts of the two
      agree for every length below [2 ** 48], see [num_noise_tokens_default]
      and [num_noise_spans_default].
    - Python exceptions are the [Raise] outcomes of the [result] monad; a
      [while] loop takes fuel and returns [None] when the fuel runs out.
    - [np.random.shuffle] is a Fisher-Yates shuffle driven by an explicit
      list of draws that is threaded through the generator.
    - Of [get_samples_mapping] the build of the index is embedded; the index
      file is an optional value, and ranks, barrier, logging and timing are
      left out.
    - Of [_build_train_valid_test_datasets] the local [build_dataset] is
      embedded, see [Builder]; the split boundaries are an argument.
    - Of [tasks/eval_harness/evaluate.py] the preparation and the padding of
      a batch by [EvalHarnessAdaptor] are embedded, see [EvalHarness]. *)

From Stdlib Require Import ZArith QArith Qabs Qround Qpower List Bool Lia Lqa Arith.
Import ListNotations.
Open Scope Z_scope.

(** ** Exceptions *)

Inductive exn : Type :=
| TypeError
| IndexError
| ValueError
| RecursionError
| ZeroDivisionError
| AssertionError
| OverflowError.

Inductive result (A : Type) : Type :=
| Ok (a : A)
| Raise (e : exn).

Arguments Ok {A} a.
Arguments Raise {A} e.

Definition bind {A B : Type} (c : result A) (k : A -> result B) : result B :=
  match c with
  | Ok a => k a
  | Raise e => Raise e
  end.

Notation "x <- c ;; k" := (bind c (fun x => k))
  (at level 61, c at next level, right associativity).
Notation "' pat <- c ;; k" := (bind c (fun x => match x with pat => k end))
  (at level 61, pat pattern, c at next level, right associativity).


(** ** Python and numpy primitives used by the source *)

Module Np.

(** [round] / [np.round] on a float, then [int]: round half to even. *)
Definition round (x : Q) : Z :=
  let f := Qfloor x in
  match (x - inject_Z f ?= 1 # 2)%Q with
  | Lt => f
  | Gt => f + 1
  | Eq => if Z.even f then f else f + 1
  end.

(** Python's true division [a / b]. *)
Definition py_div (a b : Q) : result Q :=
  if Qeq_bool b 0 then Raise ZeroDivisionError else Ok (a / b)%Q.

Definition len {A : Type} (l : list A) : Z := Z.of_nat (length l).

(** The value that the integer [x] takes in an [int32] array: the low 32
    bits, read as a signed number. *)
Definition astype_int32 (x : Z) : Z := (x + 2 ^ 31) mod 2 ^ 32 - 2 ^ 31.

(** [np.arange(n)]: empty when [n <= 0]. *)
Definition arange (n : Z) : list Z := map Z.of_nat (seq 0 (Z.to_nat n)).

Fixpoint cumsum_from (acc : Z) (l : list Z) : list Z :=
  match l with
  | [] => []
  | x :: l' => (acc + x) :: cumsum_from (acc + x) l'
  end.

(** [np.cumsum] *)
Definition cumsum (l : list Z) : list Z := cumsum_from 0 l.

Definition b2z (b : bool) : Z := if b then 1 else 0.

Definition zip_with {A B C : Type} (f : A -> B -> C) (a : list A) (b : list B)
  : list C :=
  map (fun p => f (fst p) (snd p)) (combine a b).

(** [np.zeros((n,))]: a negative dimension is refused. *)
Definition zeros (n : Z) : result (list Z) :=
  if n <? 0 then Raise ValueError else Ok (repeat 0 (Z.to_nat n)).

Fixpoint upd {A : Type} (i : nat) (x : A) (l : list A) : list A :=
  match l, i with
  | [], _ => []
  | _ :: l', O => x :: l'
  | y :: l', S i' => y :: upd i' x l'
  end.

(** [a[idxs] = v] with an integer index array: every index must lie in
    [[-n, n)], negative ones counting from the end. *)
Definition set_indices (a : list Z) (idxs : list Z) (v : Z) : result (list Z) :=
  let n := len a in
  if forallb (fun i => (- n <=? i) && (i <? n)) idxs then
    Ok (fold_left
          (fun a i => upd (Z.to_nat (if i <? 0 then i + n else i)) v a)
          idxs a)
  else Raise IndexError.

(** [l[:n]] *)
Definition py_prefix {A : Type} (l : list A) (n : Z) : list A :=
  if n <? 0 then firstn (length l - Z.to_nat (- n)) l
  else firstn (Z.to_nat n) l.

(** [l[s:e]] *)
Definition py_slice {A : Type} (l : list A) (s e : Z) : list A :=
  let n := len l in
  let norm i := if i <? 0 then Z.max (i + n) 0 else Z.min i n in
  firstn (Z.to_nat (norm e - norm s)) (skipn (Z.to_nat (norm s)) l).

(** [l[i]] *)
Definition py_index {A : Type} (l : list A) (i : Z) : result A :=
  let n := len l in
  match nth_error l (Z.to_nat (if i <? 0 then i + n else i)) with
  | Some x => if (- n <=? i) && (i <? n) then Ok x else Raise IndexError
  | None => Raise IndexError
  end.

(** [np.stack([a, b], axis=1)]: the two rows must have one shape. *)
Definition stack2 (a b : list Z) : result (list (Z * Z)) :=
  if (length a =? length b)%nat then Ok (combine a b) else Raise ValueError.

(** [np.reshape(rows, [n])] of a [(k, 2)] array, for [n >= 0]. *)
Definition reshape_flat (rows : list (Z * Z)) (n : Z) : result (list Z) :=
  if 2 * len rows =? n
  then Ok (flat_map (fun p => [fst p; snd p]) rows)
  else Raise ValueError.

(** Broadcasting of two rows of shapes [(1, n)] and [(1, k)]. *)
Definition broadcast2 {A B : Type} (a : list A) (b : list B)
  : result (list (A * B)) :=
  if (length a =? length b)%nat then Ok (combine a b)
  else match a, b with
       | [x], _ => Ok (map (fun y => (x, y)) b)
       | _, [y] => Ok (map (fun x => (x, y)) a)
       | _, _ => Raise ValueError
       end.

(** [np.roll(l, 1, axis=-1)] *)
Definition roll1 (l : list Z) : list Z :=
  match l with
  | [] => []
  | x :: _ => last l x :: removelast l
  end.

(** Sorting and counting for [np.unique(l, return_counts=True)]. *)
Fixpoint insert_sorted (x : Z) (l : list Z) : list Z :=
  match l with
  | [] => [x]
  | y :: l' => if x <=? y then x :: l else y :: insert_sorted x l'
  end.

Definition sort (l : list Z) : list Z := fold_right insert_sorted [] l.

(** Lengths of the maximal runs of equal neighbours; [cur] is the value of
    the run being counted and [k] the number of its elements seen so far. *)
Fixpoint run_lengths (cur : Z) (k : Z) (l : list Z) : list Z :=
  match l with
  | [] => [k]
  | x :: l' =>
    if x =? cur then run_lengths cur (k + 1) l'
    else k :: run_lengths x 1 l'
  end.

Definition unique_counts (l : list Z) : list Z :=
  match sort l with
  | [] => []
  | x :: l' => run_lengths x 1 l'
  end.

(** The random source: the successive raw draws of the generator. *)
Definition rng : Type := list nat.

(** A draw uniform in [[0, i]]. *)
Definition draw (i : nat) (g : rng) : nat * rng :=
  match g with
  | [] => (O, [])
  | r :: g' => (Nat.modulo r (S i), g')
  end.

Definition swap {A : Type} (l : list A) (i j : nat) : list A :=
  match nth_error l i, nth_error l j with
  | Some a, Some b => upd j a (upd i b l)
  | _, _ => l
  end.

(** Fisher-Yates: [for i in reversed(range(1, n)): j = draw(i); swap]. *)
Fixpoint shuffle_from {A : Type} (i : nat) (l : list A) (g : rng)
  : list A * rng :=
  match i with
  | O => (l, g)
  | S i' => let '(j, g) := draw i g in shuffle_from i' (swap l i j) g
  end.

(** [np.random.shuffle(l)] *)
Definition shuffle {A : Type} (l : list A) (g : rng) : list A * rng :=
  shuffle_from (length l - 1) l g.

End Np.


(** ** Length planner: [compute_input_and_target_lengths] *)

Module Planner.

(** [_tokens_length_to_inputs_length_targets_length] *)
Definition tokens_length_to_lengths (noise_density mean_noise_span_length : Q)
    (tokens_length : Z) : result (Z * Z) :=
  let num_noise_tokens := Np.round (inject_Z tokens_length * noise_density) in
  let num_nonnoise_tokens := tokens_length - num_noise_tokens in
  q <- Np.py_div (inject_Z num_noise_tokens) mean_noise_span_length ;;
  let num_noise_spans := Np.round q in
  let _input_length := num_nonnoise_tokens + num_noise_spans + 1 in
  let _output_length := num_noise_tokens + num_noise_spans + 1 in
  Ok (_input_length, _output_length).

(** The [while] loop. [None] means that [fuel] iterations were not enough. *)
Fixpoint search (fuel : nat) (inputs_length : Z)
    (noise_density mean_noise_span_length : Q) (tokens_length : Z)
  : option (result Z) :=
  match fuel with
  | O => None
  | S fuel' =>
    match tokens_length_to_lengths noise_density mean_noise_span_length
            (tokens_length + 1) with
    | Raise e => Some (Raise e)
    | Ok (il, _) =>
      if il <=? inputs_length
      then search fuel' inputs_length noise_density mean_noise_span_length
             (tokens_length + 1)
      else Some (Ok tokens_length)
    end
  end.

(** The three locals when the function returns. *)
Record locals : Type := mk_locals {
  tokens_length : Z;
  inputs_length : Z;
  targets_length : Z
}.

Definition run (fuel : nat) (inputs_length : Z)
    (noise_density mean_noise_span_length : Q) : option (result locals) :=
  match search fuel inputs_length noise_density mean_noise_span_length
          inputs_length with
  | None => None
  | Some r =>
    Some (tokens_length <- r ;;
          '(inputs_length, targets_length) <-
             tokens_length_to_lengths noise_density mean_noise_span_length
               tokens_length ;;
          if Qeq_bool noise_density (1 # 2) && (targets_length >? inputs_length)
          then Ok (mk_locals (tokens_length - 1) inputs_length (targets_length - 1))
          else Ok (mk_locals tokens_length inputs_length targets_length))
  end.

Definition compute_input_and_target_lengths (fuel : nat) (inputs_length : Z)
    (noise_density mean_noise_span_length : Q) : option (result (Z * Z)) :=
  match run fuel inputs_length noise_density mean_noise_span_length with
  | None => None
  | Some r => Some (l <- r ;; Ok (tokens_length l, targets_length l))
  end.

End Planner.

(** ** Document packer: [get_samples_mapping] and its local [breakdown] *)

Module Packer.

(** A span is the Python list [[doc_idx, start, end]]. *)
Definition span : Type := (Z * Z * Z)%type.
Definition sample : Type := list span.

Definition span_len (s : span) : Z :=
  let '(_, start_index, end_index) := s in end_index - start_index.

Definition sample_len_of (s : sample) : Z :=
  fold_right (fun sp acc => span_len sp + acc) 0 s.

(** [sample_len < max_len], where [max_len] may be Python's [None]:
    ordering an integer against [None] raises [TypeError]. *)
Definition py_lt (a : Z) (b : option Z) : result bool :=
  match b with
  | Some b => Ok (a <? b)
  | None => Raise TypeError
  end.

(** Python's default recursion limit; exceeding it raises [RecursionError]. *)
Definition recursion_limit : nat := 1000.

(** [breakdown(sample_len, idx_offset=None, idx_list=None, max_len=None)].
    [idx_list] is a mutable list shared with the recursive call, so the
    function returns the list as mutated together with its return value.
    The recursive call passes [idx_offset] and [idx_list] but not
    [max_len], which therefore takes its default [None]. *)
Fixpoint breakdown (depth : nat) (sample_len : Z) (idx_offset : option Z)
    (idx_list : option (list Z)) (max_len : option Z)
  : result (list Z * list (Z * Z)) :=
  match depth with
  | O => Raise RecursionError
  | S depth' =>
    let idx_list := match idx_list with None => [] | Some l => l end in
    let idx_offset := match idx_offset with None => 0 | Some o => o end in
    c <- py_lt sample_len max_len ;;
    idx_list <-
      (if c : bool then Ok (idx_list ++ [idx_offset + sample_len])
       else
         match max_len with
         | None => Raise TypeError
         | Some ml =>
           let sample_len := sample_len - ml in
           let idx_list := idx_list ++ [idx_offset + ml] in
           let idx_offset := idx_offset + ml in
           '(idx_list, _) <-
              breakdown depth' sample_len (Some idx_offset) (Some idx_list) None ;;
           Ok idx_list
         end) ;;
    let idx_list' := 0 :: idx_list in
    Ok (idx_list, combine (removelast idx_list') (tl idx_list'))
  end.

(** The locals of the build loop that survive an iteration. *)
Record build_state : Type := mk_build_state {
  samples_mapping : list sample;
  sample_indices : sample;
  current_len : Z
}.

Definition build_init : build_state := mk_build_state [] [] 0.

(** Body of [for _start_idx, _end_idx in indices]. *)
Definition place (max_len doc_idx _idx : Z) (st : build_state) (p : Z * Z)
  : build_state :=
  let '(_start_idx, _end_idx) := p in
  let _len := _end_idx - _start_idx in
  if _len =? max_len then
    mk_build_state
      (samples_mapping st ++ [[(doc_idx, _start_idx + _idx, _end_idx + _idx)]])
      (sample_indices st)
      (current_len st)
  else
    mk_build_state
      (samples_mapping st)
      (sample_indices st ++ [(doc_idx, _start_idx + _idx, _end_idx + _idx)])
      (current_len st + _len).

(** Body of [for doc_idx, sample_len in zip(doc_idx, sizes)]. *)
Definition step (max_len : Z) (st : build_state) (d : Z * Z)
  : result build_state :=
  let '(doc_idx, sample_len) := d in
  let '(st, sample_len, _idx) :=
    if current_len st + sample_len >? max_len then
      let end_idx := max_len - current_len st in
      let sample_indices := sample_indices st ++ [(doc_idx, 0, end_idx)] in
      (mk_build_state (samples_mapping st ++ [sample_indices]) [] 0,
       sample_len - end_idx, end_idx)
    else (st, sample_len, 0) in
  '(_, indices) <- breakdown recursion_limit sample_len None None (Some max_len) ;;
  Ok (fold_left (place max_len doc_idx _idx) indices st).

Fixpoint build_loop (max_len : Z) (st : build_state) (docs : list (Z * Z))
  : result build_state :=
  match docs with
  | [] => Ok st
  | d :: docs' => st' <- step max_len st d ;; build_loop max_len st' docs'
  end.

(** The build performed when the index file is absent: the loop runs over
    [zip(indexed_dataset.doc_idx, indexed_dataset.sizes)] and only
    [samples_mapping] is saved; [sample_indices] is not flushed. *)
Definition build (doc_idx sizes : list Z) (max_len : Z) : result build_state :=
  build_loop max_len build_init (combine doc_idx sizes).

(** [get_samples_mapping], seen from the building rank: [cache] is the
    content of the index file when it already exists. Saving and loading
    the file are taken to preserve the list of samples, as [np.save] and
    [np.load] with [allow_pickle=True] do where numpy stores a nested list
    of unequal lengths as an array of objects (numpy before 1.24). The two
    assertions on the dtypes of [doc_idx] and [sizes] and the assertion
    after the barrier concern the array types and the process group, which
    the embedding does not represent; they are taken to hold. *)
Definition get_samples_mapping (cache : option (list sample))
    (doc_idx sizes : list Z) (max_len : Z) : result (list sample) :=
  match cache with
  | Some m => Ok m
  | None => st <- build doc_idx sizes max_len ;; Ok (samples_mapping st)
  end.

End Packer.

(** ** Noise mask generator: [random_spans_noise_mask] *)

Module NoiseMask.

(** [_random_segmentation] *)
Definition random_segmentation (num_items num_segments : Z) (g : Np.rng)
  : list Z * Np.rng :=
  let mask_indices :=
    map (fun i => i <? num_segments - 1) (Np.arange (num_items - 1)) in
  let '(mask_indices, g) := Np.shuffle mask_indices g in
  let first_in_segment := false :: mask_indices in
  let segment_id := Np.cumsum (map Np.b2z first_in_segment) in
  (Np.unique_counts segment_id, g).

Definition random_spans_noise_mask (length : Z)
    (noise_density mean_noise_span_length : Q) (g : Np.rng)
  : result (list bool * Np.rng) :=
  let orig_length := length in
  let num_noise_tokens := Np.round (inject_Z length * noise_density) in
  let num_noise_tokens := Z.min (Z.max num_noise_tokens 1) (length - 1) in
  q <- Np.py_div (inject_Z num_noise_tokens) mean_noise_span_length ;;
  let num_noise_spans := Np.round q in
  let num_noise_spans := Z.max num_noise_spans 1 in
  let num_nonnoise_tokens := length - num_noise_tokens in
  let '(noise_span_lengths, g) :=
    random_segmentation num_noise_tokens num_noise_spans g in
  let '(nonnoise_span_lengths, g) :=
    random_segmentation num_nonnoise_tokens num_noise_spans g in
  stacked <- Np.stack2 nonnoise_span_lengths noise_span_lengths ;;
  interleaved_span_lengths <- Np.reshape_flat stacked (num_noise_spans * 2) ;;
  let span_starts := removelast (Np.cumsum interleaved_span_lengths) in
  span_start_indicator <- Np.zeros length ;;
  span_start_indicator <- Np.set_indices span_start_indicator span_starts 1 ;;
  let span_num := Np.cumsum span_start_indicator in
  let is_noise := map (fun n => n mod 2 =? 1) span_num in
  Ok (Np.py_prefix is_noise orig_length, g).

End NoiseMask.

(** ** Sentinel encoder and sequence assembler *)

Module Sentinel.

(** [mask.astype(np.int8)] *)
Definition astype_int8 (mask : list bool) : list Z := map Np.b2z mask.

(** [create_sentinel_ids]. The values of [mask_indices] are 0 or 1, so the
    [int8] arithmetic of the first line does not wrap; [np.cumsum] and what
    follows are computed at the platform integer width. *)
Definition create_sentinel_ids (mask_indices : list Z) (vocab_len : Z)
  : result (list Z) :=
  let start_indices :=
    Np.zip_with (fun m r => m - r * m) mask_indices (Np.roll1 mask_indices) in
  start_indices <-
    match mask_indices, start_indices with
    | m0 :: _, _ :: rest => Ok (m0 :: rest)
    | _, _ => Raise IndexError
    end ;;
  let sentinel_ids :=
    Np.zip_with (fun s c => if s =? 0 then s else c)
      start_indices (Np.cumsum start_indices) in
  let sentinel_ids :=
    map (fun s => if s =? 0 then 0 else vocab_len - s) sentinel_ids in
  let sentinel_ids :=
    Np.zip_with Z.sub sentinel_ids
      (Np.zip_with Z.sub mask_indices start_indices) in
  Ok sentinel_ids.

(** [np.where(sentinel_ids != 0, sentinel_ids, input_ids)] *)
Definition input_ids_full (input_ids sentinel_ids : list Z) : result (list Z) :=
  ps <- Np.broadcast2 sentinel_ids input_ids ;;
  Ok (map (fun p => if fst p =? 0 then snd p else fst p) ps).

(** [filter_input_ids]. The column of [eos_id] is built with
    [dtype=np.int32]: a value outside that range wraps, as numpy 1.x casts
    it (numpy 2 raises [OverflowError] there); the statements on the value
    of the column take [eos_id] in the range. The dtypes of the tokens and
    of the sentinel ids are wide enough for their values and are not
    modelled. *)
Definition filter_input_ids (input_ids sentinel_ids : list Z) (eos_id : Z)
  : result (list Z) :=
  full <- input_ids_full input_ids sentinel_ids ;;
  let input_ids := filter (fun x => 0 <=? x) full in
  Ok (input_ids ++ [Np.astype_int32 eos_id]).

Record training_sample : Type := mk_training_sample {
  text : list Z;
  prefix_len : Z
}.

(** [build_training_sample] *)
Definition build_training_sample (sample : list (list Z))
    (expanded_inputs_length : Z) (vocab_id_list : list Z)
    (cls_id sep_id mask_id pad_id bos_id eos_id : Z) (sentinel_tokens : list Z)
    (g : Np.rng) : result (training_sample * Np.rng) :=
  let tokens := concat sample in
  '(mask_indices, g) <-
     NoiseMask.random_spans_noise_mask expanded_inputs_length (15 # 100) 3 g ;;
  let labels_mask := map negb mask_indices in
  input_ids_sentinel <-
    create_sentinel_ids (astype_int8 mask_indices) (Np.len vocab_id_list) ;;
  labels_sentinel <-
    create_sentinel_ids (astype_int8 labels_mask) (Np.len vocab_id_list) ;;
  input_tokens_ids <- filter_input_ids tokens input_ids_sentinel eos_id ;;
  output_tokens_ids <- filter_input_ids tokens labels_sentinel eos_id ;;
  let text_tokens_ids := input_tokens_ids ++ output_tokens_ids in
  let prefix_len := Np.len input_tokens_ids in
  Ok (mk_training_sample text_tokens_ids prefix_len, g).

End Sentinel.

(** ** Dataset facade: [NonCausalMLMDataset] *)

Module Dataset.

Record indexed_dataset : Type := mk_indexed_dataset {
  doc_idx : list Z;
  sizes : list Z;
  get : Z -> list Z
}.

Record tokenizer : Type := mk_tokenizer {
  inv_vocab_keys : list Z;
  cls : Z;
  sep : Z;
  mask : Z;
  pad : Z;
  bos_token_id : Z;
  eos_token_id : Z;
  additional_special_tokens_ids : list Z
}.

Record NonCausalMLMDataset : Type := mk_dataset {
  seed : Z;
  masked_lm_prob : Q;
  max_seq_length : Z;
  the_indexed_dataset : indexed_dataset;
  expanded_inputs_length : Z;
  targets_length : Z;
  samples_mapping : list Packer.sample;
  vocab_id_list : list Z;
  cls_id : Z;
  sep_id : Z;
  mask_id : Z;
  pad_id : Z;
  bos_id : Z;
  eos_id : Z;
  sentinel_tokens : list Z
}.

(** [__init__]; [cache] is the content of the index file of this prefix and
    split name when it exists, [tok] the result of [get_tokenizer()]. *)
Definition init (fuel : nat) (cache : option (list Packer.sample))
    (tok : tokenizer) (ids : indexed_dataset)
    (masked_lm_prob : Q) (max_seq_length : Z) (seed : Z)
  : option (result NonCausalMLMDataset) :=
  let max_ngrams := 3 in
  match Planner.compute_input_and_target_lengths fuel max_seq_length
          masked_lm_prob (inject_Z max_ngrams) with
  | None => None
  | Some r =>
    Some ('(expanded_inputs_length, targets_length) <- r ;;
          samples_mapping <-
            Packer.get_samples_mapping cache (doc_idx ids) (sizes ids)
              expanded_inputs_length ;;
          let sentinel_tokens := additional_special_tokens_ids tok in
          if Np.len sentinel_tokens >? 0 then
            Ok (mk_dataset seed masked_lm_prob max_seq_length ids
                  expanded_inputs_length targets_length samples_mapping
                  (inv_vocab_keys tok) (cls tok) (sep tok) (mask tok) (pad tok)
                  (bos_token_id tok) (eos_token_id tok) sentinel_tokens)
          else Raise AssertionError)
  end.

(** [__len__] *)
Definition ds_len (self : NonCausalMLMDataset) : Z :=
  Np.len (samples_mapping self).

(** [__getitem__] *)
Definition getitem (self : NonCausalMLMDataset) (idx : Z) (g : Np.rng)
  : result (Sentinel.training_sample * Np.rng) :=
  indices <- Np.py_index (samples_mapping self) idx ;;
  let sample :=
    map (fun sp : Packer.span =>
           let '(doc_idx, start_index, end_index) := sp in
           Np.py_slice (get (the_indexed_dataset self) doc_idx)
             start_index end_index)
        indices in
  Sentinel.build_training_sample sample (expanded_inputs_length self)
    (vocab_id_list self) (cls_id self) (sep_id self) (mask_id self)
    (pad_id self) (bos_id self) (eos_id self) (sentinel_tokens self) g.

End Dataset.


(** ** Evaluation harness adaptor: [tasks/eval_harness/evaluate.py]

    Of [EvalHarnessAdaptor] the preparation of a batch in
    [_loglikelihood_tokens] and the padding of the batch in [_model_call]
    are embedded. A one-dimensional [torch.long] tensor is the list of its
    entries and a two-dimensional one the list of its rows; the
    [RuntimeError] of the tensor library is the outcome [None]. The model,
    its forward pass and the ordering and chunking of the requests by the
    harness library are left out. *)

Module EvalHarness.

(** A request is the tuple [(cache_key, context_enc, continuation_enc)]. *)
Definition request (K : Type) : Type := (K * list Z * list Z)%type.

(** The local [_collate]: the key by which the requests are ordered. *)
Definition _collate {K : Type} (x : request K) : Z * list Z :=
  let '(_, context_enc, continuation_enc) := x in
  let toks := context_enc ++ continuation_enc in
  (- Np.len toks, toks).

(** [(context_enc + continuation_enc)[-(max_length + 1):][:-1]] *)
Definition input_window (max_length : Z) (context_enc continuation_enc : list Z)
  : list Z :=
  let toks := context_enc ++ continuation_enc in
  let tail := Np.py_slice toks (- (max_length + 1)) (Np.len toks) in
  Np.py_slice tail 0 (-1).

(** [torch.zeros(n, dtype=torch.long)]: a negative size is an error. *)
Definition zeros (n : Z) : option (list Z) :=
  if n <? 0 then None else Some (repeat 0 (Z.to_nat n)).

(** The locals of the loop over the requests of a chunk. *)
Record chunk_state : Type := mk_chunk_state {
  inps : list (list Z);
  contlens : list (list Z);
  inplens : list Z;
  padding_length : option Z
}.

Definition chunk_init : chunk_state := mk_chunk_state [] [] [] None.

(** The body of the loop over the requests of a chunk. *)
Definition add_request {K : Type} (deepspeed : bool) (max_length : Z)
    (st : chunk_state) (x : request K) : option chunk_state :=
  let '(_, context_enc, continuation_enc) := x in
  let inp := input_window max_length context_enc continuation_enc in
  let inplen := Np.len inp in
  let cont := continuation_enc in
  let padding_length :=
    match padding_length st with Some p => p | None => inplen end in
  let padding_length := if deepspeed then max_length else padding_length in
  match zeros (padding_length - inplen) with
  | None => None
  | Some z =>
    Some (mk_chunk_state (inps st ++ [inp ++ z]) (contlens st ++ [cont])
            (inplens st ++ [inplen]) (Some padding_length))
  end.

Fixpoint add_requests {K : Type} (deepspeed : bool) (max_length : Z)
    (st : chunk_state) (chunk : list (request K)) : option chunk_state :=
  match chunk with
  | [] => Some st
  | x :: chunk' =>
    match add_request deepspeed max_length st x with
    | None => None
    | Some st' => add_requests deepspeed max_length st' chunk'
    end
  end.

(** [torch.cat(inps, dim=0)] of rows of shape [(1, n_i)]: the list must not
    be empty and the rows must have one length. *)
Definition cat_rows (rows : list (list Z)) : option (list (list Z)) :=
  match rows with
  | [] => None
  | r :: rest =>
    if forallb (fun r' => (length r' =? length r)%nat) rest
    then Some rows else None
  end.

(** The batch handed to [_model_call] for a chunk, with the locals kept for
    the scoring. *)
Definition batch {K : Type} (deepspeed : bool) (max_length : Z)
    (chunk : list (request K)) : option (list (list Z) * chunk_state) :=
  match add_requests deepspeed max_length chunk_init chunk with
  | None => None
  | Some st =>
    match cat_rows (inps st) with
    | None => None
    | Some rows => Some (rows, st)
    end
  end.

(** [logits[inplen - contlen:inplen]]: the rows of a request that are
    scored. *)
Definition scored {A : Type} (logits : list A) (inplen : Z) (cont_toks : list Z)
  : list A :=
  let contlen := Np.len cont_toks in
  Np.py_slice logits (inplen - contlen) inplen.

(** [_model_call], deepspeed branch: the number of rows appended. *)
Definition new_size (n micro_batch_size : Z) : result Z :=
  if micro_batch_size =? 0 then Raise ZeroDivisionError
  else Ok (((n + micro_batch_size - 1) / micro_batch_size) * micro_batch_size).

(** [F.pad(inps, (0, 0, 0, new_size), value=1)] for [new_size >= 0]: rows
    of ones are appended below. A negative amount, which only a negative
    micro batch size gives, crops instead and is not modelled. *)
Definition padded (inps : list (list Z)) (micro_batch_size : Z)
  : result (list (list Z)) :=
  new_size <- new_size (Np.len inps) micro_batch_size ;;
  let seq_len := match inps with [] => O | r :: _ => length r end in
  Ok (inps ++ repeat (repeat 1 seq_len) (Z.to_nat new_size)).

End EvalHarness.

(** ** Dataset builder: [build_dataset] of [_build_train_valid_test_datasets]

    The indexed dataset is one object shared by the three splits: its
    document index is replaced by the slice of a split while the dataset of
    the split is constructed and put back afterwards. [splits] is the
    result of [get_train_valid_test_split_]. *)

Module Builder.

(** [indexed_dataset.set_doc_idx(doc_idx)] *)
Definition set_doc_idx (indexed_dataset : Dataset.indexed_dataset)
    (doc_idx : list Z) : Dataset.indexed_dataset :=
  Dataset.mk_indexed_dataset doc_idx (Dataset.sizes indexed_dataset)
    (Dataset.get indexed_dataset).

(** The dataset [ds] once the indexed dataset it refers to has got the
    document index [doc_idx] by [set_doc_idx]. *)
Definition after_set_doc_idx (ds : Dataset.NonCausalMLMDataset)
    (doc_idx : list Z) : Dataset.NonCausalMLMDataset :=
  Dataset.mk_dataset (Dataset.seed ds) (Dataset.masked_lm_prob ds)
    (Dataset.max_seq_length ds)
    (set_doc_idx (Dataset.the_indexed_dataset ds) doc_idx)
    (Dataset.expanded_inputs_length ds) (Dataset.targets_length ds)
    (Dataset.samples_mapping ds) (Dataset.vocab_id_list ds)
    (Dataset.cls_id ds) (Dataset.sep_id ds) (Dataset.mask_id ds)
    (Dataset.pad_id ds) (Dataset.bos_id ds) (Dataset.eos_id ds)
    (Dataset.sentinel_tokens ds).

(** [build_dataset(index, name)]; [cache] is the index file of the split
    when it exists. The result [Ok None] is the Python value [None]. *)
Definition build_dataset (fuel : nat) (cache : option (list Packer.sample))
    (tok : Dataset.tokenizer) (indexed_dataset : Dataset.indexed_dataset)
    (splits : list Z) (masked_lm_prob : Q) (max_seq_length seed : Z)
    (index : Z) : option (result (option Dataset.NonCausalMLMDataset)) :=
  match Np.py_index splits (index + 1) with
  | Raise e => Some (Raise e)
  | Ok hi =>
    match Np.py_index splits index with
    | Raise e => Some (Raise e)
    | Ok lo =>
      if hi >? lo then
        let doc_idx_ptr := Dataset.doc_idx indexed_dataset in
        let start_index := lo in
        let end_index := hi + 1 in
        match Dataset.init fuel cache tok
                (set_doc_idx indexed_dataset
                   (Np.py_slice doc_idx_ptr start_index end_index))
                masked_lm_prob max_seq_length seed with
        | None => None
        | Some (Raise e) => Some (Raise e)
        | Some (Ok dataset) =>
          Some (Ok (Some (after_set_doc_idx dataset doc_idx_ptr)))
        end
      else Some (Ok None)
    end
  end.

End Builder.

(** ** Binary64 arithmetic

    The float operations of the planner and of the generator, as Python
    computes them: every result is the binary64 value nearest to the exact
    one, ties to even. A finite float is the rational it stands for; the
    sign of zero is not kept, no operation of the source can tell. *)

Module F64.

Inductive t : Type :=
| Finite (x : Q)
| Inf (negative : bool)
| NaN.

(** [2 ** e] *)
Definition pow2 (e : Z) : Q := (2 ^ e)%Q.

(** The exponent [e] with [2 ** e <= x < 2 ** (e + 1)], for [x > 0]. *)
Definition ilog2 (x : Q) : Z :=
  let e := Z.log2 (Qnum x) - Z.log2 (Zpos (Qden x)) in
  if Qle_bool (pow2 e) x then e else e - 1.

(** The exponent of the unit in the last place at [x <> 0]: 53 bits of
    precision, and the subnormal range below [2 ** -1022]. *)
Definition ulp_exp (x : Q) : Z := Z.max (ilog2 (Qabs x) - 52) (-1074).

(** The binary64 value nearest to [x], ties to even; beyond the largest
    finite value the result is an infinity. *)
Definition of_Q (x : Q) : t :=
  if Qeq_bool x 0 then Finite 0
  else
    let q := ulp_exp x in
    let mant := Np.round (x * pow2 (Z.opp q))%Q in
    let v := (inject_Z mant * pow2 q)%Q in
    if Qle_bool (pow2 1024) (Qabs v) then Inf (Qnum x <? 0) else Finite v.

(** [float(n)] for a Python integer. *)
Definition of_Z (n : Z) : result t :=
  match of_Q (inject_Z n) with
  | Inf _ => Raise OverflowError
  | v => Ok v
  end.

(** [a * b] *)
Definition mul (a b : t) : t :=
  match a, b with
  | NaN, _ | _, NaN => NaN
  | Finite x, Finite y => of_Q (x * y)%Q
  | Finite x, Inf s | Inf s, Finite x =>
    if Qeq_bool x 0 then NaN else Inf (xorb s (Qnum x <? 0))
  | Inf s, Inf s' => Inf (xorb s s')
  end.

(** [a / b]: Python raises on a zero divisor. *)
Definition div (a b : t) : result t :=
  match b with
  | Finite y =>
    if Qeq_bool y 0 then Raise ZeroDivisionError
    else
      match a with
      | Finite x => Ok (of_Q (x / y)%Q)
      | Inf s => Ok (Inf (xorb s (Qnum y <? 0)))
      | NaN => Ok NaN
      end
  | Inf _ => match a with Finite _ => Ok (Finite 0) | _ => Ok NaN end
  | NaN => Ok NaN
  end.

(** [a == b] *)
Definition eqb (a b : t) : bool :=
  match a, b with
  | Finite x, Finite y => Qeq_bool x y
  | Inf s, Inf s' => Bool.eqb s s'
  | _, _ => false
  end.

(** [int(round(a))] and [int(np.round(a))]: round half to even. *)
Definition py_round (a : t) : result Z :=
  match a with
  | Finite x => Ok (Np.round x)
  | Inf _ => Raise OverflowError
  | NaN => Raise ValueError
  end.

End F64.

(** ** Length planner in binary64

    [Planner] with the product and the quotient rounded as Python rounds
    them. The density and the mean span length are floats; an integer mean
    span length is taken as the float of the same value, which gives the
    same quotient for every count below [2 ** 53]. *)

Module Planner64.

(** [_tokens_length_to_inputs_length_targets_length] *)
Definition tokens_length_to_lengths (noise_density mean_noise_span_length : F64.t)
    (tokens_length : Z) : result (Z * Z) :=
  t <- F64.of_Z tokens_length ;;
  num_noise_tokens <- F64.py_round (F64.mul t noise_density) ;;
  let num_nonnoise_tokens := tokens_length - num_noise_tokens in
  n <- F64.of_Z num_noise_tokens ;;
  q <- F64.div n mean_noise_span_length ;;
  num_noise_spans <- F64.py_round q ;;
  let _input_length := num_nonnoise_tokens + num_noise_spans + 1 in
  let _output_length := num_noise_tokens + num_noise_spans + 1 in
  Ok (_input_length, _output_length).

(** The [while] loop. [None] means that [fuel] iterations were not enough. *)
Fixpoint search (fuel : nat) (inputs_length : Z)
    (noise_density mean_noise_span_length : F64.t) (tokens_length : Z)
  : option (result Z) :=
  match fuel with
  | O => None
  | S fuel' =>
    match tokens_length_to_lengths noise_density mean_noise_span_length
            (tokens_length + 1) with
    | Raise e => Some (Raise e)
    | Ok (il, _) =>
      if il <=? inputs_length
      then search fuel' inputs_length noise_density mean_noise_span_length
             (tokens_length + 1)
      else Some (Ok tokens_length)
    end
  end.

Definition compute_input_and_target_lengths (fuel : nat) (inputs_length : Z)
    (noise_density mean_noise_span_length : F64.t) : option (result (Z * Z)) :=
  match search fuel inputs_length noise_density mean_noise_span_length
          inputs_length with
  | None => None
  | Some r =>
    Some (tokens_length <- r ;;
          '(inputs_length, targets_length) <-
             tokens_length_to_lengths noise_density mean_noise_span_length
               tokens_length ;;
          if F64.eqb noise_density (F64.Finite (1 # 2))
             && (targets_length >? inputs_length)
          then Ok (tokens_length - 1, targets_length - 1)
          else Ok (tokens_length, targets_length))
  end.

End Planner64.

(** ** Noise mask generator in binary64 *)

Module NoiseMask64.

(** [num_noise_tokens], after the clamp. *)
Definition num_noise_tokens (length : Z) (noise_density : F64.t) : result Z :=
  l <- F64.of_Z length ;;
  num_noise_tokens <- F64.py_round (F64.mul l noise_density) ;;
  Ok (Z.min (Z.max num_noise_tokens 1) (length - 1)).

(** [num_noise_spans], after the clamp. *)
Definition num_noise_spans (num_noise_tokens : Z) (mean_noise_span_length : F64.t)
  : result Z :=
  n <- F64.of_Z num_noise_tokens ;;
  q <- F64.div n mean_noise_span_length ;;
  num_noise_spans <- F64.py_round q ;;
  Ok (Z.max num_noise_spans 1).

(** [random_spans_noise_mask] *)
Definition random_spans_noise_mask (length : Z)
    (noise_density mean_noise_span_length : F64.t) (g : Np.rng)
  : result (list bool * Np.rng) :=
  let orig_length := length in
  num_noise_tokens <- num_noise_tokens length noise_density ;;
  num_noise_spans <- num_noise_spans num_noise_tokens mean_noise_span_length ;;
  let num_nonnoise_tokens := length - num_noise_tokens in
  let '(noise_span_lengths, g) :=
    NoiseMask.random_segmentation num_noise_tokens num_noise_spans g in
  let '(nonnoise_span_lengths, g) :=
    NoiseMask.random_segmentation num_nonnoise_tokens num_noise_spans g in
  stacked <- Np.stack2 nonnoise_span_lengths noise_span_lengths ;;
  interleaved_span_lengths <- Np.reshape_flat stacked (num_noise_spans * 2) ;;
  let span_starts := removelast (Np.cumsum interleaved_span_lengths) in
  span_start_indicator <- Np.zeros length ;;
  span_start_indicator <- Np.set_indices span_start_indicator span_starts 1 ;;
  let span_num := Np.cumsum span_start_indicator in
  let is_noise := map (fun n => n mod 2 =? 1) span_num in
  Ok (Np.py_prefix is_noise orig_length, g).

End NoiseMask64.
(** * Vocabulary of the statements and of their proofs *)

Module Mask.

(** Number of positions of [l] holding [b]. *)
Fixpoint count (b : bool) (l : list bool) : Z :=
  match l with
  | [] => 0
  | x :: l' => (if Bool.eqb x b then 1 else 0) + count b l'
  end.

(** Number of span starts among the first [n] positions of [l], where
    [prev] is the value left of position 0: a span start is a true position
    whose predecessor is false. *)
Fixpoint starts_upto (prev : bool) (l : list bool) (n : nat) {struct n} : Z :=
  match n, l with
  | S n', x :: l' => (if x && negb prev then 1 else 0) + starts_upto x l' n'
  | _, _ => 0
  end.

(** Position [i] starts a span of [l]. *)
Definition span_start (l : list bool) (i : nat) : bool :=
  nth i l false && negb (match i with O => false | S j => nth j l false end).

(** The same with an explicit left neighbour [prev] of position 0. *)
Definition start_at (prev : bool) (l : list bool) (i : nat) : bool :=
  nth i l false && negb (match i with O => prev | S j => nth j l false end).

(** Rank of position [i]: the number of span starts at positions [<= i]. *)
Definition rank (l : list bool) (i : nat) : Z := starts_upto false l (S i).

(** Number of maximal runs of true. *)
Definition runs (l : list bool) : Z := starts_upto false l (length l).

End Mask.

(** Position [i] of the token array survives the deletion filter of
    [filter_input_ids]: its entry after the [np.where] is not negative. *)
Definition kept_at (input_ids sentinel_ids : list Z) (i : nat) : Prop :=
  exists full,
    Sentinel.input_ids_full input_ids sentinel_ids = Ok full
    /\ 0 <= nth i full (-1).

(** The sentinel map computed in one pass from the left: [prev] is the mask
    value of the previous position and [r] the rank reached so far. *)
Fixpoint sentinel_pass (vocab_len : Z) (prev : bool) (r : Z) (mask : list bool)
  : list Z :=
  match mask with
  | [] => []
  | true :: l =>
    if prev then -1 :: sentinel_pass vocab_len true r l
    else (vocab_len - (r + 1)) :: sentinel_pass vocab_len true (r + 1) l
  | false :: l => 0 :: sentinel_pass vocab_len false r l
  end.

(** Each element paired with its left neighbour. *)
Fixpoint with_prev (f : Z -> Z -> Z) (p : Z) (l : list Z) : list Z :=
  match l with
  | [] => []
  | x :: l' => f x p :: with_prev f x l'
  end.

(** The three array passes of [create_sentinel_ids] after the start
    indicator, with the running sum started at [acc]. *)
Definition passes (vocab_len acc : Z) (m st : list Z) : list Z :=
  Np.zip_with Z.sub
    (map (fun s => if s =? 0 then 0 else vocab_len - s)
       (Np.zip_with (fun s c => if s =? 0 then s else c) st (Np.cumsum_from acc st)))
    (Np.zip_with Z.sub m st).

(** Invariant of the packer's build loop for the window [max_len]: every
    emitted sample fills the window, and [current_len] is the summed length
    of the open accumulator. *)
Definition packed (max_len : Z) (st : Packer.build_state) : Prop :=
  Forall (fun s => Packer.sample_len_of s = max_len) (Packer.samples_mapping st)
  /\ Packer.sample_len_of (Packer.sample_indices st) = Packer.current_len st.

(** The simulated lengths of the planner at raw length [T]. *)
Definition noise_tokens (d : Q) (T : Z) : Z := Np.round (inject_Z T * d).

Definition noise_spans (d m : Q) (T : Z) : Z :=
  Np.round (inject_Z (noise_tokens d T) / m).

Definition input_len (d m : Q) (T : Z) : Z :=
  (T - noise_tokens d T) + noise_spans d m T + 1.

Definition target_len (d m : Q) (T : Z) : Z :=
  noise_tokens d T + noise_spans d m T + 1.

(** The noise count of the generator after clamping, and its span count. *)
Definition clamped_noise_tokens (L : Z) (d : Q) : Z :=
  Z.min (Z.max (Np.round (inject_Z L * d)) 1) (L - 1).

Definition span_count (n : Z) (m : Q) : Z :=
  Z.max (Np.round (inject_Z n / m)) 1.

(** Sum of a list of integers. *)
Definition sumZ (l : list Z) : Z := fold_right Z.add 0 l.

(** Segment lengths cut out of an indicator list: [k] is the length of the
    segment being counted, a true entry opens the next segment. *)
Fixpoint seg_lengths (k : Z) (bs : list bool) : list Z :=
  match bs with
  | [] => [k]
  | true :: t => k :: seg_lengths 1 t
  | false :: t => seg_lengths (k + 1) t
  end.

(** The span-start indicator laid out block by block: a block of length [c]
    is its head followed by [c - 1] zeros; later blocks have head 1. *)
Fixpoint blocks (h : Z) (cs : list Z) : list Z :=
  match cs with
  | [] => []
  | c :: rest => (h :: repeat 0 (Z.to_nat (c - 1))) ++ blocks 1 rest
  end.

(** Alternating runs of [p], [negb p], ... with the lengths [cs]. *)
Fixpoint alternate (p : bool) (cs : list Z) : list bool :=
  match cs with
  | [] => []
  | c :: rest => repeat p (Z.to_nat c) ++ alternate (negb p) rest
  end.

(** [np.stack] then [np.reshape] of the two length rows. *)
Definition interleave (b a : list Z) : list Z :=
  flat_map (fun p => [fst p; snd p]) (combine b a).

(** Parity test applied to the span numbers. *)
Definition parity (n : Z) : bool := n mod 2 =? 1.

(** Number of span starts of the whole list [l], with [prev] left of it. *)
Definition runs_from (prev : bool) (l : list bool) : Z :=
  Mask.starts_upto prev l (length l).

(** What [build_training_sample] does once the mask is drawn. *)
Definition assemble (tokens : list Z) (vocab_id_list : list Z) (eos_id : Z)
    (mask_indices : list bool) : result Sentinel.training_sample :=
  let labels_mask := map negb mask_indices in
  input_ids_sentinel <-
    Sentinel.create_sentinel_ids (Sentinel.astype_int8 mask_indices)
      (Np.len vocab_id_list) ;;
  labels_sentinel <-
    Sentinel.create_sentinel_ids (Sentinel.astype_int8 labels_mask)
      (Np.len vocab_id_list) ;;
  input_tokens_ids <- Sentinel.filter_input_ids tokens input_ids_sentinel eos_id ;;
  output_tokens_ids <- Sentinel.filter_input_ids tokens labels_sentinel eos_id ;;
  Ok (Sentinel.mk_training_sample (input_tokens_ids ++ output_tokens_ids)
        (Np.len input_tokens_ids)).

(** The token lists that [__getitem__] gathers for the spans [indices]. *)
Definition gather (ids : Dataset.indexed_dataset) (indices : Packer.sample)
  : list (list Z) :=
  map (fun sp : Packer.span =>
         let '(doc_idx, start_index, end_index) := sp in
         Np.py_slice (Dataset.get ids doc_idx) start_index end_index)
      indices.

(** The dataset object that [__init__] builds for the tokenizer [tok], the
    corpus [ids] and the arguments [seed], [p], [W] once the planner has
    returned the lengths [T], [tl] and the index [m] is loaded. *)
Definition dataset_of (tok : Dataset.tokenizer) (ids : Dataset.indexed_dataset)
    (seed : Z) (p : Q) (W T tl : Z) (m : list Packer.sample)
  : Dataset.NonCausalMLMDataset :=
  Dataset.mk_dataset seed p W ids T tl m
    (Dataset.inv_vocab_keys tok) (Dataset.cls tok) (Dataset.sep tok)
    (Dataset.mask tok) (Dataset.pad tok) (Dataset.bos_token_id tok)
    (Dataset.eos_token_id tok) (Dataset.additional_special_tokens_ids tok).

(** An item access spelled out: look up the spans, draw the mask at the raw
    length [T] with density 0.15 and mean span length 3, then assemble. *)
Definition item_access (tok : Dataset.tokenizer) (ids : Dataset.indexed_dataset)
    (m : list Packer.sample) (T : Z) (idx : Z) (g : Np.rng)
  : result (Sentinel.training_sample * Np.rng) :=
  indices <- Np.py_index m idx ;;
  '(mask_indices, g') <- NoiseMask.random_spans_noise_mask T (15 # 100) 3 g ;;
  ts <- assemble (concat (gather ids indices)) (Dataset.inv_vocab_keys tok)
          (Dataset.eos_token_id tok) mask_indices ;;
  Ok (ts, g').

(** A small corpus and tokenizer used to instantiate the statements. *)
Definition example_corpus : Dataset.indexed_dataset :=
  Dataset.mk_indexed_dataset [0; 1; 2; 3] [5; 5; 2]
    (fun doc => if doc =? 2 then [7; 8] else [1; 2; 3; 4; 5]).

Definition example_tokenizer : Dataset.tokenizer :=
  Dataset.mk_tokenizer [0; 1; 2; 3; 4; 5; 6; 7; 8; 9; 10; 11] 0 0 0 0 0 9 [10; 11].

Definition example_dataset (p : Q) : Dataset.NonCausalMLMDataset :=
  dataset_of example_tokenizer example_corpus 1234 p 4 4 2
    [[(0, 0, 4)]; [(0, 4, 5); (1, 0, 3)]].


(** The generator from the point where its two counts are known: the two
    segmentations and the layout of the spans. *)
Definition spans_mask (L n s : Z) (g : Np.rng) : result (list bool * Np.rng) :=
  let '(noise_span_lengths, g) := NoiseMask.random_segmentation n s g in
  let '(nonnoise_span_lengths, g) :=
    NoiseMask.random_segmentation (L - n) s g in
  stacked <- Np.stack2 nonnoise_span_lengths noise_span_lengths ;;
  interleaved_span_lengths <- Np.reshape_flat stacked (s * 2) ;;
  let span_starts := removelast (Np.cumsum interleaved_span_lengths) in
  span_start_indicator <- Np.zeros L ;;
  span_start_indicator <- Np.set_indices span_start_indicator span_starts 1 ;;
  let span_num := Np.cumsum span_start_indicator in
  let is_noise := map (fun n => n mod 2 =? 1) span_num in
  Ok (Np.py_prefix is_noise L, g).
(** * Vocabulary of the further properties *)

(** ** Document packer *)

(** All spans placed so far, emitted or still in the accumulator, in order. *)
Definition all_spans (st : Packer.build_state) : list Packer.span :=
  concat (Packer.samples_mapping st) ++ Packer.sample_indices st.

(** Summed length of the documents [docs], given as (id, size) pairs. *)
Definition total_size (docs : list (Z * Z)) : Z :=
  fold_right (fun d acc => snd d + acc) 0 docs.

(** The span [sp] lies inside a document of [docs] with the same id. *)
Definition span_in (docs : list (Z * Z)) (sp : Packer.span) : Prop :=
  let '(doc, start_index, end_index) := sp in
  0 <= start_index <= end_index
  /\ exists size, In (doc, size) docs /\ end_index <= size.

(** The part of a document left for [breakdown] by the loop body. *)
Definition remainder (max_len : Z) (st : Packer.build_state) (sample_len : Z) : Z :=
  if Packer.current_len st + sample_len >? max_len
  then sample_len - (max_len - Packer.current_len st)
  else sample_len.

(** The state after a loop body that does not raise. *)
Definition step_result (max_len : Z) (st : Packer.build_state)
    (doc_idx sample_len : Z) : Packer.build_state :=
  if Packer.current_len st + sample_len >? max_len then
    let end_idx := max_len - Packer.current_len st in
    Packer.mk_build_state
      (Packer.samples_mapping st
         ++ [Packer.sample_indices st ++ [(doc_idx, 0, end_idx)]])
      [(doc_idx, end_idx, sample_len)]
      (sample_len - end_idx)
  else
    Packer.mk_build_state
      (Packer.samples_mapping st)
      (Packer.sample_indices st ++ [(doc_idx, 0, sample_len)])
      (Packer.current_len st + sample_len).

(** What the loop maintains about the documents [done] processed so far. *)
Definition accounted (max_len : Z) (done : list (Z * Z))
    (st : Packer.build_state) : Prop :=
  0 <= Packer.current_len st <= max_len
  /\ Np.len (Packer.samples_mapping st) * max_len + Packer.current_len st
     = total_size done
  /\ Forall (span_in done) (all_spans st).


(** ** Streams *)

(** A token array cut into pairs of a non-noise segment and the noise
    segment that follows it. *)
Definition seg_tokens (segs : list (list Z * list Z)) : list Z :=
  flat_map (fun p => fst p ++ snd p) segs.

(** The mask of such a cut: false on non-noise, true on noise segments. *)
Definition seg_mask (segs : list (list Z * list Z)) : list bool :=
  flat_map (fun p => repeat false (length (fst p)) ++ repeat true (length (snd p)))
    segs.

(** The input side: every noise segment is replaced by one sentinel, the
    k-th by [vocab_len - k]; [r] sentinels were used before. *)
Fixpoint input_stream (vocab_len r : Z) (segs : list (list Z * list Z))
  : list Z :=
  match segs with
  | [] => []
  | p :: rest => fst p ++ (vocab_len - (r + 1)) :: input_stream vocab_len (r + 1) rest
  end.

(** The target side: every non-noise segment is replaced by one sentinel,
    the k-th by [vocab_len - k], and is followed by the k-th noise segment. *)
Fixpoint target_stream (vocab_len r : Z) (segs : list (list Z * list Z))
  : list Z :=
  match segs with
  | [] => []
  | p :: rest =>
    (vocab_len - (r + 1)) :: snd p ++ target_stream vocab_len (r + 1) rest
  end.

(** What survives of [tokens] under the sentinel map of [mask]. *)
Definition surviving (vocab_len : Z) (prev : bool) (r : Z) (mask : list bool)
    (tokens : list Z) : list Z :=
  filter (fun x => 0 <=? x)
    (map (fun p => if fst p =? 0 then snd p else fst p)
       (combine (sentinel_pass vocab_len prev r mask) tokens)).

(** Cutting [tokens] by the non-noise lengths [bs] and noise lengths [as_]. *)
Fixpoint cut (bs as_ : list Z) (tokens : list Z) : list (list Z * list Z) :=
  match bs, as_ with
  | b :: bs', a :: as' =>
    (firstn (Z.to_nat b) tokens,
     firstn (Z.to_nat a) (skipn (Z.to_nat b) tokens))
    :: cut bs' as' (skipn (Z.to_nat a) (skipn (Z.to_nat b) tokens))
  | _, _ => []
  end.


(** ** Dataset *)

(** A corpus of three documents for a window of ten tokens. *)
Definition example_documents : Dataset.indexed_dataset :=
  Dataset.mk_indexed_dataset [0; 1; 2; 3] [6; 7; 5]
    (fun doc =>
       if doc =? 0 then [1; 2; 3; 4; 5; 6]
       else if doc =? 1 then [1; 2; 3; 4; 5; 6; 7]
       else [1; 2; 3; 4; 5]).


(** ** Evaluation harness *)

(** The tokens of a request. *)
Definition tokens_of {K : Type} (x : EvalHarness.request K) : list Z :=
  snd (EvalHarness._collate x).

(** The input window of a request. *)
Definition window_of {K : Type} (max_length : Z) (x : EvalHarness.request K)
  : list Z :=
  let '(_, context_enc, continuation_enc) := x in
  EvalHarness.input_window max_length context_enc continuation_enc.

(** The first request of the chunk has the least key of [_collate]. *)
Definition longest_first {K : Type} (chunk : list (EvalHarness.request K)) : Prop :=
  match chunk with
  | [] => True
  | x0 :: rest =>
    Forall (fun x => fst (EvalHarness._collate x0) <= fst (EvalHarness._collate x))
      rest
  end.

(** The input window of [x] padded with zeros to [p] entries. *)
Definition padded_row {K : Type} (max_length p : Z) (x : EvalHarness.request K)
  : list Z :=
  window_of max_length x
    ++ repeat 0 (Z.to_nat (p - Np.len (window_of max_length x))).

(** ** Dataset builder *)

(** The span [sp] reads the [i]-th document of a split that starts at
    document [s], and ends within the [i]-th size of the whole corpus. *)
Definition span_of_split (ids : Dataset.indexed_dataset) (s : Z) (i : nat)
    (sp : Packer.span) : Prop :=
  let '(doc, start_index, end_index) := sp in
  nth_error (Dataset.doc_idx ids) (Z.to_nat s + i) = Some doc
  /\ exists size,
       nth_error (Dataset.sizes ids) i = Some size
       /\ 0 <= start_index <= end_index /\ end_index <= size.

(** A corpus of six documents, cut into splits of 3, 2 and 1 documents. *)
Definition example_split_corpus : Dataset.indexed_dataset :=
  Dataset.mk_indexed_dataset [0; 1; 2; 3; 4; 5; 6] [6; 7; 5; 3; 9; 2]
    (fun doc => repeat 1 (Z.to_nat (nth (Z.to_nat doc) [6; 7; 5; 3; 9; 2] 0))).

Definition example_splits : list Z := [0; 3; 5; 6].
(** * Properties *)

(** ** The result monad *)

Lemma bind_Ok_inv (A B : Type) (c : result A) (k : A -> result B) (b : B) :
  bind c k = Ok b -> exists a, c = Ok a /\ k a = Ok b.
Proof.
  destruct c as [a|e]; simpl; intros H.
  - exists a. split; [reflexivity | exact H].
  - discriminate H.
Qed.

(** ** Length planner *)

(** *** Rounding *)

Lemma round_cases (x : Q) :
  let f := Qfloor x in
  ((x - inject_Z f < 1 # 2)%Q /\ Np.round x = f)
  \/ ((1 # 2 < x - inject_Z f)%Q /\ Np.round x = f + 1)
  \/ ((x - inject_Z f == 1 # 2)%Q /\ Np.round x = if Z.even f then f else f + 1).
Proof.
  cbv zeta. unfold Np.round.
  destruct (Qcompare_spec (x - inject_Z (Qfloor x)) (1 # 2)) as [E|L|G].
  - right. right. split; [exact E | reflexivity].
  - left. split; [exact L | reflexivity].
  - right. left. split; [exact G | reflexivity].
Qed.

(** The rounded value is within one half of its argument. *)
Lemma round_near (x : Q) :
  (inject_Z (Np.round x) - (1 # 2) <= x <= inject_Z (Np.round x) + (1 # 2))%Q.
Proof.
  pose proof (Qfloor_le x) as Hlo. pose proof (Qlt_floor x) as Hhi.
  rewrite inject_Z_plus in Hhi. change (inject_Z 1) with 1%Q in Hhi.
  destruct (round_cases x) as [[H ->]|[[H ->]|[H E]]].
  - split; lra.
  - rewrite inject_Z_plus. change (inject_Z 1) with 1%Q. split; lra.
  - rewrite E. destruct (Z.even (Qfloor x)).
    + split; lra.
    + rewrite inject_Z_plus. change (inject_Z 1) with 1%Q. split; lra.
Qed.

Lemma round_mono (x y : Q) : (x <= y)%Q -> Np.round x <= Np.round y.
Proof.
  intros Hxy.
  pose proof (Qfloor_resp_le x y Hxy) as Hf.
  pose proof (Qfloor_le y) as Hylo. pose proof (Qlt_floor x) as Hxhi.
  rewrite inject_Z_plus in Hxhi.
  assert (Hrx : Np.round x <= Qfloor x + 1).
  { destruct (round_cases x) as [[_ ->]|[[_ ->]|[_ ->]]];
      [lia | lia | destruct (Z.even (Qfloor x)); lia]. }
  assert (Hry : Qfloor y <= Np.round y).
  { destruct (round_cases y) as [[_ ->]|[[_ ->]|[_ ->]]];
      [lia | lia | destruct (Z.even (Qfloor y)); lia]. }
  destruct (Z.eq_dec (Qfloor x) (Qfloor y)) as [E|N]; [|lia].
  destruct (round_cases x) as [[Hx Ex]|[[Hx Ex]|[Hx Ex]]];
  destruct (round_cases y) as [[Hy Ey]|[[Hy Ey]|[Hy Ey]]];
    rewrite Ex, Ey; rewrite <- ?E in *;
    try (destruct (Z.even (Qfloor x))); try lia; exfalso; lra.
Qed.

Lemma round_inject_Z (n : Z) : Np.round (inject_Z n) = n.
Proof.
  destruct (round_cases (inject_Z n)) as [[H E]|[[H E]|[H E]]];
    rewrite Qfloor_Z in *; rewrite E; try reflexivity; exfalso; lra.
Qed.

Lemma round_nonneg (x : Q) : (0 <= x)%Q -> 0 <= Np.round x.
Proof.
  intros H. rewrite <- (round_inject_Z 0). apply round_mono, H.
Qed.

Lemma Qeq_bool_neq_0 (m : Q) : (1 <= m)%Q -> Qeq_bool m 0 = false.
Proof.
  intros H. destruct (Qeq_bool m 0) eqn:E; [|reflexivity].
  apply Qeq_bool_eq in E. exfalso. lra.
Qed.

Lemma Z_of_Q_lt (a b : Z) : (inject_Z a < inject_Z b)%Q -> a < b.
Proof. unfold Qlt. simpl. lia. Qed.

Lemma Z_of_Q_le (a b : Z) : (inject_Z a <= inject_Z b)%Q -> a <= b.
Proof. unfold Qle. simpl. lia. Qed.

(** *** The simulated lengths *)

Section PlannerLengths.

Variables d m : Q.
Hypothesis d_pos : (0 < d)%Q.
Hypothesis d_lt_1 : (d < 1)%Q.
Hypothesis m_ge_1 : (1 <= m)%Q.

Lemma lengths_ok (T : Z) :
  Planner.tokens_length_to_lengths d m T = Ok (input_len d m T, target_len d m T).
Proof.
  unfold Planner.tokens_length_to_lengths, Np.py_div.
  rewrite Qeq_bool_neq_0 by exact m_ge_1. reflexivity.
Qed.

Lemma scaled_mono (a b : Z) : a <= b -> (inject_Z a * d <= inject_Z b * d)%Q.
Proof.
  intros H. apply Qmult_le_compat_r; [|lra].
  unfold Qle. simpl. lia.
Qed.

Lemma noise_tokens_mono (a b : Z) : a <= b -> noise_tokens d a <= noise_tokens d b.
Proof. intros H. apply round_mono, scaled_mono, H. Qed.

Lemma noise_tokens_nonneg (T : Z) : 0 <= T -> 0 <= noise_tokens d T.
Proof.
  intros H. apply round_nonneg.
  setoid_replace 0%Q with (inject_Z 0 * d)%Q by ring.
  apply scaled_mono, H.
Qed.

Lemma noise_tokens_step (T : Z) : noise_tokens d (T + 1) <= noise_tokens d T + 1.
Proof.
  unfold noise_tokens.
  pose proof (round_near (inject_Z (T + 1) * d)) as [Hhi _].
  pose proof (round_near (inject_Z T * d)) as [_ Hlo].
  assert (E : (inject_Z (T + 1) * d == inject_Z T * d + d)%Q)
    by (rewrite inject_Z_plus; change (inject_Z 1) with 1%Q; ring).
  assert (L : (inject_Z (Np.round (inject_Z (T + 1) * d))
               < inject_Z (Np.round (inject_Z T * d)) + inject_Z 2)%Q).
  { change (inject_Z 2) with 2%Q. revert Hhi Hlo E.
    generalize (inject_Z (Np.round (inject_Z (T + 1) * d))).
    generalize (inject_Z (Np.round (inject_Z T * d))).
    generalize (inject_Z (T + 1) * d)%Q. generalize (inject_Z T * d)%Q.
    intros x y rx ry Hhi Hlo E. lra. }
  rewrite <- inject_Z_plus in L.
  apply Z_of_Q_lt in L. lia.
Qed.

Lemma quotient_mono (a b : Z) : a <= b -> (inject_Z a / m <= inject_Z b / m)%Q.
Proof.
  intros H. unfold Qdiv. apply Qmult_le_compat_r.
  - unfold Qle. simpl. lia.
  - apply Qinv_le_0_compat. lra.
Qed.

Lemma noise_spans_mono (a b : Z) :
  noise_tokens d a <= noise_tokens d b -> noise_spans d m a <= noise_spans d m b.
Proof. intros H. apply round_mono, quotient_mono, H. Qed.

Lemma noise_spans_nonneg (T : Z) : 0 <= T -> 0 <= noise_spans d m T.
Proof.
  intros H. apply round_nonneg.
  setoid_replace 0%Q with (inject_Z 0 / m)%Q by (unfold Qdiv; ring).
  apply quotient_mono, noise_tokens_nonneg, H.
Qed.

Lemma input_len_step (T : Z) : input_len d m T <= input_len d m (T + 1).
Proof.
  unfold input_len.
  pose proof (noise_tokens_step T) as Hs.
  pose proof (noise_tokens_mono T (T + 1) ltac:(lia)) as Hm.
  pose proof (noise_spans_mono T (T + 1) Hm) as Hsp.
  lia.
Qed.

Lemma input_len_mono (a b : Z) : a <= b -> input_len d m a <= input_len d m b.
Proof.
  intros H. replace b with (a + Z.of_nat (Z.to_nat (b - a))) by lia.
  induction (Z.to_nat (b - a)) as [|n IH].
  - rewrite Z.add_0_r. lia.
  - rewrite Nat2Z.inj_succ.
    replace (a + Z.succ (Z.of_nat n)) with (a + Z.of_nat n + 1) by lia.
    pose proof (input_len_step (a + Z.of_nat n)). lia.
Qed.

(** Twice the rounded noise count, scaled by the denominator of [d]. *)
Lemma noise_tokens_upper (T : Z) :
  2 * Zpos (Qden d) * noise_tokens d T <= 2 * T * Qnum d + Zpos (Qden d).
Proof.
  clear d_pos d_lt_1 m_ge_1. unfold noise_tokens.
  pose proof (round_near (inject_Z T * d)) as [Hlo _].
  revert Hlo. generalize (Np.round (inject_Z T * d)). intros n.
  destruct d as [p q]. unfold Qle, Qminus, Qplus, Qopp, Qmult, inject_Z.
  cbn [Qnum Qden]. rewrite !Pos2Z.inj_mul. lia.
Qed.

(** Past [W * Qden d] raw tokens the simulated input no longer fits. *)
Lemma input_len_large (W T : Z) :
  0 <= W -> W * Zpos (Qden d) <= T -> W < input_len d m T.
Proof.
  intros HW HT.
  assert (T0 : 0 <= T) by nia.
  pose proof (noise_tokens_upper T) as Hup.
  pose proof (noise_spans_nonneg T T0) as Hsp.
  assert (Hpq : Qnum d + 1 <= Zpos (Qden d)).
  { revert d_lt_1. destruct d as [p q]. unfold Qlt. cbn [Qnum Qden]. lia. }
  unfold input_len.
  set (q := Zpos (Qden d)) in *. set (p := Qnum d) in *.
  set (n := noise_tokens d T) in *.
  assert (q > 0) by (unfold q; lia).
  assert (2 * q * (T - n + 1) > 2 * q * W) by nia.
  nia.
Qed.

End PlannerLengths.

(** *** The search loop *)

Section PlannerSearch.

Variable W : Z.
Variables d m : Q.
Hypothesis W_pos : 1 <= W.
Hypothesis d_pos : (0 < d)%Q.
Hypothesis d_lt_1 : (d < 1)%Q.
Hypothesis m_ge_1 : (1 <= m)%Q.

Lemma search_step (fuel : nat) (T0 : Z) :
  Planner.search (S fuel) W d m T0
  = if input_len d m (T0 + 1) <=? W
    then Planner.search fuel W d m (T0 + 1)
    else Some (Ok T0).
Proof.
  cbn [Planner.search]. rewrite lengths_ok by exact m_ge_1. reflexivity.
Qed.

Lemma search_sound (fuel : nat) :
  forall T0 T, Planner.search fuel W d m T0 = Some (Ok T) ->
  T0 <= T
  /\ W < input_len d m (T + 1)
  /\ forall t, T0 < t <= T -> input_len d m t <= W.
Proof.
  induction fuel as [|fuel IH]; intros T0 T H; [discriminate H|].
  rewrite search_step in H.
  destruct (input_len d m (T0 + 1) <=? W) eqn:E.
  - apply Z.leb_le in E. destruct (IH _ _ H) as (H1 & H2 & H3).
    split; [lia|]. split; [exact H2|].
    intros t Ht. destruct (Z.eq_dec t (T0 + 1)) as [->|N]; [exact E|].
    apply H3. lia.
  - apply Z.leb_gt in E. injection H as <-.
    split; [lia|]. split; [lia|]. intros t Ht. lia.
Qed.

Lemma search_terminates (fuel : nat) :
  forall T0, (0 < fuel)%nat -> W * Zpos (Qden d) <= T0 + Z.of_nat fuel ->
  exists T, Planner.search fuel W d m T0 = Some (Ok T).
Proof.
  induction fuel as [|fuel IH]; intros T0 Hf Hb; [lia|].
  rewrite search_step.
  destruct (input_len d m (T0 + 1) <=? W) eqn:E.
  - apply Z.leb_le in E.
    assert (T0 + 1 < W * Zpos (Qden d)).
    { destruct (Z_lt_le_dec (T0 + 1) (W * Zpos (Qden d))) as [L|G]; [exact L|].
      pose proof (input_len_large d m d_pos d_lt_1 m_ge_1 W (T0 + 1) ltac:(lia) G).
      lia. }
    apply IH; lia.
  - exists T0. reflexivity.
Qed.

Lemma search_fuel_mono (fuel : nat) :
  forall T0 r fuel', Planner.search fuel W d m T0 = Some r ->
  (fuel <= fuel')%nat -> Planner.search fuel' W d m T0 = Some r.
Proof.
  induction fuel as [|fuel IH]; intros T0 r fuel' H Hf; [discriminate H|].
  destruct fuel' as [|fuel']; [lia|].
  rewrite search_step in *.
  destruct (input_len d m (T0 + 1) <=? W).
  - apply IH; [exact H | lia].
  - exact H.
Qed.

Lemma run_after_search (fuel : nat) (T : Z) :
  Planner.search fuel W d m W = Some (Ok T) ->
  Planner.run fuel W d m
  = Some (Ok (if Qeq_bool d (1 # 2) && (target_len d m T >? input_len d m T)
              then Planner.mk_locals (T - 1) (input_len d m T) (target_len d m T - 1)
              else Planner.mk_locals T (input_len d m T) (target_len d m T))).
Proof.
  intros H. unfold Planner.run. rewrite H. cbn [bind].
  rewrite lengths_ok by exact m_ge_1. cbn [bind].
  destruct (Qeq_bool d (1 # 2) && (target_len d m T >? input_len d m T));
    reflexivity.
Qed.

End PlannerSearch.




(** * Binary64 arithmetic *)

(** ** Powers of two *)

Lemma pow2_pos (e : Z) : (0 < F64.pow2 e)%Q.
Proof. apply Qpower_0_lt. reflexivity. Qed.

Lemma pow2_nonneg_exp (k : Z) : 0 <= k -> (F64.pow2 k == inject_Z (2 ^ k))%Q.
Proof. intros H. unfold F64.pow2. symmetry. apply (Zpower_Qpower 2 k H). Qed.

Lemma pow2_opp (k : Z) : (F64.pow2 (- k) * F64.pow2 k == 1)%Q.
Proof.
  unfold F64.pow2. rewrite Qpower_opp.
  assert (H : ~ (2 ^ k == 0)%Q) by (apply Qpower_not_0; discriminate).
  field. exact H.
Qed.

Lemma pow2_le (a b : Z) : a <= b -> (F64.pow2 a <= F64.pow2 b)%Q.
Proof. intros H. apply Qpower_le_compat_l; [exact H | discriminate]. Qed.

Lemma pow2_lt_inv (a b : Z) : (F64.pow2 a < F64.pow2 b)%Q -> a < b.
Proof. intros H. apply (Qpower_lt_compat_l_inv 2); [exact H | reflexivity]. Qed.

(** ** The binary exponent *)

Lemma ilog2_le (x : Q) : (0 < x)%Q -> (F64.pow2 (F64.ilog2 x) <= x)%Q.
Proof.
  intros Hx. unfold F64.ilog2.
  set (e := Z.log2 (Qnum x) - Z.log2 (Z.pos (Qden x))).
  destruct (Qle_bool (F64.pow2 e) x) eqn:E; [apply Qle_bool_iff, E|].
  destruct x as [n d]. cbn [Qnum Qden] in *.
  assert (Hn : 0 < n) by (revert Hx; unfold Qlt; simpl; lia).
  destruct (Z.log2_spec n Hn) as [Ha _].
  destruct (Z.log2_spec (Z.pos d) ltac:(lia)) as [_ Hb].
  pose proof (Z.log2_nonneg n) as Ha0.
  pose proof (Z.log2_nonneg (Z.pos d)) as Hb0.
  set (a := Z.log2 n) in *. set (b := Z.log2 (Z.pos d)) in *.
  assert (Hp : (F64.pow2 (e - 1) * F64.pow2 (b + 1) == F64.pow2 a)%Q).
  { unfold F64.pow2. rewrite <- Qpower_plus by discriminate.
    replace (e - 1 + (b + 1)) with a by (unfold e; lia). reflexivity. }
  rewrite (pow2_nonneg_exp a Ha0), (pow2_nonneg_exp (b + 1) ltac:(lia)) in Hp.
  assert (Hd : (inject_Z (Z.pos d) < inject_Z (2 ^ Z.succ b))%Q)
    by (rewrite <- Zlt_Qlt; exact Hb).
  replace (Z.succ b) with (b + 1) in Hd by lia.
  assert (Hn' : (inject_Z (2 ^ a) <= inject_Z n)%Q)
    by (rewrite <- Zle_Qle; exact Ha).
  assert (Hx' : ((n # d) * inject_Z (Z.pos d) == inject_Z n)%Q).
  { unfold Qeq, Qmult, inject_Z. simpl. lia. }
  assert (Hd0 : (0 < inject_Z (Z.pos d))%Q) by (unfold Qlt; simpl; lia).
  pose proof (pow2_pos (e - 1)) as Hp0.
  revert Hp Hd Hn' Hx' Hd0 Hp0.
  generalize (F64.pow2 (e - 1)) (inject_Z (2 ^ (b + 1))) (inject_Z (2 ^ a))
    (inject_Z (Z.pos d)) (inject_Z n) (n # d).
  intros P B1 A D N X Hp Hd Hn' Hx' Hd0 Hp0. nra.
Qed.

Lemma ilog2_lt (x : Q) (E : Z) :
  (0 < x)%Q -> (x < F64.pow2 E)%Q -> F64.ilog2 x < E.
Proof.
  intros H0 H. apply pow2_lt_inv.
  eapply Qle_lt_trans; [apply ilog2_le, H0 | exact H].
Qed.

Lemma scale_le_l (a b c p : Q) :
  (p * b == 1)%Q -> (0 < p)%Q -> (a * b <= c)%Q -> (a <= c * p)%Q.
Proof.
  intros E Hp H.
  assert (Ea : (a == a * b * p)%Q)
    by (rewrite <- Qmult_assoc, (Qmult_comm b p), E; ring).
  rewrite Ea. apply Qmult_le_compat_r; [exact H | lra].
Qed.

Lemma scale_le_r (a b c p : Q) :
  (p * b == 1)%Q -> (0 < p)%Q -> (c <= a * b)%Q -> (c * p <= a)%Q.
Proof.
  intros E Hp H.
  assert (Ea : (a == a * b * p)%Q)
    by (rewrite <- Qmult_assoc, (Qmult_comm b p), E; ring).
  rewrite Ea. apply Qmult_le_compat_r; [exact H | lra].
Qed.

(** ** Rounding to binary64 *)

(** Between two integers below [2 ** 53] in absolute value the rounded
    value stays finite and between them. *)
Lemma of_Q_between (x : Q) (lo hi : Z) :
  - 2 ^ 53 < lo -> hi < 2 ^ 53 ->
  (inject_Z lo <= x)%Q -> (x <= inject_Z hi)%Q ->
  exists v, F64.of_Q x = F64.Finite v /\ (inject_Z lo <= v)%Q /\ (v <= inject_Z hi)%Q.
Proof.
  intros Hlo Hhi Hl Hh. unfold F64.of_Q.
  destruct (Qeq_bool x 0) eqn:E0.
  - apply Qeq_bool_iff in E0. exists 0%Q. split; [reflexivity|].
    split; lra.
  - assert (Hx : ~ (x == 0)%Q) by (intros N; apply Qeq_bool_iff in N; congruence).
    cbv zeta.
    assert (Habs : (0 < Qabs x)%Q).
    { pose proof (Qabs_nonneg x) as Ha.
      destruct (Qlt_le_dec 0 (Qabs x)) as [L|G]; [exact L|].
      exfalso. apply Hx. revert G. apply Qabs_case; intros; lra. }
    assert (Hb : (Qabs x < F64.pow2 53)%Q).
    { rewrite (pow2_nonneg_exp 53) by lia.
      assert ((inject_Z hi < inject_Z (2 ^ 53))%Q) by (rewrite <- Zlt_Qlt; exact Hhi).
      assert ((inject_Z (- 2 ^ 53) < inject_Z lo)%Q) by (rewrite <- Zlt_Qlt; exact Hlo).
      rewrite inject_Z_opp in *.
      apply Qabs_case; intros; lra. }
    pose proof (ilog2_lt (Qabs x) 53 Habs Hb) as He.
    set (q := F64.ulp_exp x).
    assert (Hq : q <= 0) by (unfold q, F64.ulp_exp; lia).
    set (k := - q). assert (Hk : 0 <= k) by (unfold k; lia).
    replace (Z.opp q) with k by reflexivity.
    pose proof (pow2_nonneg_exp k Hk) as Ek.
    pose proof (pow2_opp k) as Eq. replace (- k) with q in Eq by (unfold k; lia).
    assert (H2k : (0 < inject_Z (2 ^ k))%Q)
      by (rewrite <- (Zlt_Qlt 0); apply Z.pow_pos_nonneg; lia).
    set (mant := Np.round (x * F64.pow2 k)).
    assert (Hm1 : lo * 2 ^ k <= mant).
    { unfold mant. rewrite <- (round_inject_Z (lo * 2 ^ k)). apply round_mono.
      rewrite inject_Z_mult, Ek. apply Qmult_le_compat_r; lra. }
    assert (Hm2 : mant <= hi * 2 ^ k).
    { unfold mant. rewrite <- (round_inject_Z (hi * 2 ^ k)). apply round_mono.
      rewrite inject_Z_mult, Ek. apply Qmult_le_compat_r; lra. }
    assert (Hv1 : (inject_Z lo <= inject_Z mant * F64.pow2 q)%Q).
    { rewrite Zle_Qle, inject_Z_mult in Hm1. rewrite Ek in Eq.
      exact (scale_le_l _ _ _ _ Eq (pow2_pos q) Hm1). }
    assert (Hv2 : (inject_Z mant * F64.pow2 q <= inject_Z hi)%Q).
    { rewrite Zle_Qle, inject_Z_mult in Hm2. rewrite Ek in Eq.
      exact (scale_le_r _ _ _ _ Eq (pow2_pos q) Hm2). }
    replace (Qle_bool (F64.pow2 1024) (Qabs (inject_Z mant * F64.pow2 q)))
      with false.
    + eexists. split; [reflexivity|]. split; assumption.
    + symmetry. apply not_true_iff_false. intros N. apply Qle_bool_iff in N.
      assert ((F64.pow2 53 <= F64.pow2 1024)%Q) by (apply pow2_le; lia).
      rewrite (pow2_nonneg_exp 53) in * by lia.
      assert ((inject_Z hi < inject_Z (2 ^ 53))%Q) by (rewrite <- Zlt_Qlt; exact Hhi).
      assert ((inject_Z (- 2 ^ 53) < inject_Z lo)%Q) by (rewrite <- Zlt_Qlt; exact Hlo).
      rewrite inject_Z_opp in *.
      revert N. apply Qabs_case; intros; lra.
Qed.

(** Integers below [2 ** 53] in absolute value are binary64 values. *)
Lemma of_Z_exact (n : Z) :
  - 2 ^ 53 < n < 2 ^ 53 ->
  exists v, F64.of_Z n = Ok (F64.Finite v) /\ (v == inject_Z n)%Q.
Proof.
  intros H. unfold F64.of_Z.
  destruct (of_Q_between (inject_Z n) n n) as (v & E & H1 & H2);
    try lia; try lra.
  rewrite E. exists v. split; [reflexivity|lra].
Qed.

Lemma py_round_between (v : Q) (lo hi : Z) :
  (inject_Z lo <= v)%Q -> (v <= inject_Z hi)%Q -> lo <= Np.round v <= hi.
Proof.
  intros H1 H2. split.
  - rewrite <- (round_inject_Z lo). apply round_mono, H1.
  - rewrite <- (round_inject_Z hi). apply round_mono, H2.
Qed.

(** * Length planner in binary64 *)

Section Planner64Lengths.

Variables x y : Q.
Hypothesis x_nonneg : (0 <= x)%Q.
Hypothesis y_ge_1 : (1 <= y)%Q.

(** Below [2 ** 53] the helper returns: the noise count is at most any
    integer bound of the exact product, and the span count lies between 0
    and the noise count. *)
Lemma lengths64_ok (T B : Z) :
  0 <= T < 2 ^ 53 -> 0 <= B < 2 ^ 53 ->
  (inject_Z T * x <= inject_Z B)%Q ->
  exists nt ns,
    Planner64.tokens_length_to_lengths (F64.Finite x) (F64.Finite y) T
    = Ok (T - nt + ns + 1, nt + ns + 1)
    /\ 0 <= ns <= nt /\ nt <= B.
Proof.
  intros HT HB Hb. unfold Planner64.tokens_length_to_lengths.
  destruct (of_Z_exact T ltac:(lia)) as (v & E1 & Hv). rewrite E1. cbn [bind F64.mul].
  assert (HT0 : (0 <= inject_Z T)%Q) by (rewrite <- (Zle_Qle 0); lia).
  destruct (of_Q_between (v * x) 0 B ltac:(lia) ltac:(lia)) as (p & E2 & Hp1 & Hp2).
  { change (inject_Z 0) with 0%Q. apply Qmult_le_0_compat; lra. }
  { rewrite Hv. exact Hb. }
  rewrite E2. cbn [F64.py_round bind].
  pose proof (py_round_between p 0 B Hp1 Hp2) as Hnt.
  set (nt := Np.round p) in *.
  destruct (of_Z_exact nt ltac:(lia)) as (v' & E3 & Hv'). rewrite E3.
  cbn [bind F64.div]. rewrite Qeq_bool_neq_0 by exact y_ge_1.
  assert (Hn0 : (0 <= inject_Z nt)%Q) by (rewrite <- (Zle_Qle 0); lia).
  destruct (of_Q_between (v' / y) 0 nt ltac:(lia) ltac:(lia)) as (r & E4 & Hr1 & Hr2).
  { change (inject_Z 0) with 0%Q. apply Qle_shift_div_l; lra. }
  { apply Qle_shift_div_r; [lra|]. rewrite Hv'.
    revert Hn0 y_ge_1. generalize (inject_Z nt). intros; nra. }
  rewrite E4. cbn [bind F64.py_round].
  pose proof (py_round_between r 0 nt Hr1 Hr2) as Hns.
  exists nt, (Np.round r). split; [reflexivity|]. lia.
Qed.

End Planner64Lengths.

Section Planner64Search.

Variable W : Z.
Variables d m : F64.t.

Lemma search64_sound (fuel : nat) :
  forall T0 T, Planner64.search fuel W d m T0 = Some (Ok T) ->
  T0 <= T
  /\ (exists il tl,
        Planner64.tokens_length_to_lengths d m (T + 1) = Ok (il, tl) /\ W < il)
  /\ forall t, T0 < t <= T ->
       exists il tl,
         Planner64.tokens_length_to_lengths d m t = Ok (il, tl) /\ il <= W.
Proof.
  induction fuel as [|fuel IH]; intros T0 T H; [discriminate H|].
  cbn [Planner64.search] in H.
  destruct (Planner64.tokens_length_to_lengths d m (T0 + 1)) as [[il tl]|e] eqn:EH;
    [|discriminate H].
  destruct (il <=? W) eqn:E.
  - apply Z.leb_le in E. destruct (IH _ _ H) as (H1 & H2 & H3).
    split; [lia|]. split; [exact H2|].
    intros t Ht. destruct (Z.eq_dec t (T0 + 1)) as [->|N].
    + exists il, tl. split; [exact EH | exact E].
    + apply H3. lia.
  - apply Z.leb_gt in E. injection H as <-.
    split; [lia|]. split; [exists il, tl; split; [exact EH | exact E]|].
    intros t Ht. lia.
Qed.

(** The loop ends before a raw length [B] that does not fit, when the
    helper returns on every raw length up to [B]. *)
Lemma search64_terminates (B : Z) (fuel : nat) :
  (forall t, W < t <= B ->
     exists il tl, Planner64.tokens_length_to_lengths d m t = Ok (il, tl)) ->
  (exists il tl,
     Planner64.tokens_length_to_lengths d m B = Ok (il, tl) /\ W < il) ->
  forall T0, W <= T0 < B -> B - T0 <= Z.of_nat fuel ->
  exists T, T0 <= T < B /\ Planner64.search fuel W d m T0 = Some (Ok T).
Proof.
  intros Hall (ilB & tlB & EB & HB).
  induction fuel as [|fuel IH]; intros T0 HT Hf; [lia|].
  cbn [Planner64.search].
  destruct (Hall (T0 + 1) ltac:(lia)) as (il & tl & EH). rewrite EH.
  destruct (il <=? W) eqn:E.
  - apply Z.leb_le in E.
    assert (T0 + 1 < B).
    { destruct (Z.eq_dec (T0 + 1) B) as [N|N]; [|lia].
      rewrite N, EB in EH. injection EH as <- <-. lia. }
    destruct (IH (T0 + 1) ltac:(lia) ltac:(lia)) as (T & HT' & ES).
    exists T. split; [lia | exact ES].
  - exists T0. split; [lia | reflexivity].
Qed.

Lemma search64_fuel_mono (fuel : nat) :
  forall T0 r fuel', Planner64.search fuel W d m T0 = Some r ->
  (fuel <= fuel')%nat -> Planner64.search fuel' W d m T0 = Some r.
Proof.
  induction fuel as [|fuel IH]; intros T0 r fuel' H Hf; [discriminate H|].
  destruct fuel' as [|fuel']; [lia|].
  cbn [Planner64.search] in *.
  destruct (Planner64.tokens_length_to_lengths d m (T0 + 1)) as [[il tl]|e];
    [|exact H].
  destruct (il <=? W); [apply IH; [exact H | lia] | exact H].
Qed.

End Planner64Search.

(** C5 (as stated, refuted): for W = 512, d = 0.15 and m = 1 the planner
    returns T = 512, whose simulated input length 513 does not fit in W;
    for W = 3, d = 0.5 and m = 3 it returns T = 2, below W; and for
    W = 334, d = 0.07 and m = 3 it returns T = 350, for which the formula
    of the claim, evaluated exactly, gives the input length 335 > W: in
    binary64 the product 350 * 0.07 lies above 24.5 and is rounded to 25. *)
Lemma C5_returned_length_does_not_fit :
  Planner64.compute_input_and_target_lengths 1000 512
    (F64.of_Q (15 # 100)) (F64.of_Q 1)
    = Some (Ok (512, 155))
  /\ Planner64.tokens_length_to_lengths (F64.of_Q (15 # 100)) (F64.of_Q 1) 512
     = Ok (513, 155)
  /\ Planner64.compute_input_and_target_lengths 1000 3
       (F64.of_Q (1 # 2)) (F64.of_Q 3)
     = Some (Ok (2, 3))
  /\ Planner64.compute_input_and_target_lengths 1000 334
       (F64.of_Q (7 # 100)) (F64.of_Q 3)
     = Some (Ok (350, 34))
  /\ Planner64.tokens_length_to_lengths (F64.of_Q (7 # 100)) (F64.of_Q 3) 350
     = Ok (334, 34)
  /\ input_len (7 # 100) 3 350 = 335.
Proof. repeat split; vm_compute; reflexivity. Qed.

(** C5 (amended): for a desired length W >= 1, a density d > 0, a mean span
    length m >= 1 and a raw length B < 2^53 with W + 1 <= (1 - d) * B, the
    search loop of the planner ends within B - W iterations at a raw length
    T with W <= T < B. With the lengths simulated in binary64, as the code
    computes them: the length T + 1 does not fit, W < input_len(T + 1);
    every raw length from W + 1 to T fits, so T is the first raw length from
    W on whose successor does not fit; the planner returns T with
    target_len(T), or T - 1 with target_len(T) - 1 when the half-density
    adjustment applies; and when the starting candidate fits,
    input_len(W) <= W, then input_len(T) <= W. *)
Theorem C5_planner_search (W B : Z) (x y : Q) :
  1 <= W -> W < B < 2 ^ 53 -> (0 < x)%Q -> (1 <= y)%Q ->
  (inject_Z (W + 1) <= (1 - x) * inject_Z B)%Q ->
  exists T il tl il' tl',
    W <= T < B
    /\ Planner64.tokens_length_to_lengths (F64.Finite x) (F64.Finite y) T
       = Ok (il, tl)
    /\ Planner64.tokens_length_to_lengths (F64.Finite x) (F64.Finite y) (T + 1)
       = Ok (il', tl')
    /\ W < il'
    /\ (forall t, W < t <= T ->
          exists il_t tl_t,
            Planner64.tokens_length_to_lengths (F64.Finite x) (F64.Finite y) t
            = Ok (il_t, tl_t)
            /\ il_t <= W)
    /\ (forall fuel, (Z.to_nat (B - W) <= fuel)%nat ->
          Planner64.search fuel W (F64.Finite x) (F64.Finite y) W = Some (Ok T)
          /\ Planner64.compute_input_and_target_lengths fuel W
               (F64.Finite x) (F64.Finite y)
             = Some (Ok (if F64.eqb (F64.Finite x) (F64.Finite (1 # 2))
                            && (tl >? il)
                         then (T - 1, tl - 1) else (T, tl))))
    /\ (forall ilW tlW,
          Planner64.tokens_length_to_lengths (F64.Finite x) (F64.Finite y) W
          = Ok (ilW, tlW) ->
          ilW <= W -> il <= W).
Proof.
  intros HW HB Hx Hy Hbound.
  assert (HB0 : (0 < inject_Z B)%Q) by (rewrite <- (Zlt_Qlt 0); lia).
  assert (HW0 : (0 < inject_Z (W + 1))%Q) by (rewrite <- (Zlt_Qlt 0); lia).
  assert (Hx1 : (x <= 1)%Q).
  { destruct (Qlt_le_dec 1 x) as [L|G]; [|exact G]. exfalso.
    revert Hbound HB0 HW0 L. generalize (inject_Z (W + 1)) (inject_Z B).
    intros; nra. }
  assert (Hx0 : (0 <= x)%Q) by lra.
  assert (Hall : forall t, W < t <= B ->
            exists il tl,
              Planner64.tokens_length_to_lengths (F64.Finite x) (F64.Finite y) t
              = Ok (il, tl)).
  { intros t Ht.
    destruct (lengths64_ok x y Hx0 Hy t t ltac:(lia) ltac:(lia))
      as (nt & ns & E & _).
    { assert (0 <= inject_Z t)%Q by (rewrite <- (Zle_Qle 0); lia). nra. }
    eexists. eexists. exact E. }
  assert (HBig : exists il tl,
            Planner64.tokens_length_to_lengths (F64.Finite x) (F64.Finite y) B
            = Ok (il, tl) /\ W < il).
  { destruct (lengths64_ok x y Hx0 Hy B (B - (W + 1)) ltac:(lia) ltac:(lia))
      as (nt & ns & E & Hns & Hnt).
    { unfold Z.sub at 1. rewrite inject_Z_plus, inject_Z_opp.
      revert Hbound. generalize (inject_Z (W + 1)) (inject_Z B). intros; nra. }
    eexists. eexists. split; [exact E|]. lia. }
  set (bound := Z.to_nat (B - W)).
  destruct (search64_terminates W (F64.Finite x) (F64.Finite y) B bound Hall HBig W
              ltac:(lia) ltac:(unfold bound; lia)) as (T & HT & ES).
  destruct (search64_sound W _ _ bound W T ES) as (_ & (il' & tl' & E' & Hil') & Hfit).
  assert (ET : exists il tl,
            Planner64.tokens_length_to_lengths (F64.Finite x) (F64.Finite y) T
            = Ok (il, tl)).
  { destruct (lengths64_ok x y Hx0 Hy T T ltac:(lia) ltac:(lia))
      as (nt & ns & E & _).
    { assert (0 <= inject_Z T)%Q by (rewrite <- (Zle_Qle 0); lia). nra. }
    eexists. eexists. exact E. }
  destruct ET as (il & tl & ET).
  exists T, il, tl, il', tl'.
  split; [exact HT|]. split; [exact ET|]. split; [exact E'|].
  split; [exact Hil'|]. split; [exact Hfit|]. split.
  - intros fuel Hf.
    pose proof (search64_fuel_mono W _ _ bound W _ fuel ES Hf) as ES'.
    split; [exact ES'|].
    unfold Planner64.compute_input_and_target_lengths. rewrite ES'.
    cbn [bind]. rewrite ET. cbn [bind].
    destruct (F64.eqb (F64.Finite x) (F64.Finite (1 # 2)) && (tl >? il));
      reflexivity.
  - intros ilW tlW EW HfitW.
    destruct (Z.eq_dec T W) as [->|N].
    + rewrite EW in ET. injection ET as <- <-. exact HfitW.
    + destruct (Hfit T ltac:(lia)) as (il0 & tl0 & E0 & H0).
      rewrite ET in E0. injection E0 as <- <-. exact H0.
Qed.

Lemma C5_planner_search_witness :
  exists T il tl il' tl',
    512 <= T < 1024
    /\ Planner64.tokens_length_to_lengths (F64.of_Q (15 # 100)) (F64.of_Q 3) T
       = Ok (il, tl)
    /\ Planner64.tokens_length_to_lengths (F64.of_Q (15 # 100)) (F64.of_Q 3) (T + 1)
       = Ok (il', tl')
    /\ 512 < il'
    /\ (forall t, 512 < t <= T ->
          exists il_t tl_t,
            Planner64.tokens_length_to_lengths (F64.of_Q (15 # 100)) (F64.of_Q 3) t
            = Ok (il_t, tl_t)
            /\ il_t <= 512)
    /\ (forall fuel, (Z.to_nat (1024 - 512) <= fuel)%nat ->
          Planner64.search fuel 512 (F64.of_Q (15 # 100)) (F64.of_Q 3) 512
          = Some (Ok T)
          /\ Planner64.compute_input_and_target_lengths fuel 512
               (F64.of_Q (15 # 100)) (F64.of_Q 3)
             = Some (Ok (if F64.eqb (F64.of_Q (15 # 100)) (F64.Finite (1 # 2))
                            && (tl >? il)
                         then (T - 1, tl - 1) else (T, tl))))
    /\ (forall ilW tlW,
          Planner64.tokens_length_to_lengths (F64.of_Q (15 # 100)) (F64.of_Q 3) 512
          = Ok (ilW, tlW) ->
          ilW <= 512 -> il <= 512).
Proof.
  assert (Ed : F64.of_Q (15 # 100)
               = F64.Finite (5404319552844595 # 36028797018963968))
    by (vm_compute; reflexivity).
  assert (Em : F64.of_Q 3
               = F64.Finite (6755399441055744 # 2251799813685248))
    by (vm_compute; reflexivity).
  rewrite Ed, Em.
  apply (C5_planner_search 512 1024 (5404319552844595 # 36028797018963968)
           (6755399441055744 # 2251799813685248)).
  - lia.
  - lia.
  - reflexivity.
  - vm_compute. discriminate.
  - vm_compute. discriminate.
Defined.

(** ** Document packer *)

Section PackerInvariant.

Variable max_len : Z.

Lemma sample_len_of_app (s : Packer.sample) (sp : Packer.span) :
  Packer.sample_len_of (s ++ [sp]) = Packer.sample_len_of s + Packer.span_len sp.
Proof.
  unfold Packer.sample_len_of.
  induction s as [|x s IH]; simpl.
  - lia.
  - rewrite IH. lia.
Qed.

Lemma packed_init : packed max_len Packer.build_init.
Proof. split; [constructor | reflexivity]. Qed.

Lemma packed_place (doc_idx _idx : Z) (st : Packer.build_state) (p : Z * Z) :
  packed max_len st -> packed max_len (Packer.place max_len doc_idx _idx st p).
Proof.
  intros [Hm Hc]. destruct p as [s e]. unfold Packer.place.
  destruct (e - s =? max_len) eqn:E.
  - apply Z.eqb_eq in E. split; simpl; [|exact Hc].
    apply Forall_app. split; [exact Hm|].
    constructor; [|constructor]. simpl. lia.
  - split; simpl; [exact Hm|].
    rewrite sample_len_of_app, Hc. simpl. lia.
Qed.

Lemma packed_places (doc_idx _idx : Z) (indices : list (Z * Z)) :
  forall st, packed max_len st ->
  packed max_len (fold_left (Packer.place max_len doc_idx _idx) indices st).
Proof.
  induction indices as [|p ps IH]; simpl; intros st H.
  - exact H.
  - apply IH, packed_place, H.
Qed.

Lemma packed_step (st st' : Packer.build_state) (d : Z * Z) :
  packed max_len st -> Packer.step max_len st d = Ok st' -> packed max_len st'.
Proof.
  intros [Hm Hc] H. destruct d as [doc_idx sample_len].
  unfold Packer.step in H.
  destruct (Packer.current_len st + sample_len >? max_len).
  - apply bind_Ok_inv in H. destruct H as [[l indices] [_ H]].
    injection H as <-. apply packed_places. split; simpl; [|reflexivity].
    apply Forall_app. split; [exact Hm|].
    constructor; [|constructor].
    rewrite sample_len_of_app, Hc. simpl. lia.
  - apply bind_Ok_inv in H. destruct H as [[l indices] [_ H]].
    injection H as <-. apply packed_places. split; assumption.
Qed.

Lemma packed_build_loop (docs : list (Z * Z)) :
  forall st st', packed max_len st ->
  Packer.build_loop max_len st docs = Ok st' -> packed max_len st'.
Proof.
  induction docs as [|d ds IH]; simpl; intros st st' Hp H.
  - injection H as <-. exact Hp.
  - apply bind_Ok_inv in H. destruct H as [st1 [H1 H2]].
    eapply IH; [|exact H2]. eapply packed_step; eassumption.
Qed.

End PackerInvariant.

(** A document whose remainder reaches the window length makes [breakdown]
    recurse, and the recursive call compares against [None]. *)
Lemma breakdown_recursion_raises (sample_len max_len : Z) :
  max_len <= sample_len ->
  Packer.breakdown Packer.recursion_limit sample_len None None (Some max_len)
  = Raise TypeError.
Proof.
  intros H. unfold Packer.recursion_limit.
  change 1000%nat with (S (S 998)).
  cbn [Packer.breakdown Packer.py_lt bind].
  replace (sample_len <? max_len) with false by (symmetry; apply Z.ltb_ge; exact H).
  reflexivity.
Qed.

Lemma breakdown_short (sample_len max_len : Z) :
  sample_len < max_len ->
  Packer.breakdown Packer.recursion_limit sample_len None None (Some max_len)
  = Ok ([sample_len], [(0, sample_len)]).
Proof.
  intros H. unfold Packer.recursion_limit.
  change 1000%nat with (S 999).
  cbn [Packer.breakdown Packer.py_lt bind].
  replace (sample_len <? max_len) with true by (symmetry; apply Z.ltb_lt; exact H).
  reflexivity.
Qed.

Lemma step_long_remainder_raises (max_len : Z) (st : Packer.build_state)
    (doc_idx sample_len : Z) :
  max_len <=
    (if Packer.current_len st + sample_len >? max_len
     then sample_len - (max_len - Packer.current_len st) else sample_len) ->
  Packer.step max_len st (doc_idx, sample_len) = Raise TypeError.
Proof.
  intros H. unfold Packer.step.
  destruct (Packer.current_len st + sample_len >? max_len);
    rewrite breakdown_recursion_raises by exact H; reflexivity.
Qed.

(** The build succeeds on every corpus whose documents are all shorter
    than the window. *)
Lemma step_short_document (max_len : Z) (st : Packer.build_state)
    (doc_idx sample_len : Z) :
  0 <= Packer.current_len st <= max_len ->
  0 <= sample_len < max_len ->
  exists st',
    Packer.step max_len st (doc_idx, sample_len) = Ok st'
    /\ 0 <= Packer.current_len st' <= max_len.
Proof.
  intros Hc Hs. unfold Packer.step.
  destruct (Packer.current_len st + sample_len >? max_len) eqn:E.
  - apply Z.gtb_lt in E.
    rewrite breakdown_short by lia. cbn [bind fold_left Packer.place].
    replace (_ - 0 =? max_len) with false by (symmetry; apply Z.eqb_neq; lia).
    eexists. split; [reflexivity|]. cbn [Packer.current_len]. lia.
  - rewrite Z.gtb_ltb in E. apply Z.ltb_ge in E.
    rewrite breakdown_short by lia. cbn [bind fold_left Packer.place].
    replace (_ - 0 =? max_len) with false by (symmetry; apply Z.eqb_neq; lia).
    eexists. split; [reflexivity|]. cbn [Packer.current_len]. lia.
Qed.

Lemma build_loop_short_documents (max_len : Z) (docs : list (Z * Z)) :
  Forall (fun d => 0 <= snd d < max_len) docs ->
  forall st, 0 <= Packer.current_len st <= max_len ->
  exists st', Packer.build_loop max_len st docs = Ok st'.
Proof.
  induction 1 as [|[doc_idx sample_len] docs Hd _ IH]; intros st Hc.
  - exists st. reflexivity.
  - cbn [snd] in Hd.
    destruct (step_short_document max_len st doc_idx sample_len Hc Hd)
      as (st1 & E1 & Hc1).
    cbn [Packer.build_loop]. rewrite E1. cbn [bind]. apply IH, Hc1.
Qed.

Lemma build_short_documents (doc_idx sizes : list Z) (max_len : Z) :
  0 <= max_len ->
  Forall (fun s => 0 <= s < max_len) sizes ->
  exists st, Packer.build doc_idx sizes max_len = Ok st.
Proof.
  intros Hm Hs. apply build_loop_short_documents; [|simpl; lia].
  revert doc_idx. induction Hs as [|s sizes Hs _ IH]; intros [|d doc_idx];
    try constructor; [exact Hs | apply IH].
Qed.

(** C2 (as stated, refuted): the index built for lengths [5, 5, 2] and
    window 4 is not [[(0,0,4)], [(0,4,5),(1,0,3)], [(1,3,5),(2,0,2)]]. *)
Lemma C2_three_samples_refuted :
  Packer.get_samples_mapping None [0; 1; 2; 3] [5; 5; 2] 4
  <> Ok [[(0, 0, 4)]; [(0, 4, 5); (1, 0, 3)]; [(1, 3, 5); (2, 0, 2)]].
Proof. vm_compute. discriminate. Qed.

(** C2 (amended): for three documents of lengths [5, 5, 2] and window 4
    the saved index is exactly [[(0,0,4)], [(0,4,5),(1,0,3)]], in that
    order; the spans [(1,3,5),(2,0,2)] stay in the open accumulator, whose
    length is 4, and are dropped with it. *)
Theorem C2_sample_index_552 :
  Packer.get_samples_mapping None [0; 1; 2; 3] [5; 5; 2] 4
  = Ok [[(0, 0, 4)]; [(0, 4, 5); (1, 0, 3)]]
  /\ Packer.build [0; 1; 2; 3] [5; 5; 2] 4
     = Ok (Packer.mk_build_state
             [[(0, 0, 4)]; [(0, 4, 5); (1, 0, 3)]]
             [(1, 3, 5); (2, 0, 2)] 4).
Proof. split; vm_compute; reflexivity. Qed.

(** C3 (code defect): a document of length 8 with window 4 leaves a
    remainder of exactly one window after its leading 4 tokens; instead of
    emitting it as a standalone sample the build raises [TypeError], and so
    does [breakdown] on every remainder of k windows, here k = 1, 2, 3. *)
Theorem C3_full_chunk_raises :
  Packer.get_samples_mapping None [0; 1] [8] 4 = Raise TypeError
  /\ Packer.breakdown Packer.recursion_limit 4 None None (Some 4) = Raise TypeError
  /\ Packer.breakdown Packer.recursion_limit 8 None None (Some 4) = Raise TypeError
  /\ Packer.breakdown Packer.recursion_limit 12 None None (Some 4) = Raise TypeError.
Proof. repeat split; vm_compute; reflexivity. Qed.

(** C4: every sample of a built index has spans whose lengths sum to the
    window length; the index is the [samples_mapping] of the final build
    state, the accumulator left open after the last document is not appended
    to it, and an accumulator shorter than the window does not occur in it. *)
Theorem C4_samples_fill_window (doc_idx sizes : list Z) (max_len : Z)
    (m : list Packer.sample) :
  Packer.get_samples_mapping None doc_idx sizes max_len = Ok m ->
  Forall (fun s => Packer.sample_len_of s = max_len) m
  /\ exists st, Packer.build doc_idx sizes max_len = Ok st
       /\ m = Packer.samples_mapping st
       /\ Packer.sample_len_of (Packer.sample_indices st) = Packer.current_len st
       /\ (Packer.current_len st <> max_len -> ~ In (Packer.sample_indices st) m).
Proof.
  intros H. unfold Packer.get_samples_mapping in H.
  apply bind_Ok_inv in H. destruct H as [st [Hb H]].
  injection H as <-.
  destruct (packed_build_loop max_len _ _ _ (packed_init max_len) Hb) as [Hm Hc].
  split; [exact Hm|]. exists st.
  split; [exact Hb|]. split; [reflexivity|]. split; [exact Hc|].
  intros Hshort Hin. rewrite Forall_forall in Hm.
  specialize (Hm _ Hin). cbv beta in Hm. congruence.
Qed.

Lemma C4_samples_fill_window_witness :
  Forall (fun s => Packer.sample_len_of s = 4)
    [[(0, 0, 4)]; [(0, 4, 5); (1, 0, 3)]].
Proof.
  apply (proj1 (C4_samples_fill_window [0; 1; 2; 3] [5; 5; 2] 4
                  [[(0, 0, 4)]; [(0, 4, 5); (1, 0, 3)]] eq_refl)).
Defined.

(** ** Sentinel encoder *)

Lemma zip_with_cons (A B C : Type) (f : A -> B -> C) x y a b :
  Np.zip_with f (x :: a) (y :: b) = f x y :: Np.zip_with f a b.
Proof. reflexivity. Qed.

Lemma zip_removelast (f : Z -> Z -> Z) (l : list Z) :
  forall p, Np.zip_with f l (removelast (p :: l)) = with_prev f p l.
Proof.
  induction l as [|x l IH]; intros p.
  - reflexivity.
  - change (removelast (p :: x :: l)) with (p :: removelast (x :: l)).
    rewrite zip_with_cons. simpl. f_equal. apply IH.
Qed.

Lemma starts_upto_nonneg (l : list bool) :
  forall prev n, 0 <= Mask.starts_upto prev l n.
Proof.
  induction l as [|x l IH]; intros prev [|n]; simpl; try lia.
  specialize (IH x n). destruct (x && negb prev); lia.
Qed.

Lemma passes_cons (vocab_len acc m s : Z) (ms ss : list Z) :
  passes vocab_len acc (m :: ms) (s :: ss)
  = ((if (if s =? 0 then s else acc + s) =? 0 then 0
      else vocab_len - (if s =? 0 then s else acc + s)) - (m - s))
    :: passes vocab_len (acc + s) ms ss.
Proof. reflexivity. Qed.

Lemma passes_sentinel_pass (vocab_len : Z) (mask : list bool) :
  forall prev acc, 0 <= acc ->
  passes vocab_len acc (map Np.b2z mask)
    (with_prev (fun m r => m - r * m) (Np.b2z prev) (map Np.b2z mask))
  = sentinel_pass vocab_len prev acc mask.
Proof.
  induction mask as [|b mask IH]; intros prev acc Hacc.
  - reflexivity.
  - simpl map. simpl with_prev. rewrite passes_cons.
    destruct b, prev; simpl Np.b2z; simpl sentinel_pass.
    + change (1 - 1 * 1) with 0. rewrite Z.add_0_r. simpl (0 =? 0).
      cbv iota. simpl (0 =? 0). cbv iota. f_equal. apply (IH true acc Hacc).
    + change (1 - 0 * 1) with 1. simpl (1 =? 0). cbv iota.
      replace (acc + 1 =? 0) with false by (symmetry; apply Z.eqb_neq; lia).
      f_equal; [lia|]. apply (IH true (acc + 1)). lia.
    + change (0 - 1 * 0) with 0. rewrite Z.add_0_r. simpl (0 =? 0).
      cbv iota. simpl (0 =? 0). cbv iota. f_equal. apply (IH false acc Hacc).
    + change (0 - 0 * 0) with 0. rewrite Z.add_0_r. simpl (0 =? 0).
      cbv iota. simpl (0 =? 0). cbv iota. f_equal. apply (IH false acc Hacc).
Qed.

(** On a non-empty mask the encoder returns the one-pass sentinel map. *)
Lemma create_sentinel_ids_pass (vocab_len : Z) (mask : list bool) :
  mask <> [] ->
  Sentinel.create_sentinel_ids (Sentinel.astype_int8 mask) vocab_len
  = Ok (sentinel_pass vocab_len false 0 mask).
Proof.
  intros Hne. destruct mask as [|b mask]; [congruence|].
  rewrite <- (passes_sentinel_pass vocab_len (b :: mask) false 0) by lia.
  unfold Sentinel.create_sentinel_ids, Sentinel.astype_int8.
  simpl map. unfold Np.roll1. rewrite zip_with_cons.
  rewrite zip_removelast. cbn [bind].
  destruct b; reflexivity.
Qed.

Lemma sentinel_pass_length (vocab_len : Z) (mask : list bool) :
  forall prev r, length (sentinel_pass vocab_len prev r mask) = length mask.
Proof.
  induction mask as [|[] mask IH]; intros prev r; simpl.
  - reflexivity.
  - destruct prev; simpl; rewrite IH; reflexivity.
  - rewrite IH. reflexivity.
Qed.


Lemma sentinel_pass_cons (vocab_len : Z) (prev b : bool) (r : Z) (l : list bool) :
  sentinel_pass vocab_len prev r (b :: l)
  = (if b then if prev then -1 else vocab_len - (r + 1) else 0)
    :: sentinel_pass vocab_len b (r + (if b && negb prev then 1 else 0)) l.
Proof.
  destruct b, prev; simpl; rewrite ?Z.add_0_r; reflexivity.
Qed.

Lemma start_at_tail (prev b : bool) (l : list bool) (j : nat) :
  Mask.start_at prev (b :: l) (S j) = Mask.start_at b l j.
Proof. destruct j; reflexivity. Qed.

Lemma sentinel_pass_nth (vocab_len : Z) (l : list bool) :
  forall prev r i, (i < length l)%nat ->
  let s := sentinel_pass vocab_len prev r l in
  (nth i l false = false -> nth i s 0 = 0)
  /\ (Mask.start_at prev l i = true ->
      nth i s 0 = vocab_len - (r + Mask.starts_upto prev l (S i)))
  /\ (nth i l false = true -> Mask.start_at prev l i = false -> nth i s 0 = -1).
Proof.
  induction l as [|b l IH]; intros prev r i Hi; [simpl in Hi; lia|].
  cbv zeta. rewrite sentinel_pass_cons. destruct i as [|j].
  - unfold Mask.start_at. simpl nth.
    change (Mask.starts_upto prev (b :: l) 1)
      with ((if b && negb prev then 1 else 0) + 0).
    destruct b, prev; simpl; repeat split; intros; try discriminate; lia.
  - simpl in Hi. apply Nat.succ_lt_mono in Hi.
    rewrite start_at_tail.
    change (Mask.starts_upto prev (b :: l) (S (S j)))
      with ((if b && negb prev then 1 else 0) + Mask.starts_upto b l (S j)).
    simpl nth.
    destruct (IH b (r + (if b && negb prev then 1 else 0)) j Hi) as (H1 & H2 & H3).
    repeat split.
    + exact H1.
    + intros H. rewrite (H2 H). lia.
    + exact H3.
Qed.

(** C7: on every non-empty mask and for every vocabulary length the
    encoder returns a map of the mask's length in which every unmasked
    position holds 0, the k-th span start from the left holds
    [vocab_len - k], and every masked position that is not a span start
    holds a strictly negative value (namely -1). *)
Theorem C7_sentinel_map (mask : list bool) (vocab_len : Z) :
  mask <> [] ->
  exists s,
    Sentinel.create_sentinel_ids (Sentinel.astype_int8 mask) vocab_len = Ok s
    /\ length s = length mask
    /\ forall i, (i < length mask)%nat ->
         (nth i mask false = false -> nth i s 0 = 0)
         /\ (Mask.span_start mask i = true -> nth i s 0 = vocab_len - Mask.rank mask i)
         /\ (nth i mask false = true -> Mask.span_start mask i = false ->
             nth i s 0 = -1 /\ nth i s 0 < 0).
Proof.
  intros Hne. exists (sentinel_pass vocab_len false 0 mask).
  split; [apply create_sentinel_ids_pass, Hne|].
  split; [apply sentinel_pass_length|].
  intros i Hi.
  destruct (sentinel_pass_nth vocab_len mask false 0 i Hi) as (H1 & H2 & H3).
  repeat split.
  - exact H1.
  - intros H. unfold Mask.rank. rewrite Z.add_0_l in H2. apply H2, H.
  - apply H3; assumption.
  - rewrite H3 by assumption. lia.
Qed.

Lemma C7_sentinel_map_witness :
  exists s,
    Sentinel.create_sentinel_ids
      (Sentinel.astype_int8 [false; true; true; false; true]) 100 = Ok s
    /\ length s = 5%nat
    /\ forall i, (i < 5)%nat ->
         (nth i [false; true; true; false; true] false = false -> nth i s 0 = 0)
         /\ (Mask.span_start [false; true; true; false; true] i = true ->
             nth i s 0 = 100 - Mask.rank [false; true; true; false; true] i)
         /\ (nth i [false; true; true; false; true] false = true ->
             Mask.span_start [false; true; true; false; true] i = false ->
             nth i s 0 = -1 /\ nth i s 0 < 0).
Proof.
  apply (C7_sentinel_map [false; true; true; false; true] 100).
  discriminate.
Defined.

(** ** Sequence assembler *)

Lemma count_true_false (l : list bool) :
  Mask.count true l + Mask.count false l = Np.len l.
Proof.
  unfold Np.len.
  induction l as [|[] l IH]; cbn [length Mask.count Bool.eqb];
    rewrite ?Nat2Z.inj_succ; lia.
Qed.

Lemma count_negb (b : bool) (l : list bool) :
  Mask.count b (map negb l) = Mask.count (negb b) l.
Proof.
  induction l as [|x l IH]; simpl; [reflexivity|].
  rewrite IH. destruct x, b; reflexivity.
Qed.

Lemma input_ids_full_same_length (input_ids sentinel_ids : list Z) :
  length sentinel_ids = length input_ids ->
  Sentinel.input_ids_full input_ids sentinel_ids
  = Ok (map (fun p => if fst p =? 0 then snd p else fst p)
          (combine sentinel_ids input_ids)).
Proof.
  intros H. unfold Sentinel.input_ids_full, Np.broadcast2.
  rewrite H, Nat.eqb_refl. reflexivity.
Qed.

(** The entries that survive the filter are the unmasked tokens and one
    sentinel per span. *)
Lemma kept_count (vocab_len : Z) (mask : list bool) :
  forall prev r tokens,
  length tokens = length mask ->
  Forall (fun t => 0 <= t) tokens ->
  r + Mask.starts_upto prev mask (length mask) <= vocab_len ->
  Np.len (filter (fun x => 0 <=? x)
            (map (fun p => if fst p =? 0 then snd p else fst p)
               (combine (sentinel_pass vocab_len prev r mask) tokens)))
  = Mask.count false mask + Mask.starts_upto prev mask (length mask).
Proof.
  unfold Np.len.
  induction mask as [|b mask IH]; intros prev r tokens Hlen Htok Hv.
  - reflexivity.
  - destruct tokens as [|t tokens]; [discriminate Hlen|].
    injection Hlen as Hlen. inversion Htok as [|? ? Ht Htok']; subst.
    rewrite sentinel_pass_cons. simpl length in *.
    change (Mask.starts_upto prev (b :: mask) (S (length mask)))
      with ((if b && negb prev then 1 else 0)
            + Mask.starts_upto b mask (length mask)) in *.
    pose proof (starts_upto_nonneg mask b (length mask)) as Hnn.
    specialize (IH b (r + (if b && negb prev then 1 else 0)) tokens Hlen Htok').
    simpl combine. simpl map. simpl filter.
    destruct b, prev; cbn [andb negb fst snd Mask.count Bool.eqb] in *;
      rewrite ?Z.add_0_r in *;
      change (-1 =? 0) with false; change (0 =? 0) with true; cbv iota;
      change (0 <=? -1) with false; cbv iota.
    + rewrite IH by lia. lia.
    + destruct (vocab_len - (r + 1) =? 0) eqn:E.
      * replace (0 <=? t) with true by (symmetry; apply Z.leb_le; exact Ht).
        simpl length. rewrite Nat2Z.inj_succ, IH by lia. lia.
      * replace (0 <=? vocab_len - (r + 1)) with true
          by (symmetry; apply Z.leb_le; lia).
        simpl length. rewrite Nat2Z.inj_succ, IH by lia. lia.
    + replace (0 <=? t) with true by (symmetry; apply Z.leb_le; exact Ht).
      simpl length. rewrite Nat2Z.inj_succ, IH by lia. lia.
    + replace (0 <=? t) with true by (symmetry; apply Z.leb_le; exact Ht).
      simpl length. rewrite Nat2Z.inj_succ, IH by lia. lia.
Qed.

Lemma filter_input_ids_length (vocab_len eos_id : Z) (mask : list bool)
    (tokens : list Z) :
  mask <> [] ->
  length tokens = length mask ->
  Forall (fun t => 0 <= t) tokens ->
  Mask.runs mask <= vocab_len ->
  exists s stream,
    Sentinel.create_sentinel_ids (Sentinel.astype_int8 mask) vocab_len = Ok s
    /\ Sentinel.filter_input_ids tokens s eos_id = Ok stream
    /\ Np.len stream = Mask.count false mask + Mask.runs mask + 1.
Proof.
  intros Hne Hlen Htok Hv.
  exists (sentinel_pass vocab_len false 0 mask). eexists.
  split; [apply create_sentinel_ids_pass, Hne|].
  unfold Sentinel.filter_input_ids.
  rewrite input_ids_full_same_length
    by (rewrite sentinel_pass_length; symmetry; exact Hlen).
  cbn [bind]. split; [reflexivity|].
  unfold Np.len. rewrite length_app, Nat2Z.inj_add. simpl length.
  fold (Np.len (filter (fun x => 0 <=? x)
            (map (fun p => if fst p =? 0 then snd p else fst p)
               (combine (sentinel_pass vocab_len false 0 mask) tokens)))).
  rewrite kept_count by (try assumption; unfold Mask.runs in Hv; lia).
  unfold Mask.runs. lia.
Qed.

(** C6: for a mask of length T with [noise_tokens] true positions in
    [noise_spans] maximal runs, token ids that are not negative and a
    vocabulary at least as large as the number of runs on either side, the
    assembled input stream has length (T - noise_tokens) + noise_spans + 1
    and the target stream, assembled from the complement mask, has length
    noise_tokens + (runs of the complement) + 1. *)
Theorem C6_stream_lengths (mask : list bool) (tokens : list Z)
    (vocab_len eos_id : Z) :
  mask <> [] ->
  length tokens = length mask ->
  Forall (fun t => 0 <= t) tokens ->
  Mask.runs mask <= vocab_len ->
  Mask.runs (map negb mask) <= vocab_len ->
  exists input_ids_sentinel labels_sentinel input_tokens_ids output_tokens_ids,
    Sentinel.create_sentinel_ids (Sentinel.astype_int8 mask) vocab_len
      = Ok input_ids_sentinel
    /\ Sentinel.create_sentinel_ids (Sentinel.astype_int8 (map negb mask)) vocab_len
      = Ok labels_sentinel
    /\ Sentinel.filter_input_ids tokens input_ids_sentinel eos_id
      = Ok input_tokens_ids
    /\ Sentinel.filter_input_ids tokens labels_sentinel eos_id
      = Ok output_tokens_ids
    /\ Np.len input_tokens_ids
      = (Np.len mask - Mask.count true mask) + Mask.runs mask + 1
    /\ Np.len output_tokens_ids
      = Mask.count true mask + Mask.runs (map negb mask) + 1.
Proof.
  intros Hne Hlen Htok Hv Hv'.
  destruct (filter_input_ids_length vocab_len eos_id mask tokens Hne Hlen Htok Hv)
    as (s1 & i1 & Hs1 & Hi1 & Hl1).
  assert (Hne' : map negb mask <> []) by (destruct mask; [congruence|discriminate]).
  assert (Hlen' : length tokens = length (map negb mask))
    by (rewrite length_map; exact Hlen).
  destruct (filter_input_ids_length vocab_len eos_id _ tokens Hne' Hlen' Htok Hv')
    as (s2 & i2 & Hs2 & Hi2 & Hl2).
  exists s1, s2, i1, i2. repeat split; try assumption.
  - rewrite Hl1. pose proof (count_true_false mask). lia.
  - rewrite Hl2, count_negb. reflexivity.
Qed.

Lemma C6_stream_lengths_witness :
  exists input_ids_sentinel labels_sentinel input_tokens_ids output_tokens_ids,
    Sentinel.create_sentinel_ids
      (Sentinel.astype_int8 [false; true; true; false; true]) 100
      = Ok input_ids_sentinel
    /\ Sentinel.create_sentinel_ids
         (Sentinel.astype_int8 (map negb [false; true; true; false; true])) 100
      = Ok labels_sentinel
    /\ Sentinel.filter_input_ids [11; 12; 13; 14; 15] input_ids_sentinel 1
      = Ok input_tokens_ids
    /\ Sentinel.filter_input_ids [11; 12; 13; 14; 15] labels_sentinel 1
      = Ok output_tokens_ids
    /\ Np.len input_tokens_ids = (5 - 3) + 2 + 1
    /\ Np.len output_tokens_ids = 3 + 2 + 1.
Proof.
  apply (C6_stream_lengths [false; true; true; false; true]
           [11; 12; 13; 14; 15] 100 1).
  - discriminate.
  - reflexivity.
  - repeat constructor; lia.
  - vm_compute. discriminate.
  - vm_compute. discriminate.
Defined.

(** ** Complementary sentinel maps *)

Lemma starts_upto_full_cons (prev b : bool) (l : list bool) :
  Mask.starts_upto prev (b :: l) (length (b :: l))
  = (if b && negb prev then 1 else 0) + Mask.starts_upto b l (length l).
Proof. reflexivity. Qed.

(** A masked position holds a non-zero entry as soon as no sentinel value
    [vocab_len - k] of the mask is zero. *)
Lemma sentinel_pass_nonzero (vocab_len : Z) (l : list bool) :
  forall prev r i, (i < length l)%nat ->
  (forall k, r < k <= r + Mask.starts_upto prev l (length l) -> vocab_len <> k) ->
  nth i l false = true ->
  nth i (sentinel_pass vocab_len prev r l) 0 <> 0.
Proof.
  induction l as [|b l IH]; intros prev r i Hi Hnz Hb; [simpl in Hi; lia|].
  rewrite sentinel_pass_cons. rewrite starts_upto_full_cons in Hnz.
  pose proof (starts_upto_nonneg l b (length l)) as Hnn.
  destruct i as [|j]; simpl nth in *.
  - subst b. destruct prev; [lia|].
    cbn [andb negb] in Hnz. specialize (Hnz (r + 1)). lia.
  - simpl in Hi. apply Nat.succ_lt_mono in Hi.
    apply IH; [exact Hi| |exact Hb].
    intros k Hk. apply Hnz. destruct (b && negb prev); lia.
Qed.

Lemma nth_negb (l : list bool) (i : nat) :
  (i < length l)%nat -> nth i (map negb l) false = negb (nth i l false).
Proof.
  intros Hi.
  rewrite (nth_indep _ false (negb true)) by (rewrite length_map; exact Hi).
  rewrite map_nth. f_equal. apply nth_indep, Hi.
Qed.

Lemma input_ids_full_nth (tokens s : list Z) (i : nat) :
  length s = length tokens -> (i < length tokens)%nat ->
  exists full,
    Sentinel.input_ids_full tokens s = Ok full
    /\ nth i full 0 = if nth i s 0 =? 0 then nth i tokens 0 else nth i s 0.
Proof.
  intros Hlen Hi. rewrite input_ids_full_same_length by exact Hlen.
  eexists. split; [reflexivity|].
  set (sel := fun p : Z * Z => if fst p =? 0 then snd p else fst p).
  change 0 with (sel (0, 0)) at 1. rewrite map_nth.
  rewrite combine_nth by exact Hlen. reflexivity.
Qed.

(** C8 (as stated, refuted): with the mask [false, true], vocabulary
    length 10 and tokens [5, 6], no sentinel value is 0, yet it is not the
    case that each position survives in exactly one of the two streams:
    both positions survive in both. *)
Lemma C8_kept_in_both_streams :
  ~ (forall s_in s_tg,
       Sentinel.create_sentinel_ids (Sentinel.astype_int8 [false; true]) 10
         = Ok s_in ->
       Sentinel.create_sentinel_ids
         (Sentinel.astype_int8 (map negb [false; true])) 10 = Ok s_tg ->
       forall i, (i < 2)%nat ->
         (kept_at [5; 6] s_in i /\ ~ kept_at [5; 6] s_tg i)
         \/ (~ kept_at [5; 6] s_in i /\ kept_at [5; 6] s_tg i)).
Proof.
  intros H.
  destruct (H [0; 9] [9; 0] eq_refl eq_refl 0%nat ltac:(lia)) as [[_ N]|[N _]];
    apply N; eexists; (split; [reflexivity|]); simpl; lia.
Qed.

(** C8 (amended): for a non-empty mask such that no sentinel value
    [vocab_len - rank] of the mask or of its complement is 0, at every
    position exactly one of the two sentinel maps is non-zero: the input
    map on masked positions, the target map on unmasked ones. Hence each
    token is passed unchanged to exactly one of the two streams, the one
    whose map is 0 there, and is replaced by a sentinel or marked for
    deletion in the other. *)
Theorem C8_complementary_maps (mask : list bool) (tokens : list Z) (vocab_len : Z) :
  mask <> [] ->
  length tokens = length mask ->
  (forall k, 0 < k <= Mask.runs mask -> vocab_len <> k) ->
  (forall k, 0 < k <= Mask.runs (map negb mask) -> vocab_len <> k) ->
  exists s_in s_tg full_in full_tg,
    Sentinel.create_sentinel_ids (Sentinel.astype_int8 mask) vocab_len = Ok s_in
    /\ Sentinel.create_sentinel_ids (Sentinel.astype_int8 (map negb mask)) vocab_len
       = Ok s_tg
    /\ Sentinel.input_ids_full tokens s_in = Ok full_in
    /\ Sentinel.input_ids_full tokens s_tg = Ok full_tg
    /\ forall i, (i < length mask)%nat ->
         (nth i mask false = true
          /\ nth i s_in 0 <> 0 /\ nth i s_tg 0 = 0
          /\ nth i full_in 0 = nth i s_in 0 /\ nth i full_tg 0 = nth i tokens 0)
         \/ (nth i mask false = false
          /\ nth i s_in 0 = 0 /\ nth i s_tg 0 <> 0
          /\ nth i full_in 0 = nth i tokens 0 /\ nth i full_tg 0 = nth i s_tg 0).
Proof.
  intros Hne Hlen Hnz Hnz'.
  assert (Hne' : map negb mask <> []) by (destruct mask; [congruence|discriminate]).
  set (s_in := sentinel_pass vocab_len false 0 mask).
  set (s_tg := sentinel_pass vocab_len false 0 (map negb mask)).
  assert (Lin : length s_in = length tokens)
    by (unfold s_in; rewrite sentinel_pass_length; symmetry; exact Hlen).
  assert (Ltg : length s_tg = length tokens)
    by (unfold s_tg; rewrite sentinel_pass_length, length_map; symmetry; exact Hlen).
  exists s_in, s_tg.
  exists (map (fun p => if fst p =? 0 then snd p else fst p) (combine s_in tokens)).
  exists (map (fun p => if fst p =? 0 then snd p else fst p) (combine s_tg tokens)).
  split; [apply create_sentinel_ids_pass, Hne|].
  split; [apply create_sentinel_ids_pass, Hne'|].
  split; [apply input_ids_full_same_length, Lin|].
  split; [apply input_ids_full_same_length, Ltg|].
  intros i Hi.
  assert (Hi' : (i < length (map negb mask))%nat) by (rewrite length_map; exact Hi).
  assert (Hit : (i < length tokens)%nat) by (rewrite Hlen; exact Hi).
  destruct (input_ids_full_nth tokens s_in i Lin Hit) as (f1 & Hf1 & Hn1).
  destruct (input_ids_full_nth tokens s_tg i Ltg Hit) as (f2 & Hf2 & Hn2).
  rewrite input_ids_full_same_length in Hf1, Hf2 by assumption.
  injection Hf1 as <-. injection Hf2 as <-.
  destruct (sentinel_pass_nth vocab_len mask false 0 i Hi) as (Z1 & _ & _).
  destruct (sentinel_pass_nth vocab_len (map negb mask) false 0 i Hi') as (Z2 & _ & _).
  fold s_in in Z1. fold s_tg in Z2.
  rewrite nth_negb in Z2 by exact Hi.
  destruct (nth i mask false) eqn:Hb.
  - left.
    assert (N : nth i s_in 0 <> 0).
    { apply sentinel_pass_nonzero; [exact Hi| |exact Hb].
      intros k Hk. apply Hnz. unfold Mask.runs. lia. }
    specialize (Z2 eq_refl).
    rewrite Hn1, Hn2, Z2.
    replace (nth i s_in 0 =? 0) with false by (symmetry; apply Z.eqb_neq; exact N).
    simpl. repeat split; try reflexivity; assumption.
  - right.
    assert (N : nth i s_tg 0 <> 0).
    { apply sentinel_pass_nonzero; [exact Hi'| |rewrite nth_negb, Hb by exact Hi; reflexivity].
      intros k Hk. apply Hnz'. unfold Mask.runs. lia. }
    specialize (Z1 eq_refl).
    rewrite Hn1, Hn2, Z1.
    replace (nth i s_tg 0 =? 0) with false by (symmetry; apply Z.eqb_neq; exact N).
    simpl. repeat split; try reflexivity; assumption.
Qed.

Lemma C8_complementary_maps_witness :
  exists s_in s_tg full_in full_tg,
    Sentinel.create_sentinel_ids (Sentinel.astype_int8 [false; true; true]) 10
      = Ok s_in
    /\ Sentinel.create_sentinel_ids
         (Sentinel.astype_int8 (map negb [false; true; true])) 10 = Ok s_tg
    /\ Sentinel.input_ids_full [5; 6; 7] s_in = Ok full_in
    /\ Sentinel.input_ids_full [5; 6; 7] s_tg = Ok full_tg
    /\ forall i, (i < 3)%nat ->
         (nth i [false; true; true] false = true
          /\ nth i s_in 0 <> 0 /\ nth i s_tg 0 = 0
          /\ nth i full_in 0 = nth i s_in 0 /\ nth i full_tg 0 = nth i [5; 6; 7] 0)
         \/ (nth i [false; true; true] false = false
          /\ nth i s_in 0 = 0 /\ nth i s_tg 0 <> 0
          /\ nth i full_in 0 = nth i [5; 6; 7] 0 /\ nth i full_tg 0 = nth i s_tg 0).
Proof.
  apply (C8_complementary_maps [false; true; true] [5; 6; 7] 10).
  - discriminate.
  - reflexivity.
  - intros k Hk. change (Mask.runs [false; true; true]) with 1 in Hk. lia.
  - intros k Hk. change (Mask.runs (map negb [false; true; true])) with 1 in Hk. lia.
Defined.

(** ** Noise mask generator *)

(** *** The shuffle keeps the length and the number of true entries *)

Lemma upd_length (A : Type) (l : list A) :
  forall i x, length (Np.upd i x l) = length l.
Proof.
  induction l as [|y l IH]; intros [|i] x; simpl; try reflexivity.
  rewrite IH. reflexivity.
Qed.

Lemma upd_count (l : list bool) :
  forall i x a, nth_error l i = Some a ->
  Mask.count true (Np.upd i x l) = Mask.count true l - Np.b2z a + Np.b2z x.
Proof.
  induction l as [|y l IH]; intros [|i] x a H; simpl in H; try discriminate.
  - injection H as ->. cbn [Np.upd Mask.count].
    destruct a, x; cbn [Bool.eqb Np.b2z]; lia.
  - cbn [Np.upd Mask.count]. rewrite (IH i x a H). lia.
Qed.

Lemma upd_nth_error (A : Type) (l : list A) :
  forall i j x b, nth_error l i <> None -> nth_error l j = Some b ->
  nth_error (Np.upd i x l) j = Some (if Nat.eqb i j then x else b).
Proof.
  induction l as [|y l IH]; intros [|i] [|j] x b Hi Hj; simpl in *;
    try congruence.
  apply IH; assumption.
Qed.

Lemma swap_length (A : Type) (l : list A) (i j : nat) :
  length (Np.swap l i j) = length l.
Proof.
  unfold Np.swap. destruct (nth_error l i), (nth_error l j);
    rewrite ?upd_length; reflexivity.
Qed.

Lemma swap_count (l : list bool) (i j : nat) :
  Mask.count true (Np.swap l i j) = Mask.count true l.
Proof.
  unfold Np.swap.
  destruct (nth_error l i) as [a|] eqn:Hi; [|reflexivity].
  destruct (nth_error l j) as [b|] eqn:Hj; [|reflexivity].
  assert (Hj' : nth_error (Np.upd i b l) j = Some b).
  { rewrite (upd_nth_error _ l i j b b) by congruence.
    destruct (Nat.eqb i j); reflexivity. }
  rewrite (upd_count _ j a b Hj'), (upd_count l i b a Hi). lia.
Qed.

Lemma shuffle_from_spec (i : nat) :
  forall (l : list bool) g,
  length (fst (Np.shuffle_from i l g)) = length l
  /\ Mask.count true (fst (Np.shuffle_from i l g)) = Mask.count true l.
Proof.
  induction i as [|i IH]; intros l g; [split; reflexivity|].
  cbn [Np.shuffle_from]. destruct (Np.draw (S i) g) as [j g'].
  destruct (IH (Np.swap l (S i) j) g') as [H1 H2].
  rewrite H1, H2, swap_length, swap_count. split; reflexivity.
Qed.

Lemma shuffle_spec (l : list bool) (g : Np.rng) :
  length (fst (Np.shuffle l g)) = length l
  /\ Mask.count true (fst (Np.shuffle l g)) = Mask.count true l.
Proof. apply shuffle_from_spec. Qed.

(** *** The indicator [np.arange(n) < k] *)

Lemma seq_lt_count (k : Z) (len : nat) :
  forall a : nat,
  Mask.count true (map (fun i => i <? k) (map Z.of_nat (seq a len)))
  = Z.max 0 (Z.min k (Z.of_nat a + Z.of_nat len) - Z.of_nat a).
Proof.
  induction len as [|len IH]; intros a.
  - simpl. lia.
  - cbn [seq map Mask.count]. rewrite IH.
    destruct (Z.of_nat a <? k) eqn:E; cbn [Bool.eqb].
    + apply Z.ltb_lt in E. lia.
    + apply Z.ltb_ge in E. lia.
Qed.

Lemma arange_lt_spec (n k : Z) :
  let l := map (fun i => i <? k) (Np.arange n) in
  Np.len l = Z.max n 0 /\ Mask.count true l = Z.max 0 (Z.min k (Z.max n 0)).
Proof.
  cbv zeta. unfold Np.arange, Np.len. split.
  - rewrite !length_map, length_seq. lia.
  - rewrite seq_lt_count. lia.
Qed.

(** *** [np.unique] on the segment ids *)

Lemma cumsum_from_head_ge (bs : list bool) (acc : Z) :
  match Np.cumsum_from acc (map Np.b2z bs) with
  | [] => True
  | y :: _ => acc <= y
  end.
Proof. destruct bs as [|[] bs]; simpl; lia. Qed.

Lemma insert_sorted_head (x : Z) (l : list Z) :
  match l with [] => True | y :: _ => x <= y end ->
  Np.insert_sorted x l = x :: l.
Proof.
  destruct l as [|y l]; intros H; [reflexivity|].
  simpl. replace (x <=? y) with true by (symmetry; apply Z.leb_le; exact H).
  reflexivity.
Qed.

(** The running sum of an indicator is already sorted. *)
Lemma sort_cumsum (bs : list bool) :
  forall acc, Np.sort (Np.cumsum_from acc (map Np.b2z bs))
              = Np.cumsum_from acc (map Np.b2z bs).
Proof.
  induction bs as [|b bs IH]; intros acc; [reflexivity|].
  cbn [map Np.cumsum_from Np.sort fold_right].
  change (fold_right Np.insert_sorted [] ?l) with (Np.sort l).
  rewrite IH. apply insert_sorted_head.
  pose proof (cumsum_from_head_ge bs (acc + Np.b2z b)) as H.
  destruct (Np.cumsum_from (acc + Np.b2z b) (map Np.b2z bs)); [exact I|exact H].
Qed.

Lemma run_lengths_cumsum (bs : list bool) :
  forall cur k,
  Np.run_lengths cur k (Np.cumsum_from cur (map Np.b2z bs)) = seg_lengths k bs.
Proof.
  induction bs as [|[] bs IH]; intros cur k; [reflexivity| |].
  - cbn [map Np.cumsum_from Np.run_lengths seg_lengths Np.b2z].
    replace (cur + 1 =? cur) with false by (symmetry; apply Z.eqb_neq; lia).
    rewrite IH. reflexivity.
  - cbn [map Np.cumsum_from Np.run_lengths seg_lengths Np.b2z].
    rewrite Z.add_0_r, Z.eqb_refl. apply IH.
Qed.

Lemma unique_counts_segments (sh : list bool) :
  Np.unique_counts (Np.cumsum (map Np.b2z (false :: sh))) = seg_lengths 1 sh.
Proof.
  unfold Np.unique_counts, Np.cumsum. rewrite sort_cumsum.
  cbn [map Np.cumsum_from Np.b2z]. rewrite Z.add_0_r.
  apply run_lengths_cumsum.
Qed.

Lemma sumZ_cons (x : Z) (l : list Z) : sumZ (x :: l) = x + sumZ l.
Proof. reflexivity. Qed.

Lemma sumZ_app (l1 l2 : list Z) : sumZ (l1 ++ l2) = sumZ l1 + sumZ l2.
Proof.
  induction l1 as [|x l1 IH]; [reflexivity|].
  cbn [app]. rewrite !sumZ_cons, IH. lia.
Qed.

Lemma seg_lengths_spec (bs : list bool) :
  forall k, 1 <= k ->
  Forall (fun c => 1 <= c) (seg_lengths k bs)
  /\ sumZ (seg_lengths k bs) = k + Np.len bs
  /\ Np.len (seg_lengths k bs) = 1 + Mask.count true bs.
Proof.
  unfold Np.len.
  induction bs as [|[] bs IH]; intros k Hk; cbn [seg_lengths].
  - split; [repeat constructor; exact Hk|]. split; simpl; lia.
  - destruct (IH 1 ltac:(lia)) as (H1 & H2 & H3).
    repeat split.
    + constructor; assumption.
    + rewrite sumZ_cons, H2. simpl length.
      rewrite Nat2Z.inj_succ. lia.
    + simpl length. rewrite Nat2Z.inj_succ, H3.
      cbn [Mask.count Bool.eqb]. lia.
  - destruct (IH (k + 1) ltac:(lia)) as (H1 & H2 & H3).
    repeat split.
    + exact H1.
    + rewrite H2. simpl length. rewrite Nat2Z.inj_succ. lia.
    + rewrite H3. cbn [Mask.count Bool.eqb]. lia.
Qed.

(** [_random_segmentation]: positive lengths, as many as the segments
    asked for when there are enough items, adding up to the items. *)
Lemma random_segmentation_spec (num_items num_segments : Z) (g : Np.rng) :
  1 <= num_segments <= num_items ->
  let r := fst (NoiseMask.random_segmentation num_items num_segments g) in
  Forall (fun c => 1 <= c) r
  /\ sumZ r = num_items
  /\ Np.len r = num_segments.
Proof.
  intros H. cbv zeta. unfold NoiseMask.random_segmentation.
  destruct (arange_lt_spec (num_items - 1) (num_segments - 1)) as [Hl Hc].
  destruct (shuffle_spec
              (map (fun i => i <? num_segments - 1) (Np.arange (num_items - 1))) g)
    as [Sl Sc].
  destruct (Np.shuffle _ g) as [sh g']. cbn [fst] in *.
  rewrite unique_counts_segments.
  destruct (seg_lengths_spec sh 1 ltac:(lia)) as (H1 & H2 & H3).
  split; [exact H1|]. unfold Np.len in *. split.
  - rewrite H2, Sl. lia.
  - rewrite H3, Sc, Hc. lia.
Qed.

(** With too few items the segmentation returns one segment per item. *)
Lemma random_segmentation_short (num_items num_segments : Z) (g : Np.rng) :
  1 <= num_items <= num_segments ->
  Np.len (fst (NoiseMask.random_segmentation num_items num_segments g))
  = num_items.
Proof.
  intros H. unfold NoiseMask.random_segmentation.
  destruct (arange_lt_spec (num_items - 1) (num_segments - 1)) as [Hl Hc].
  destruct (shuffle_spec
              (map (fun i => i <? num_segments - 1) (Np.arange (num_items - 1))) g)
    as [Sl Sc].
  destruct (Np.shuffle _ g) as [sh g']. cbn [fst] in *.
  rewrite unique_counts_segments.
  destruct (seg_lengths_spec sh 1 ltac:(lia)) as (H1 & H2 & H3).
  unfold Np.len in *. rewrite H3, Sc, Hc. lia.
Qed.

(** *** Scattering the span starts *)

Lemma set_indices_fold (n v : Z) (idxs : list Z) :
  Forall (fun i => 0 <= i) idxs ->
  forall a,
  fold_left (fun a i => Np.upd (Z.to_nat (if i <? 0 then i + n else i)) v a) idxs a
  = fold_left (fun a i => Np.upd (Z.to_nat i) v a) idxs a.
Proof.
  induction 1 as [|i idxs Hi _ IH]; intros a; [reflexivity|].
  cbn [fold_left].
  replace (i <? 0) with false by (symmetry; apply Z.ltb_ge; exact Hi).
  apply IH.
Qed.

Lemma set_indices_ok (a idxs : list Z) (v : Z) :
  Forall (fun i => 0 <= i < Np.len a) idxs ->
  Np.set_indices a idxs v
  = Ok (fold_left (fun a i => Np.upd (Z.to_nat i) v a) idxs a).
Proof.
  intros H. unfold Np.set_indices.
  replace (forallb _ idxs) with true.
  - rewrite set_indices_fold; [reflexivity|].
    eapply Forall_impl; [|exact H]. cbv beta. intros; lia.
  - symmetry. apply forallb_forall. intros i Hi.
    rewrite Forall_forall in H. specialize (H i Hi).
    apply andb_true_intro. split; [apply Z.leb_le | apply Z.ltb_lt]; lia.
Qed.

Lemma set_indices_out_of_bounds (a idxs : list Z) (v : Z) :
  Exists (fun i => Np.len a <= i) idxs ->
  Np.set_indices a idxs v = Raise IndexError.
Proof.
  intros H. unfold Np.set_indices.
  replace (forallb _ idxs) with false; [reflexivity|].
  symmetry. apply not_true_is_false. intros F.
  rewrite forallb_forall in F. apply Exists_exists in H.
  destruct H as (i & Hi & Hge). specialize (F i Hi).
  apply andb_prop in F. destruct F as [_ F]. apply Z.ltb_lt in F. lia.
Qed.

Lemma sumZ_pos (cs : list Z) : Forall (fun c => 1 <= c) cs -> 0 <= sumZ cs.
Proof.
  induction 1 as [|c cs Hc _ IH]; [reflexivity|]. rewrite sumZ_cons. lia.
Qed.

Lemma removelast_cons2 (A : Type) (x y : A) (l : list A) :
  removelast (x :: y :: l) = x :: removelast (y :: l).
Proof. reflexivity. Qed.

(** The span starts lie strictly inside the array. *)
Lemma starts_bounds (cs : list Z) :
  Forall (fun c => 1 <= c) cs ->
  forall off,
  Forall (fun i => off < i < off + sumZ cs)
    (removelast (Np.cumsum_from off cs)).
Proof.
  induction 1 as [|c cs Hc Hcs IH]; intros off; [constructor|].
  destruct cs as [|c2 rest]; [constructor|].
  change (Np.cumsum_from off (c :: c2 :: rest))
    with ((off + c) :: Np.cumsum_from (off + c) (c2 :: rest)).
  change (Np.cumsum_from (off + c) (c2 :: rest))
    with ((off + c + c2) :: Np.cumsum_from (off + c + c2) rest) at 1.
  rewrite removelast_cons2.
  pose proof (sumZ_pos _ Hcs) as Hs. inversion Hcs as [|? ? Hc2 Hrest]; subst.
  pose proof (sumZ_pos _ Hrest) as Hs'.
  rewrite !sumZ_cons in *.
  constructor; [lia|].
  eapply Forall_impl; [|apply (IH (off + c))].
  cbv beta. intros i Hi. lia.
Qed.

Lemma upd_app_at (A : Type) (l1 l2 : list A) (x y : A) :
  Np.upd (length l1) x (l1 ++ y :: l2) = l1 ++ x :: l2.
Proof.
  induction l1 as [|z l1 IH]; [reflexivity|].
  cbn [length app Np.upd]. rewrite IH. reflexivity.
Qed.

Lemma repeat_split (n1 n2 : Z) :
  0 <= n1 -> 0 <= n2 ->
  repeat 0 (Z.to_nat (n1 + 1 + n2))
  = repeat 0 (Z.to_nat n1) ++ 0 :: repeat 0 (Z.to_nat n2).
Proof.
  intros H1 H2.
  replace (Z.to_nat (n1 + 1 + n2)) with (Z.to_nat n1 + S (Z.to_nat n2))%nat by lia.
  rewrite repeat_app. reflexivity.
Qed.

(** Writing 1 at the span starts of the blocks [cs] turns the zero array
    behind [pre] into the block layout. *)
Lemma scatter_blocks (cs : list Z) :
  Forall (fun c => 1 <= c) cs -> cs <> [] ->
  forall pre h,
  fold_left (fun a i => Np.upd (Z.to_nat i) 1 a)
    (removelast (Np.cumsum_from (Np.len pre) cs))
    (pre ++ h :: repeat 0 (Z.to_nat (sumZ cs - 1)))
  = pre ++ blocks h cs.
Proof.
  induction 1 as [|c cs Hc Hcs IH]; intros Hne pre h; [congruence|].
  destruct cs as [|c2 rest].
  - cbn [Np.cumsum_from removelast fold_left blocks].
    rewrite sumZ_cons, app_nil_r. cbn [sumZ fold_right].
    replace (c + 0 - 1) with (c - 1) by lia. reflexivity.
  - change (Np.cumsum_from (Np.len pre) (c :: c2 :: rest))
      with ((Np.len pre + c) :: Np.cumsum_from (Np.len pre + c) (c2 :: rest)).
    change (Np.cumsum_from (Np.len pre + c) (c2 :: rest))
      with ((Np.len pre + c + c2)
              :: Np.cumsum_from (Np.len pre + c + c2) rest) at 1.
    rewrite removelast_cons2.
    change ((Np.len pre + c + c2) :: Np.cumsum_from (Np.len pre + c + c2) rest)
      with (Np.cumsum_from (Np.len pre + c) (c2 :: rest)).
    cbn [fold_left].
    pose proof (sumZ_pos _ Hcs) as Hs.
    assert (Hs1 : 1 <= sumZ (c2 :: rest)).
    { inversion Hcs as [|? ? Hc2 Hrest]; subst.
      pose proof (sumZ_pos _ Hrest). rewrite sumZ_cons. lia. }
    rewrite (sumZ_cons c).
    replace (c + sumZ (c2 :: rest) - 1)
      with ((c - 1) + 1 + (sumZ (c2 :: rest) - 1)) by lia.
    rewrite repeat_split by lia.
    set (pre' := pre ++ h :: repeat 0 (Z.to_nat (c - 1))).
    assert (Hlen : Np.len pre' = Np.len pre + c).
    { unfold pre', Np.len. rewrite length_app. cbn [length].
      rewrite repeat_length. lia. }
    replace (pre ++ h :: repeat 0 (Z.to_nat (c - 1))
                 ++ 0 :: repeat 0 (Z.to_nat (sumZ (c2 :: rest) - 1)))
      with (pre' ++ 0 :: repeat 0 (Z.to_nat (sumZ (c2 :: rest) - 1)))
      by (unfold pre'; rewrite <- app_assoc; reflexivity).
    replace (Z.to_nat (Np.len pre + c)) with (length pre')
      by (unfold Np.len in *; lia).
    rewrite upd_app_at. rewrite <- Hlen.
    rewrite (IH ltac:(discriminate) pre' 1).
    unfold pre'. cbn [blocks]. rewrite <- !app_assoc. reflexivity.
Qed.

(** *** Running sum and parity of the block layout *)

Lemma cumsum_from_app (l1 l2 : list Z) :
  forall acc,
  Np.cumsum_from acc (l1 ++ l2)
  = Np.cumsum_from acc l1 ++ Np.cumsum_from (acc + sumZ l1) l2.
Proof.
  induction l1 as [|x l1 IH]; intros acc.
  - cbn [app Np.cumsum_from sumZ fold_right]. rewrite Z.add_0_r. reflexivity.
  - cbn [app Np.cumsum_from]. rewrite IH, sumZ_cons, Z.add_assoc. reflexivity.
Qed.

Lemma cumsum_from_zeros (n : nat) (acc : Z) :
  Np.cumsum_from acc (repeat 0 n) = repeat acc n.
Proof.
  induction n as [|n IH]; [reflexivity|].
  cbn [repeat Np.cumsum_from]. rewrite Z.add_0_r, IH. reflexivity.
Qed.

Lemma sumZ_zeros (n : nat) : sumZ (repeat 0 n) = 0.
Proof. induction n as [|n IH]; [reflexivity|]. cbn [repeat]. rewrite sumZ_cons, IH. lia. Qed.

Lemma parity_succ (n : Z) : parity (n + 1) = negb (parity n).
Proof.
  unfold parity. rewrite !Zmod_odd.
  replace (n + 1) with (Z.succ n) by lia. rewrite Z.odd_succ, <- Z.negb_odd.
  destruct (Z.odd n); reflexivity.
Qed.

Lemma parity_blocks (cs : list Z) :
  Forall (fun c => 1 <= c) cs ->
  forall acc h,
  map parity (Np.cumsum_from acc (blocks h cs)) = alternate (parity (acc + h)) cs.
Proof.
  induction 1 as [|c cs Hc Hcs IH]; intros acc h; [reflexivity|].
  cbn [blocks alternate]. rewrite cumsum_from_app, map_app.
  cbn [Np.cumsum_from]. rewrite cumsum_from_zeros.
  rewrite sumZ_cons, sumZ_zeros, Z.add_0_r.
  rewrite IH, parity_succ. f_equal.
  cbn [map]. rewrite map_repeat.
  change (parity (acc + h) :: repeat (parity (acc + h)) (Z.to_nat (c - 1)))
    with (repeat (parity (acc + h)) (S (Z.to_nat (c - 1)))).
  f_equal. lia.
Qed.

(** *** The alternating layout of the mask *)

Lemma runs_from_cons (prev x : bool) (l : list bool) :
  runs_from prev (x :: l) = (if x && negb prev then 1 else 0) + runs_from x l.
Proof. reflexivity. Qed.

Lemma runs_from_false_block (n : nat) (l : list bool) :
  forall prev, (1 <= n)%nat ->
  runs_from prev (repeat false n ++ l) = runs_from false l.
Proof.
  induction n as [|n IH]; intros prev Hn; [lia|].
  cbn [repeat app]. rewrite runs_from_cons. cbn [andb].
  destruct n as [|n]; [reflexivity|]. apply IH. lia.
Qed.

Lemma runs_from_true_block (n : nat) (l : list bool) :
  (1 <= n)%nat ->
  runs_from false (repeat true n ++ l) = 1 + runs_from true l.
Proof.
  intros Hn. destruct n as [|n]; [lia|].
  cbn [repeat app]. rewrite runs_from_cons. cbn [andb negb]. f_equal.
  clear Hn. induction n as [|n IH]; [reflexivity|].
  cbn [repeat app]. rewrite runs_from_cons. cbn [andb negb]. exact IH.
Qed.

Lemma count_app (b : bool) (l1 l2 : list bool) :
  Mask.count b (l1 ++ l2) = Mask.count b l1 + Mask.count b l2.
Proof.
  induction l1 as [|x l1 IH]; [reflexivity|].
  cbn [app Mask.count]. rewrite IH. lia.
Qed.

Lemma count_repeat (b x : bool) (n : nat) :
  Mask.count b (repeat x n) = if Bool.eqb x b then Z.of_nat n else 0.
Proof.
  induction n as [|n IH]; [destruct (Bool.eqb x b); reflexivity|].
  cbn [repeat Mask.count]. rewrite IH, Nat2Z.inj_succ.
  destruct (Bool.eqb x b); lia.
Qed.

Lemma interleave_cons (b a : Z) (bs as_ : list Z) :
  interleave (b :: bs) (a :: as_) = b :: a :: interleave bs as_.
Proof. reflexivity. Qed.

Lemma interleave_spec (bs : list Z) :
  forall as_, length bs = length as_ ->
  Forall (fun c => 1 <= c) bs -> Forall (fun c => 1 <= c) as_ ->
  Forall (fun c => 1 <= c) (interleave bs as_)
  /\ sumZ (interleave bs as_) = sumZ as_ + sumZ bs.
Proof.
  induction bs as [|b bs IH]; intros [|a as_] Hlen Hb Ha;
    try discriminate Hlen.
  - split; [constructor | reflexivity].
  - injection Hlen as Hlen.
    inversion Hb as [|? ? Pb1 Pb2]; inversion Ha as [|? ? Pa1 Pa2]; subst.
    destruct (IH as_ Hlen) as [H1 H2]; try assumption.
    rewrite interleave_cons. split.
    + repeat constructor; assumption.
    + rewrite !sumZ_cons, H2. lia.
Qed.

Lemma alternate_interleave (bs : list Z) :
  forall as_ prev, length bs = length as_ ->
  Forall (fun c => 1 <= c) bs -> Forall (fun c => 1 <= c) as_ ->
  let mask := alternate false (interleave bs as_) in
  Np.len mask = sumZ as_ + sumZ bs
  /\ Mask.count true mask = sumZ as_
  /\ runs_from prev mask = Np.len as_.
Proof.
  unfold Np.len.
  induction bs as [|b bs IH]; intros [|a as_] prev Hlen Hb Ha;
    try discriminate Hlen.
  - repeat split.
  - injection Hlen as Hlen. cbv zeta.
    inversion Hb as [|? ? Pb1 Pb2]; inversion Ha as [|? ? Pa1 Pa2]; subst.
    rewrite interleave_cons. cbn [alternate negb].
    destruct (IH as_ true Hlen) as (H1 & H2 & H3); try assumption.
    destruct (IH as_ false Hlen) as (_ & _ & H3'); try assumption.
    cbv zeta in *. repeat split.
    + rewrite !length_app, !repeat_length, !Nat2Z.inj_add, H1, !sumZ_cons. lia.
    + rewrite !count_app, !count_repeat, H2, !sumZ_cons.
      cbn [Bool.eqb]. lia.
    + rewrite runs_from_false_block by lia.
      rewrite runs_from_true_block by lia.
      rewrite H3. cbn [length]. lia.
Qed.

(** The complement of the alternating layout has one run per non-noise
    segment. *)
Lemma alternate_interleave_negb (bs : list Z) :
  forall as_, length bs = length as_ ->
  Forall (fun c => 1 <= c) bs -> Forall (fun c => 1 <= c) as_ ->
  runs_from false (map negb (alternate false (interleave bs as_))) = Np.len bs.
Proof.
  unfold Np.len.
  induction bs as [|b bs IH]; intros [|a as_] Hlen Hb Ha;
    try discriminate Hlen; [reflexivity|].
  injection Hlen as Hlen.
  inversion Hb as [|? ? Pb1 Pb2]; inversion Ha as [|? ? Pa1 Pa2]; subst.
  rewrite interleave_cons. cbn [alternate negb].
  rewrite !map_app, !map_repeat. cbn [negb].
  rewrite runs_from_true_block by lia.
  rewrite runs_from_false_block by lia.
  rewrite (IH as_ Hlen Pb2 Pa2). cbn [length]. lia.
Qed.

(** *** The generator *)

Lemma round_quotient_le (n : Z) (m : Q) :
  0 <= n -> (1 <= m)%Q -> Np.round (inject_Z n / m) <= n.
Proof.
  intros Hn Hm. rewrite <- (round_inject_Z n) at 2. apply round_mono.
  apply Qle_shift_div_r; [lra|].
  assert (0 <= inject_Z n)%Q by (unfold Qle; simpl; lia).
  nra.
Qed.

Lemma py_prefix_all (A : Type) (l : list A) :
  Np.py_prefix l (Np.len l) = l.
Proof.
  unfold Np.py_prefix, Np.len.
  replace (Z.of_nat (length l) <? 0) with false by (symmetry; apply Z.ltb_ge; lia).
  rewrite Nat2Z.id. apply firstn_all.
Qed.

(** The mask laid out from the two segmentations. *)
Lemma mask_of_segments (L s : Z) (bs as_ : list Z) :
  1 <= s -> Np.len as_ = s -> Np.len bs = s ->
  Forall (fun c => 1 <= c) bs -> Forall (fun c => 1 <= c) as_ ->
  sumZ as_ + sumZ bs = L ->
  (stacked <- Np.stack2 bs as_ ;;
   interleaved_span_lengths <- Np.reshape_flat stacked (s * 2) ;;
   let span_starts := removelast (Np.cumsum interleaved_span_lengths) in
   span_start_indicator <- Np.zeros L ;;
   span_start_indicator <- Np.set_indices span_start_indicator span_starts 1 ;;
   let span_num := Np.cumsum span_start_indicator in
   let is_noise := map (fun n => n mod 2 =? 1) span_num in
   Ok (Np.py_prefix is_noise L))
  = Ok (alternate false (interleave bs as_)).
Proof.
  intros Hs Ha Hb Pb Pa HL.
  assert (Hlen : length bs = length as_) by (unfold Np.len in *; lia).
  destruct (interleave_spec bs as_ Hlen Pb Pa) as [Pc Sc].
  destruct (alternate_interleave bs as_ false Hlen Pb Pa) as (Ml & _ & _).
  cbv zeta in Ml.
  unfold Np.stack2. rewrite Hlen, Nat.eqb_refl. cbn [bind].
  unfold Np.reshape_flat.
  replace (2 * Np.len (combine bs as_) =? s * 2) with true.
  2:{ symmetry. apply Z.eqb_eq. unfold Np.len in *.
      rewrite length_combine. lia. }
  cbn [bind]. fold (interleave bs as_).
  assert (Hne : interleave bs as_ <> []).
  { destruct bs as [|b bs]; [unfold Np.len in Hb; simpl in Hb; lia|].
    destruct as_ as [|a as_]; [discriminate Hlen|]. discriminate. }
  assert (L1 : 1 <= L).
  { destruct bs as [|b bs]; [unfold Np.len in Hb; simpl in Hb; lia|].
    inversion Pb; subst. pose proof (sumZ_pos _ Pa).
    pose proof (sumZ_pos bs ltac:(assumption)). rewrite sumZ_cons in *. lia. }
  unfold Np.zeros.
  replace (L <? 0) with false by (symmetry; apply Z.ltb_ge; lia).
  cbn [bind].
  rewrite set_indices_ok.
  2:{ unfold Np.cumsum.
      eapply Forall_impl; [|apply (starts_bounds _ Pc 0)].
      cbv beta. intros i Hi. unfold Np.len. rewrite repeat_length. lia. }
  cbn [bind]. unfold Np.cumsum.
  pose proof (scatter_blocks _ Pc Hne [] 0) as Hsc.
  change (Np.len []) with 0 in Hsc. cbn [app] in Hsc.
  replace (repeat 0 (Z.to_nat L))
    with (0 :: repeat 0 (Z.to_nat (sumZ (interleave bs as_) - 1))).
  2:{ replace (Z.to_nat L)
        with (S (Z.to_nat (sumZ (interleave bs as_) - 1))) by lia.
      reflexivity. }
  rewrite Hsc.
  fold parity.
  change (map (fun n : Z => parity n)) with (map parity).
  rewrite (parity_blocks _ Pc 0 0).
  change (parity (0 + 0)) with false.
  rewrite <- HL, <- Ml. rewrite py_prefix_all. reflexivity.
Qed.

Section Generator.

Variable L : Z.
Variables d m : Q.
Hypothesis L_ge_2 : 2 <= L.
Hypothesis m_ge_1 : (1 <= m)%Q.

Lemma clamped_noise_tokens_bounds : 1 <= clamped_noise_tokens L d <= L - 1.
Proof. clear m_ge_1. unfold clamped_noise_tokens. lia. Qed.

Lemma span_count_bounds :
  1 <= span_count (clamped_noise_tokens L d) m <= clamped_noise_tokens L d.
Proof.
  pose proof clamped_noise_tokens_bounds as Hn.
  pose proof (round_quotient_le (clamped_noise_tokens L d) m ltac:(lia) m_ge_1).
  unfold span_count. lia.
Qed.

Lemma generator_unfold (g : Np.rng) :
  NoiseMask.random_spans_noise_mask L d m g
  = let n := clamped_noise_tokens L d in
    let s := span_count n m in
    let '(noise_span_lengths, g) := NoiseMask.random_segmentation n s g in
    let '(nonnoise_span_lengths, g) :=
      NoiseMask.random_segmentation (L - n) s g in
    stacked <- Np.stack2 nonnoise_span_lengths noise_span_lengths ;;
    interleaved_span_lengths <- Np.reshape_flat stacked (s * 2) ;;
    let span_starts := removelast (Np.cumsum interleaved_span_lengths) in
    span_start_indicator <- Np.zeros L ;;
    span_start_indicator <- Np.set_indices span_start_indicator span_starts 1 ;;
    let span_num := Np.cumsum span_start_indicator in
    let is_noise := map (fun n => n mod 2 =? 1) span_num in
    Ok (Np.py_prefix is_noise L, g).
Proof.
  unfold NoiseMask.random_spans_noise_mask, Np.py_div.
  rewrite Qeq_bool_neq_0 by exact m_ge_1. reflexivity.
Qed.

(** With at least as many non-noise tokens as spans the generator returns
    the alternating layout of the two segmentations. *)
Lemma generator_layout (g : Np.rng) :
  span_count (clamped_noise_tokens L d) m <= L - clamped_noise_tokens L d ->
  exists bs as_ g',
    NoiseMask.random_spans_noise_mask L d m g
    = Ok (alternate false (interleave bs as_), g')
    /\ length bs = length as_
    /\ Forall (fun c => 1 <= c) bs /\ Forall (fun c => 1 <= c) as_
    /\ sumZ as_ = clamped_noise_tokens L d
    /\ sumZ bs = L - clamped_noise_tokens L d
    /\ Np.len as_ = span_count (clamped_noise_tokens L d) m.
Proof.
  intros Hfit. rewrite generator_unfold. cbv zeta.
  pose proof span_count_bounds as Hs.
  set (n := clamped_noise_tokens L d) in *. set (s := span_count n m) in *.
  pose proof (random_segmentation_spec n s g Hs) as Ha.
  destruct (NoiseMask.random_segmentation n s g) as [as_ g1].
  pose proof (random_segmentation_spec (L - n) s g1 ltac:(lia)) as Hb.
  destruct (NoiseMask.random_segmentation (L - n) s g1) as [bs g2].
  cbv zeta in Ha, Hb. cbn [fst] in Ha, Hb.
  destruct Ha as (Pa & Sa & La). destruct Hb as (Pb & Sb & Lb).
  exists bs, as_, g2.
  pose proof (mask_of_segments L s bs as_ ltac:(lia) La Lb Pb Pa ltac:(lia)) as M.
  split.
  - destruct (Np.stack2 bs as_) as [stacked|e]; [|discriminate M].
    cbn [bind] in *.
    destruct (Np.reshape_flat stacked (s * 2)) as [inter|e]; [|discriminate M].
    cbn [bind] in *.
    destruct (Np.zeros L) as [z|e]; [|discriminate M].
    cbn [bind] in *.
    destruct (Np.set_indices z (removelast (Np.cumsum inter)) 1) as [ind|e];
      [|discriminate M].
    cbn [bind] in *. injection M as M. rewrite M. reflexivity.
  - unfold Np.len in *. repeat split; try assumption; lia.
Qed.

(** With fewer non-noise tokens than spans the two segmentations have
    different shapes and [np.stack] refuses them. *)
Lemma generator_too_many_spans (g : Np.rng) :
  L - clamped_noise_tokens L d < span_count (clamped_noise_tokens L d) m ->
  NoiseMask.random_spans_noise_mask L d m g = Raise ValueError.
Proof.
  intros Hfit. rewrite generator_unfold. cbv zeta.
  pose proof span_count_bounds as Hs.
  pose proof clamped_noise_tokens_bounds as Hn.
  set (n := clamped_noise_tokens L d) in *. set (s := span_count n m) in *.
  pose proof (random_segmentation_spec n s g Hs) as Ha.
  destruct (NoiseMask.random_segmentation n s g) as [as_ g1].
  pose proof (random_segmentation_short (L - n) s g1 ltac:(lia)) as Hb.
  destruct (NoiseMask.random_segmentation (L - n) s g1) as [bs g2].
  cbv zeta in Ha. cbn [fst] in Ha, Hb. destruct Ha as (_ & _ & La).
  unfold Np.stack2.
  replace (length bs =? length as_)%nat with false; [reflexivity|].
  symmetry. apply Nat.eqb_neq. unfold Np.len in *. lia.
Qed.

End Generator.

(** The parameters fixed by [build_training_sample] always leave enough
    non-noise tokens. *)
Lemma default_parameters_fit (L : Z) :
  2 <= L ->
  span_count (clamped_noise_tokens L (15 # 100)) 3
  <= L - clamped_noise_tokens L (15 # 100).
Proof.
  intros HL.
  pose proof (span_count_bounds L (15 # 100) 3 HL ltac:(lra)) as Hs.
  pose proof (round_near (inject_Z L * (15 # 100))) as [Hr _].
  assert (H2 : 2 * Np.round (inject_Z L * (15 # 100)) <= L).
  { apply Z_of_Q_le. rewrite inject_Z_mult. change (inject_Z 2) with 2%Q.
    assert (2 <= inject_Z L)%Q by (change 2%Q with (inject_Z 2); unfold Qle; simpl; lia).
    revert Hr H. generalize (inject_Z (Np.round (inject_Z L * (15 # 100)))).
    generalize (inject_Z L). intros x r Hr Hx. lra. }
  unfold clamped_noise_tokens in *. lia.
Qed.



(** * Noise mask generator in binary64 *)

Lemma generator64_unfold (L : Z) (d m : F64.t) (g : Np.rng) :
  NoiseMask64.random_spans_noise_mask L d m g
  = (n <- NoiseMask64.num_noise_tokens L d ;;
     s <- NoiseMask64.num_noise_spans n m ;;
     spans_mask L n s g).
Proof. reflexivity. Qed.

(** With at least one token per span on both sides the generator lays the
    two segmentations out in alternation. *)
Lemma spans_mask_layout (L n s : Z) (g : Np.rng) :
  1 <= s <= n -> s <= L - n ->
  exists bs as_ g',
    spans_mask L n s g = Ok (alternate false (interleave bs as_), g')
    /\ length bs = length as_
    /\ Forall (fun c => 1 <= c) bs /\ Forall (fun c => 1 <= c) as_
    /\ sumZ as_ = n
    /\ sumZ bs = L - n
    /\ Np.len as_ = s.
Proof.
  intros Hs Hfit. unfold spans_mask.
  pose proof (random_segmentation_spec n s g Hs) as Ha.
  destruct (NoiseMask.random_segmentation n s g) as [as_ g1].
  pose proof (random_segmentation_spec (L - n) s g1 ltac:(lia)) as Hb.
  destruct (NoiseMask.random_segmentation (L - n) s g1) as [bs g2].
  cbv zeta in Ha, Hb. cbn [fst] in Ha, Hb.
  destruct Ha as (Pa & Sa & La). destruct Hb as (Pb & Sb & Lb).
  exists bs, as_, g2.
  pose proof (mask_of_segments L s bs as_ ltac:(lia) La Lb Pb Pa ltac:(lia)) as M.
  split.
  - destruct (Np.stack2 bs as_) as [stacked|e]; [|discriminate M].
    cbn [bind] in *.
    destruct (Np.reshape_flat stacked (s * 2)) as [inter|e]; [|discriminate M].
    cbn [bind] in *.
    destruct (Np.zeros L) as [z|e]; [|discriminate M].
    cbn [bind] in *.
    destruct (Np.set_indices z (removelast (Np.cumsum inter)) 1) as [ind|e];
      [|discriminate M].
    cbn [bind] in *. injection M as M. rewrite M. reflexivity.
  - unfold Np.len in *. repeat split; try assumption; lia.
Qed.

(** With fewer non-noise tokens than spans the two segmentations have
    different shapes and [np.stack] refuses them. *)
Lemma spans_mask_too_many (L n s : Z) (g : Np.rng) :
  1 <= s <= n -> 1 <= L - n < s ->
  spans_mask L n s g = Raise ValueError.
Proof.
  intros Hs Hfit. unfold spans_mask.
  pose proof (random_segmentation_spec n s g Hs) as Ha.
  destruct (NoiseMask.random_segmentation n s g) as [as_ g1].
  pose proof (random_segmentation_short (L - n) s g1 ltac:(lia)) as Hb.
  destruct (NoiseMask.random_segmentation (L - n) s g1) as [bs g2].
  cbv zeta in Ha. cbn [fst] in Ha, Hb. destruct Ha as (_ & _ & La).
  unfold Np.stack2.
  replace (length bs =? length as_)%nat with false; [reflexivity|].
  symmetry. apply Nat.eqb_neq. unfold Np.len in *. lia.
Qed.

Lemma random_segmentation_single (num_items num_segments : Z) (g : Np.rng) :
  num_items <= 1 ->
  NoiseMask.random_segmentation num_items num_segments g = ([1], g).
Proof.
  intros H. unfold NoiseMask.random_segmentation, Np.arange.
  replace (Z.to_nat (num_items - 1)) with O by lia. reflexivity.
Qed.

(** Below length 2 the clamped noise count is [L - 1 <= 0]: both
    segmentations are [[1]] and the span start 1 is out of bounds, or the
    length is negative and [np.zeros] refuses it. *)
Lemma spans_mask_short (L : Z) (g : Np.rng) :
  L <= 1 ->
  spans_mask L (L - 1) 1 g = Raise (if L <? 0 then ValueError else IndexError).
Proof.
  intros HL. unfold spans_mask.
  rewrite random_segmentation_single by lia.
  replace (L - (L - 1)) with 1 by lia.
  rewrite random_segmentation_single by lia.
  cbn [Np.stack2 length Nat.eqb combine bind].
  unfold Np.reshape_flat. cbn [Np.len length combine Z.of_nat].
  change (2 * Z.pos (Pos.of_succ_nat 0) =? 1 * 2) with true.
  cbn [bind flat_map fst snd app Np.cumsum Np.cumsum_from].
  unfold Np.zeros. destruct (L <? 0) eqn:E; [reflexivity|].
  apply Z.ltb_ge in E. cbn [bind].
  rewrite set_indices_out_of_bounds; [reflexivity|].
  change (removelast [0 + 1; 0 + 1 + 1]) with [1].
  constructor. unfold Np.len. rewrite repeat_length. lia.
Qed.

Lemma num_noise_tokens_clamped (L n : Z) (d : F64.t) :
  NoiseMask64.num_noise_tokens L d = Ok n ->
  (2 <= L -> 1 <= n <= L - 1) /\ (L <= 1 -> n = L - 1).
Proof.
  unfold NoiseMask64.num_noise_tokens. intros H.
  destruct (F64.of_Z L) as [l|e]; [|discriminate H]. cbn [bind] in H.
  destruct (F64.py_round (F64.mul l d)) as [r|e]; [|discriminate H].
  cbn [bind] in H. injection H as <-. lia.
Qed.

Lemma num_noise_spans_clamped (n s : Z) (m : F64.t) :
  NoiseMask64.num_noise_spans n m = Ok s -> 1 <= s.
Proof.
  unfold NoiseMask64.num_noise_spans. intros H.
  destruct (F64.of_Z n) as [l|e]; [|discriminate H]. cbn [bind] in H.
  destruct (F64.div l m) as [q|e]; [|discriminate H]. cbn [bind] in H.
  destruct (F64.py_round q) as [r|e]; [|discriminate H].
  cbn [bind] in H. injection H as <-. lia.
Qed.

(** C1 (as stated, refuted): for L = 1 with the default density and span
    length, and for L = 4, d = 0.75, m = 1, the generator returns no mask at
    all, whatever the random draws: it raises. *)
Lemma C1_generator_raises :
  (forall g, NoiseMask64.random_spans_noise_mask 1 (F64.of_Q (15 # 100))
               (F64.of_Q 3) g = Raise IndexError)
  /\ (forall g, NoiseMask64.random_spans_noise_mask 4 (F64.of_Q (3 # 4))
                  (F64.of_Q 1) g = Raise ValueError).
Proof.
  split; intros g; rewrite generator64_unfold.
  - replace (NoiseMask64.num_noise_tokens 1 (F64.of_Q (15 # 100))) with (Ok (A := Z) 0)
      by (vm_compute; reflexivity).
    cbn [bind].
    replace (NoiseMask64.num_noise_spans 0 (F64.of_Q 3)) with (Ok (A := Z) 1)
      by (vm_compute; reflexivity).
    cbn [bind]. apply (spans_mask_short 1). lia.
  - replace (NoiseMask64.num_noise_tokens 4 (F64.of_Q (3 # 4))) with (Ok (A := Z) 3)
      by (vm_compute; reflexivity).
    cbn [bind].
    replace (NoiseMask64.num_noise_spans 3 (F64.of_Q 1)) with (Ok (A := Z) 3)
      by (vm_compute; reflexivity).
    cbn [bind]. apply spans_mask_too_many; lia.
Qed.

(** C1 (amended): for every length L >= 2, density d and mean span length m
    for which the generator computes, in binary64, a clamped noise count
    n = min(max(round(L*d), 1), L-1) and a span count s = max(round(n/m), 1)
    with s <= n and s <= L - n, the generator returns, for every state of
    the random source, a mask of length L whose number of true positions is
    n, hence between 1 and L-1, and whose true positions form exactly
    s = max(1, round(count(true)/m)) maximal runs. *)
Theorem C1_noise_mask (L : Z) (d m : F64.t) (n s : Z) (g : Np.rng) :
  2 <= L ->
  NoiseMask64.num_noise_tokens L d = Ok n ->
  NoiseMask64.num_noise_spans n m = Ok s ->
  s <= n -> s <= L - n ->
  exists mask g',
    NoiseMask64.random_spans_noise_mask L d m g = Ok (mask, g')
    /\ Np.len mask = L
    /\ Mask.count true mask = n
    /\ 1 <= Mask.count true mask <= L - 1
    /\ Mask.runs mask = s
    /\ NoiseMask64.num_noise_spans (Mask.count true mask) m = Ok (Mask.runs mask).
Proof.
  intros HL En Es Hsn Hfit.
  destruct (num_noise_tokens_clamped L n d En) as [Hn _]. specialize (Hn HL).
  pose proof (num_noise_spans_clamped n s m Es) as Hs.
  destruct (spans_mask_layout L n s g ltac:(lia) Hfit)
    as (bs & as_ & g' & E & Hlen & Pb & Pa & Sa & Sb & La).
  destruct (alternate_interleave bs as_ false Hlen Pb Pa) as (M1 & M2 & M3).
  cbv zeta in *.
  exists (alternate false (interleave bs as_)), g'.
  assert (Hc : Mask.count true (alternate false (interleave bs as_)) = n) by lia.
  assert (Hr : Mask.runs (alternate false (interleave bs as_)) = s).
  { unfold Mask.runs.
    fold (runs_from false (alternate false (interleave bs as_))).
    rewrite M3. exact La. }
  split; [rewrite generator64_unfold, En; cbn [bind]; rewrite Es; exact E|].
  split; [lia|]. split; [exact Hc|]. split; [lia|]. split; [exact Hr|].
  rewrite Hc, Hr. exact Es.
Qed.

Lemma C1_noise_mask_witness :
  exists mask g',
    NoiseMask64.random_spans_noise_mask 45 (F64.of_Q (7 # 10)) (F64.of_Q 3)
      [3; 1; 4; 1; 5; 9; 2; 6]%nat
    = Ok (mask, g')
    /\ Np.len mask = 45
    /\ Mask.count true mask = 31
    /\ 1 <= Mask.count true mask <= 45 - 1
    /\ Mask.runs mask = 10
    /\ NoiseMask64.num_noise_spans (Mask.count true mask) (F64.of_Q 3)
       = Ok (Mask.runs mask).
Proof.
  apply (C1_noise_mask 45 (F64.of_Q (7 # 10)) (F64.of_Q 3) 31 10
           [3; 1; 4; 1; 5; 9; 2; 6]%nat).
  - lia.
  - vm_compute. reflexivity.
  - vm_compute. reflexivity.
  - lia.
  - lia.
Defined.

(** ** Dataset facade *)

Lemma build_training_sample_unfold (sample : list (list Z)) (L : Z)
    (vocab_id_list : list Z) (cls_id sep_id mask_id pad_id bos_id eos_id : Z)
    (sentinel_tokens : list Z) (g : Np.rng) :
  Sentinel.build_training_sample sample L vocab_id_list cls_id sep_id mask_id
    pad_id bos_id eos_id sentinel_tokens g
  = ('(mask_indices, g') <- NoiseMask.random_spans_noise_mask L (15 # 100) 3 g ;;
     ts <- assemble (concat sample) vocab_id_list eos_id mask_indices ;;
     Ok (ts, g')).
Proof.
  unfold Sentinel.build_training_sample, assemble.
  destruct (NoiseMask.random_spans_noise_mask L (15 # 100) 3 g) as [[mask g']|e];
    [|reflexivity].
  cbn [bind].
  destruct (Sentinel.create_sentinel_ids _ _) as [s1|e]; [|reflexivity].
  cbn [bind].
  destruct (Sentinel.create_sentinel_ids _ _) as [s2|e]; [|reflexivity].
  cbn [bind].
  destruct (Sentinel.filter_input_ids _ s1 _) as [i1|e]; [|reflexivity].
  cbn [bind].
  destruct (Sentinel.filter_input_ids _ s2 _) as [i2|e]; reflexivity.
Qed.

Lemma getitem_unfold (self : Dataset.NonCausalMLMDataset) (idx : Z) (g : Np.rng) :
  Dataset.getitem self idx g
  = (indices <- Np.py_index (Dataset.samples_mapping self) idx ;;
     '(mask_indices, g') <-
        NoiseMask.random_spans_noise_mask (Dataset.expanded_inputs_length self)
          (15 # 100) 3 g ;;
     ts <- assemble (concat (gather (Dataset.the_indexed_dataset self) indices))
             (Dataset.vocab_id_list self) (Dataset.eos_id self) mask_indices ;;
     Ok (ts, g')).
Proof.
  unfold Dataset.getitem.
  destruct (Np.py_index (Dataset.samples_mapping self) idx) as [indices|e];
    [|reflexivity].
  cbn [bind]. apply build_training_sample_unfold.
Qed.

Lemma init_inv (fuel : nat) (cache : option (list Packer.sample))
    (tok : Dataset.tokenizer) (ids : Dataset.indexed_dataset)
    (p : Q) (max_seq_length seed : Z) (ds : Dataset.NonCausalMLMDataset) :
  Dataset.init fuel cache tok ids p max_seq_length seed = Some (Ok ds) ->
  exists T tl m,
    Planner.compute_input_and_target_lengths fuel max_seq_length p 3
      = Some (Ok (T, tl))
    /\ Packer.get_samples_mapping cache (Dataset.doc_idx ids) (Dataset.sizes ids) T
       = Ok m
    /\ ds = dataset_of tok ids seed p max_seq_length T tl m.
Proof.
  unfold Dataset.init. intros H.
  change (inject_Z 3) with 3%Q in H.
  destruct (Planner.compute_input_and_target_lengths fuel max_seq_length p 3)
    as [[[T tl]|e]|] eqn:EP; try discriminate H.
  cbn [bind] in H.
  destruct (Packer.get_samples_mapping cache (Dataset.doc_idx ids)
              (Dataset.sizes ids) T) as [m|e] eqn:EM; try discriminate H.
  cbn [bind] in H.
  destruct (Np.len (Dataset.additional_special_tokens_ids tok) >? 0);
    try discriminate H.
  injection H as <-. exists T, tl, m.
  split; [reflexivity|]. split; [exact EM|reflexivity].
Qed.

(** C10: two datasets built from the same arguments except [masked_lm_prob]
    differ at most in that field, in the two planned lengths T, tl and in
    the index m loaded for the raw length. At every item access of either
    the noise mask is drawn by the generator at the dataset's raw length
    with density 0.15 and mean span length 3, whatever [masked_lm_prob] was.
    When the raw lengths agree the two datasets hold the same index and
    every item access returns, for the same state of the random source, the
    same mask, the same sample and the same next state. *)
Theorem C10_masking_ignores_masked_lm_prob (fuel : nat)
    (cache : option (list Packer.sample)) (tok : Dataset.tokenizer)
    (ids : Dataset.indexed_dataset) (p1 p2 : Q) (max_seq_length seed : Z)
    (ds1 ds2 : Dataset.NonCausalMLMDataset) :
  Dataset.init fuel cache tok ids p1 max_seq_length seed = Some (Ok ds1) ->
  Dataset.init fuel cache tok ids p2 max_seq_length seed = Some (Ok ds2) ->
  exists T1 tl1 m1 T2 tl2 m2,
    ds1 = dataset_of tok ids seed p1 max_seq_length T1 tl1 m1
    /\ ds2 = dataset_of tok ids seed p2 max_seq_length T2 tl2 m2
    /\ (forall idx g, Dataset.getitem ds1 idx g = item_access tok ids m1 T1 idx g)
    /\ (forall idx g, Dataset.getitem ds2 idx g = item_access tok ids m2 T2 idx g)
    /\ (T1 = T2 ->
        m1 = m2
        /\ forall idx g, Dataset.getitem ds1 idx g = Dataset.getitem ds2 idx g).
Proof.
  intros H1 H2.
  destruct (init_inv _ _ _ _ _ _ _ _ H1) as (T1 & tl1 & m1 & _ & M1 & E1).
  destruct (init_inv _ _ _ _ _ _ _ _ H2) as (T2 & tl2 & m2 & _ & M2 & E2).
  exists T1, tl1, m1, T2, tl2, m2.
  split; [exact E1|]. split; [exact E2|].
  split; [intros idx g; rewrite getitem_unfold, E1; reflexivity|].
  split; [intros idx g; rewrite getitem_unfold, E2; reflexivity|].
  intros HT. subst T2.
  assert (Hm : m1 = m2) by congruence.
  split; [exact Hm|]. intros idx g. subst. reflexivity.
Qed.

Lemma C10_masking_ignores_masked_lm_prob_witness :
  exists T1 tl1 m1 T2 tl2 m2,
    example_dataset (15 # 100)
      = dataset_of example_tokenizer example_corpus 1234 (15 # 100) 4 T1 tl1 m1
    /\ example_dataset (30 # 100)
      = dataset_of example_tokenizer example_corpus 1234 (30 # 100) 4 T2 tl2 m2
    /\ (forall idx g,
          Dataset.getitem (example_dataset (15 # 100)) idx g
          = item_access example_tokenizer example_corpus m1 T1 idx g)
    /\ (forall idx g,
          Dataset.getitem (example_dataset (30 # 100)) idx g
          = item_access example_tokenizer example_corpus m2 T2 idx g)
    /\ (T1 = T2 ->
        m1 = m2
        /\ forall idx g,
             Dataset.getitem (example_dataset (15 # 100)) idx g
             = Dataset.getitem (example_dataset (30 # 100)) idx g).
Proof.
  apply (C10_masking_ignores_masked_lm_prob 100 None example_tokenizer
           example_corpus (15 # 100) (30 # 100) 4 1234
           (example_dataset (15 # 100)) (example_dataset (30 # 100)));
    vm_compute; reflexivity.
Defined.

(** For a raw length L >= 2, L token ids that are not negative and a
    vocabulary at least as large as the span count, [build_training_sample]
    returns a sample whose input part and target part have the lengths that
    the planner simulates for the clamped noise count. *)
Lemma build_training_sample_lengths (sample : list (list Z)) (L : Z)
    (vocab_id_list : list Z) (cls_id sep_id mask_id pad_id bos_id eos_id : Z)
    (sentinel_tokens : list Z) (g : Np.rng) :
  let n := clamped_noise_tokens L (15 # 100) in
  let s := span_count n 3 in
  2 <= L ->
  Np.len (concat sample) = L ->
  Forall (fun t => 0 <= t) (concat sample) ->
  s <= Np.len vocab_id_list ->
  exists ts g',
    Sentinel.build_training_sample sample L vocab_id_list cls_id sep_id mask_id
      pad_id bos_id eos_id sentinel_tokens g = Ok (ts, g')
    /\ Sentinel.prefix_len ts = (L - n) + s + 1
    /\ Np.len (Sentinel.text ts) = Sentinel.prefix_len ts + (n + s + 1).
Proof.
  intros n s HL Hlen Htok Hv.
  destruct (generator_layout L (15 # 100) 3 HL ltac:(lra) g
              (default_parameters_fit L HL))
    as (bs & as_ & g' & E & Hl & Pb & Pa & Sa & Sb & La).
  fold n in Sa, Sb, La. fold s in La.
  set (mask := alternate false (interleave bs as_)) in *.
  destruct (alternate_interleave bs as_ false Hl Pb Pa) as (M1 & M2 & M3).
  cbv zeta in M1, M2, M3. fold mask in M1, M2, M3.
  pose proof (alternate_interleave_negb bs as_ Hl Pb Pa) as M4. fold mask in M4.
  assert (Lb : Np.len bs = s) by (unfold Np.len in *; lia).
  assert (Hne : mask <> []).
  { intros N. rewrite N in M1. unfold Np.len in M1. simpl in M1. lia. }
  assert (Hlt : length (concat sample) = length mask)
    by (unfold Np.len in *; lia).
  destruct (filter_input_ids_length (Np.len vocab_id_list) eos_id mask
              (concat sample) Hne Hlt Htok)
    as (s1 & i1 & E1 & E3 & L1).
  { unfold Mask.runs. fold (runs_from false mask). lia. }
  assert (Hne' : map negb mask <> [])
    by (destruct mask; [congruence|discriminate]).
  assert (Hlt' : length (concat sample) = length (map negb mask))
    by (rewrite length_map; exact Hlt).
  destruct (filter_input_ids_length (Np.len vocab_id_list) eos_id
              (map negb mask) (concat sample) Hne' Hlt' Htok)
    as (s2 & i2 & E2 & E4 & L2).
  { unfold Mask.runs. fold (runs_from false (map negb mask)). lia. }
  rewrite build_training_sample_unfold, E. cbn [bind].
  unfold assemble. rewrite E1. cbn [bind]. rewrite E2. cbn [bind].
  rewrite E3. cbn [bind]. rewrite E4. cbn [bind].
  eexists. eexists. split; [reflexivity|].
  cbn [Sentinel.prefix_len Sentinel.text].
  unfold Mask.runs in L1, L2.
  fold (runs_from false mask) in L1. fold (runs_from false (map negb mask)) in L2.
  pose proof (count_true_false mask) as Hc. rewrite count_negb in L2.
  cbn [negb] in L2.
  split.
  - rewrite L1. lia.
  - unfold Np.len at 1. rewrite length_app, Nat2Z.inj_add.
    fold (Np.len i1). fold (Np.len i2). rewrite L2. lia.
Qed.

(** * Further properties *)

(** ** Document packer *)

(** *** The loop body, case by case *)

Lemma step_short_remainder (max_len : Z) (st : Packer.build_state)
    (doc_idx sample_len : Z) :
  remainder max_len st sample_len < max_len ->
  Packer.step max_len st (doc_idx, sample_len)
  = Ok (step_result max_len st doc_idx sample_len).
Proof.
  unfold remainder, step_result, Packer.step.
  destruct (Packer.current_len st + sample_len >? max_len); intros H.
  - rewrite breakdown_short by exact H. cbn [bind fold_left Packer.place].
    match goal with |- context [?a =? max_len] =>
      replace (a =? max_len) with false by (symmetry; apply Z.eqb_neq; lia) end.
    cbn [Packer.samples_mapping Packer.sample_indices Packer.current_len app].
    rewrite Z.sub_0_r, !Z.add_0_l, Z.sub_add. reflexivity.
  - rewrite breakdown_short by exact H. cbn [bind fold_left Packer.place].
    match goal with |- context [?a =? max_len] =>
      replace (a =? max_len) with false by (symmetry; apply Z.eqb_neq; lia) end.
    rewrite Z.sub_0_r, !Z.add_0_r. reflexivity.
Qed.

Lemma step_cases (max_len : Z) (st : Packer.build_state) (doc_idx sample_len : Z) :
  (remainder max_len st sample_len < max_len
   /\ Packer.step max_len st (doc_idx, sample_len)
      = Ok (step_result max_len st doc_idx sample_len))
  \/ (max_len <= remainder max_len st sample_len
      /\ Packer.step max_len st (doc_idx, sample_len) = Raise TypeError).
Proof.
  destruct (Z_lt_le_dec (remainder max_len st sample_len) max_len) as [L|G].
  - left. split; [exact L | apply step_short_remainder, L].
  - right. split; [exact G | apply step_long_remainder_raises, G].
Qed.

(** *** Outcomes of [breakdown] *)

(** X1: Called as the build calls it, with the offset and the list left to
    their defaults and a window [max_len], [breakdown] has two outcomes.
    For [sample_len < max_len] it returns the single pair
    [(0, sample_len)], having appended [sample_len] to its list. For
    [sample_len >= max_len] it calls itself without [max_len], the callee
    compares [sample_len - max_len] with [None] and [TypeError] is raised.
    It never uses more than two frames, so this holds whenever two frames
    are left below the recursion limit. *)
Theorem breakdown_outcome (depth : nat) (sample_len max_len : Z) :
  (2 <= depth)%nat ->
  Packer.breakdown depth sample_len None None (Some max_len)
  = if sample_len <? max_len
    then Ok ([sample_len], [(0, sample_len)])
    else Raise TypeError.
Proof.
  intros H.
  destruct depth as [|[|depth]]; [lia | lia |].
  cbn [Packer.breakdown Packer.py_lt bind].
  destruct (sample_len <? max_len); reflexivity.
Qed.

Lemma breakdown_outcome_witness :
  Packer.breakdown Packer.recursion_limit 8 None None (Some 4)
  = (if 8 <? 4 then Ok ([8], [(0, 8)]) else Raise TypeError)
  /\ Packer.breakdown Packer.recursion_limit 3 None None (Some 4)
     = (if 3 <? 4 then Ok ([3], [(0, 3)]) else Raise TypeError).
Proof.
  split.
  - apply (breakdown_outcome Packer.recursion_limit 8 4).
    unfold Packer.recursion_limit. lia.
  - apply (breakdown_outcome Packer.recursion_limit 3 4).
    unfold Packer.recursion_limit. lia.
Defined.

(** *** Invariants of a build that returns *)

Lemma step_result_current_len (max_len : Z) (st : Packer.build_state)
    (doc_idx sample_len : Z) :
  0 <= Packer.current_len st <= max_len -> 0 <= sample_len ->
  remainder max_len st sample_len < max_len ->
  0 <= Packer.current_len (step_result max_len st doc_idx sample_len) <= max_len.
Proof.
  unfold remainder, step_result. intros Hc Hs Hr.
  destruct (Packer.current_len st + sample_len >? max_len) eqn:E;
    cbn [Packer.current_len].
  - apply Z.gtb_lt in E. lia.
  - rewrite Z.gtb_ltb in E. apply Z.ltb_ge in E. lia.
Qed.

Lemma build_loop_long_document (max_len : Z) (docs : list (Z * Z)) :
  Forall (fun d => 0 <= snd d) docs ->
  Exists (fun d => 2 * max_len <= snd d) docs ->
  forall st, 0 <= Packer.current_len st <= max_len ->
  Packer.build_loop max_len st docs = Raise TypeError.
Proof.
  induction 1 as [|[doc_idx sample_len] docs Hd Hds IH]; intros Hex st Hc.
  - inversion Hex.
  - cbn [snd] in Hd. cbn [Packer.build_loop].
    destruct (step_cases max_len st doc_idx sample_len) as [[L E]|[_ E]];
      rewrite E; cbn [bind]; [|reflexivity].
    inversion Hex as [? ? Hlong|? ? Hlater]; subst.
    + exfalso. cbn [snd] in Hlong. unfold remainder in L.
      destruct (Packer.current_len st + sample_len >? max_len) eqn:G.
      * lia.
      * rewrite Z.gtb_ltb in G. apply Z.ltb_ge in G. lia.
    + apply IH; [exact Hlater|].
      apply step_result_current_len; assumption.
Qed.

(** X2: A corpus holding a document at least twice as long as the window cannot
    be indexed: the build raises [TypeError]. *)
Theorem build_long_document_raises (doc_idx sizes : list Z) (max_len : Z) :
  0 <= max_len ->
  Forall (fun d => 0 <= snd d) (combine doc_idx sizes) ->
  Exists (fun d => 2 * max_len <= snd d) (combine doc_idx sizes) ->
  Packer.get_samples_mapping None doc_idx sizes max_len = Raise TypeError.
Proof.
  intros Hm Hs Hex. unfold Packer.get_samples_mapping, Packer.build.
  rewrite (build_loop_long_document max_len _ Hs Hex); [reflexivity|].
  simpl. lia.
Qed.

Lemma build_long_document_raises_witness :
  Packer.get_samples_mapping None [0; 1; 2; 3] [3; 9; 2] 4 = Raise TypeError.
Proof.
  apply (build_long_document_raises [0; 1; 2; 3] [3; 9; 2] 4).
  - lia.
  - repeat constructor; simpl; lia.
  - apply Exists_cons_tl, Exists_cons_hd. simpl. lia.
Defined.

Lemma all_spans_step (max_len : Z) (st : Packer.build_state)
    (doc_idx sample_len : Z) :
  all_spans (step_result max_len st doc_idx sample_len)
  = all_spans st
    ++ (if Packer.current_len st + sample_len >? max_len
        then [(doc_idx, 0, max_len - Packer.current_len st);
              (doc_idx, max_len - Packer.current_len st, sample_len)]
        else [(doc_idx, 0, sample_len)]).
Proof.
  unfold all_spans, step_result.
  destruct (Packer.current_len st + sample_len >? max_len);
    cbn [Packer.samples_mapping Packer.sample_indices].
  - rewrite concat_app. cbn [concat]. rewrite app_nil_r, <- !app_assoc.
    reflexivity.
  - rewrite app_assoc. reflexivity.
Qed.

Lemma total_size_app (a b : list (Z * Z)) :
  total_size (a ++ b) = total_size a + total_size b.
Proof.
  unfold total_size. induction a as [|x a IH]; cbn [app fold_right]; lia.
Qed.

Lemma span_in_weaken (done more : list (Z * Z)) (sp : Packer.span) :
  span_in done sp -> span_in (done ++ more) sp.
Proof.
  destruct sp as [[doc s] e]. intros [H (size & Hin & Hle)].
  split; [exact H|]. exists size. split; [apply in_or_app; left; exact Hin|exact Hle].
Qed.

Lemma accounted_step (max_len : Z) (done : list (Z * Z))
    (st : Packer.build_state) (doc_idx sample_len : Z) :
  0 <= sample_len ->
  remainder max_len st sample_len < max_len ->
  accounted max_len done st ->
  accounted max_len (done ++ [(doc_idx, sample_len)])
    (step_result max_len st doc_idx sample_len).
Proof.
  intros Hs Hr (Hc & Hn & Hsp).
  split; [apply step_result_current_len; assumption|]. split.
  - rewrite total_size_app. unfold total_size at 2. cbn [fold_right snd].
    unfold step_result.
    destruct (Packer.current_len st + sample_len >? max_len);
      cbn [Packer.samples_mapping Packer.current_len].
    + unfold Np.len in *. rewrite length_app. cbn [length].
      rewrite Nat2Z.inj_add. cbn [Z.of_nat]. nia.
    + lia.
  - rewrite all_spans_step. apply Forall_app. split.
    + eapply Forall_impl; [|exact Hsp]. intros sp. apply span_in_weaken.
    + assert (Hin : In (doc_idx, sample_len) (done ++ [(doc_idx, sample_len)]))
        by (apply in_or_app; right; left; reflexivity).
      destruct (Packer.current_len st + sample_len >? max_len) eqn:E.
      * apply Z.gtb_lt in E.
        repeat constructor; try lia; exists sample_len; (split; [exact Hin|lia]).
      * repeat constructor; try lia. exists sample_len. split; [exact Hin|lia].
Qed.

Lemma accounted_build_loop (max_len : Z) (docs : list (Z * Z)) :
  Forall (fun d => 0 <= snd d) docs ->
  forall done st st',
  accounted max_len done st ->
  Packer.build_loop max_len st docs = Ok st' ->
  accounted max_len (done ++ docs) st'.
Proof.
  induction 1 as [|[doc_idx sample_len] docs Hd _ IH]; intros done st st' Ha H.
  - injection H as <-. rewrite app_nil_r. exact Ha.
  - cbn [snd] in Hd. cbn [Packer.build_loop] in H.
    destruct (step_cases max_len st doc_idx sample_len) as [[L E]|[_ E]];
      rewrite E in H; cbn [bind] in H; [|discriminate H].
    replace (done ++ (doc_idx, sample_len) :: docs)
      with ((done ++ [(doc_idx, sample_len)]) ++ docs)
      by (rewrite <- app_assoc; reflexivity).
    eapply IH; [|exact H]. apply accounted_step; assumption.
Qed.

(** X3: In a build that returns, the accumulator never overflows the window,
    the emitted samples and the accumulator account for every token of the
    corpus, so that at most one window of tokens is left out of the index,
    and every span lies inside a document of its id. *)
Theorem build_accounts_for_corpus (doc_idx sizes : list Z) (max_len : Z)
    (st : Packer.build_state) :
  0 <= max_len ->
  Forall (fun s => 0 <= s) sizes ->
  Packer.build doc_idx sizes max_len = Ok st ->
  0 <= Packer.current_len st <= max_len
  /\ Np.len (Packer.samples_mapping st) * max_len + Packer.current_len st
     = total_size (combine doc_idx sizes)
  /\ Forall (span_in (combine doc_idx sizes)) (all_spans st).
Proof.
  intros Hm Hs H.
  apply (accounted_build_loop max_len (combine doc_idx sizes)) with (done := [])
    (st := Packer.build_init); [| |exact H].
  - clear H. revert doc_idx.
    induction Hs as [|s sizes Hs0 _ IH]; intros [|d doc_idx];
      try constructor; [exact Hs0 | apply IH].
  - split; [simpl; lia|]. split; [reflexivity | constructor].
Qed.

Lemma build_accounts_for_corpus_witness :
  0 <= 4 <= 4
  /\ Np.len [[(0, 0, 4)]; [(0, 4, 5); (1, 0, 3)]] * 4 + 4
     = total_size (combine [0; 1; 2; 3] [5; 5; 2])
  /\ Forall (span_in (combine [0; 1; 2; 3] [5; 5; 2]))
       (all_spans (Packer.mk_build_state
                     [[(0, 0, 4)]; [(0, 4, 5); (1, 0, 3)]]
                     [(1, 3, 5); (2, 0, 2)] 4)).
Proof.
  apply (build_accounts_for_corpus [0; 1; 2; 3] [5; 5; 2] 4
           (Packer.mk_build_state
              [[(0, 0, 4)]; [(0, 4, 5); (1, 0, 3)]]
              [(1, 3, 5); (2, 0, 2)] 4)).
  - lia.
  - repeat constructor; lia.
  - vm_compute. reflexivity.
Defined.

(** *** The index loses no token *)

Lemma py_slice_inside (A : Type) (l : list A) (s e : Z) :
  0 <= s <= e -> e <= Np.len l ->
  Np.py_slice l s e = firstn (Z.to_nat (e - s)) (skipn (Z.to_nat s) l).
Proof.
  intros H1 H2. unfold Np.py_slice.
  replace (s <? 0) with false by (symmetry; apply Z.ltb_ge; lia).
  replace (e <? 0) with false by (symmetry; apply Z.ltb_ge; lia).
  rewrite !Z.min_l by lia. reflexivity.
Qed.

Lemma py_slice_length (A : Type) (l : list A) (s e : Z) :
  0 <= s <= e -> e <= Np.len l -> Np.len (Np.py_slice l s e) = e - s.
Proof.
  intros H1 H2. rewrite py_slice_inside by assumption.
  unfold Np.len in *. rewrite length_firstn, length_skipn. lia.
Qed.

Lemma py_slice_split (A : Type) (l : list A) (e : Z) :
  0 <= e <= Np.len l ->
  Np.py_slice l 0 e ++ Np.py_slice l e (Np.len l) = l.
Proof.
  intros H. rewrite !py_slice_inside by lia.
  rewrite Z.sub_0_r. change (Z.to_nat 0) with O. cbn [skipn].
  rewrite (firstn_all2 (skipn (Z.to_nat e) l))
    by (rewrite length_skipn; unfold Np.len; lia).
  apply firstn_skipn.
Qed.

Lemma py_slice_whole (A : Type) (l : list A) : Np.py_slice l 0 (Np.len l) = l.
Proof.
  rewrite py_slice_inside by (unfold Np.len; lia).
  rewrite Z.sub_0_r. cbn [Z.to_nat skipn]. unfold Np.len.
  rewrite Nat2Z.id. apply firstn_all.
Qed.

Lemma gather_app (ids : Dataset.indexed_dataset) (a b : Packer.sample) :
  gather ids (a ++ b) = gather ids a ++ gather ids b.
Proof. apply map_app. Qed.

Lemma lossless_build_loop (ids : Dataset.indexed_dataset) (max_len : Z)
    (docs : list (Z * Z)) :
  Forall (fun d => Np.len (Dataset.get ids (fst d)) = snd d) docs ->
  forall st st',
  0 <= Packer.current_len st <= max_len ->
  Packer.build_loop max_len st docs = Ok st' ->
  concat (gather ids (all_spans st'))
  = concat (gather ids (all_spans st))
    ++ concat (map (fun d => Dataset.get ids (fst d)) docs).
Proof.
  induction 1 as [|[doc_idx sample_len] docs Hd _ IH]; intros st st' Hc H.
  - injection H as <-. cbn [map concat]. rewrite app_nil_r. reflexivity.
  - cbn [fst snd] in Hd. cbn [Packer.build_loop] in H.
    assert (Hs : 0 <= sample_len) by (unfold Np.len in Hd; lia).
    destruct (step_cases max_len st doc_idx sample_len) as [[L E]|[_ E]];
      rewrite E in H; cbn [bind] in H; [|discriminate H].
    rewrite (IH _ _ (step_result_current_len max_len st doc_idx sample_len
                       Hc Hs L) H).
    rewrite all_spans_step, gather_app, concat_app, <- app_assoc. f_equal.
    cbn [map concat fst]. f_equal.
    destruct (Packer.current_len st + sample_len >? max_len) eqn:G;
      cbn [gather map concat]; rewrite app_nil_r.
    + apply Z.gtb_lt in G. rewrite <- Hd. apply py_slice_split. lia.
    + rewrite <- Hd. apply py_slice_whole.
Qed.

(** X4: Reading the spans of a built index in order, followed by those of the
    open accumulator, gives back the tokens of the corpus, document after
    document: packing loses and duplicates no token before the tail. *)
Theorem build_is_lossless (ids : Dataset.indexed_dataset) (max_len : Z)
    (st : Packer.build_state) :
  0 <= max_len ->
  Forall (fun d => Np.len (Dataset.get ids (fst d)) = snd d)
    (combine (Dataset.doc_idx ids) (Dataset.sizes ids)) ->
  Packer.build (Dataset.doc_idx ids) (Dataset.sizes ids) max_len = Ok st ->
  concat (gather ids (all_spans st))
  = concat (map (fun d => Dataset.get ids (fst d))
              (combine (Dataset.doc_idx ids) (Dataset.sizes ids))).
Proof.
  intros Hm Hd H.
  rewrite (lossless_build_loop ids max_len _ Hd Packer.build_init st); [reflexivity| |exact H].
  simpl. lia.
Qed.

Lemma build_is_lossless_witness :
  concat (gather example_corpus
            (all_spans (Packer.mk_build_state
                          [[(0, 0, 4)]; [(0, 4, 5); (1, 0, 3)]]
                          [(1, 3, 5); (2, 0, 2)] 4)))
  = concat (map (fun d => Dataset.get example_corpus (fst d))
              (combine (Dataset.doc_idx example_corpus)
                 (Dataset.sizes example_corpus))).
Proof.
  apply (build_is_lossless example_corpus 4).
  - lia.
  - repeat constructor.
  - vm_compute. reflexivity.
Defined.

(** ** Noise mask generator *)

(** *** [_random_segmentation] inside and outside its documented domain *)

Lemma positive_sum_len (cs : list Z) :
  Forall (fun c => 1 <= c) cs -> sumZ cs = Np.len cs ->
  Forall (fun c => c = 1) cs.
Proof.
  unfold Np.len. induction 1 as [|c cs Hc Hcs IH]; intros Hs; [constructor|].
  rewrite sumZ_cons in Hs. cbn [length] in Hs. rewrite Nat2Z.inj_succ in Hs.
  assert (Hge : Np.len cs <= sumZ cs).
  { clear -Hcs. unfold Np.len. induction Hcs as [|x l Hx _ IH]; [simpl; lia|].
    rewrite sumZ_cons. cbn [length]. rewrite Nat2Z.inj_succ. lia. }
  unfold Np.len in Hge. constructor; [lia|]. apply IH. lia.
Qed.

(** X5: The docstring of [_random_segmentation]: for [num_items > 0] and
    [num_segments] in [[1, num_items]] the result has [num_segments] positive
    entries that add up to [num_items], whatever the shuffle draws. *)
Theorem random_segmentation_contract (num_items num_segments : Z) (g : Np.rng) :
  1 <= num_segments <= num_items ->
  let r := fst (NoiseMask.random_segmentation num_items num_segments g) in
  Np.len r = num_segments
  /\ Forall (fun c => 0 < c) r
  /\ sumZ r = num_items.
Proof.
  intros H. cbv zeta.
  destruct (random_segmentation_spec num_items num_segments g H) as (P & S & Ln).
  split; [exact Ln|]. split; [|exact S].
  eapply Forall_impl; [|exact P]. cbv beta. intros; lia.
Qed.

Lemma random_segmentation_contract_witness :
  let r := fst (NoiseMask.random_segmentation 7 3 [5; 2; 9; 4; 1; 1]%nat) in
  Np.len r = 3 /\ Forall (fun c => 0 < c) r /\ sumZ r = 7.
Proof. apply (random_segmentation_contract 7 3). lia. Defined.

Lemma all_ones_repeat (cs : list Z) :
  Forall (fun c => c = 1) cs -> cs = repeat 1 (length cs).
Proof.
  induction 1 as [|c cs Hc _ IH]; [reflexivity|].
  cbn [length repeat]. rewrite <- IH, Hc. reflexivity.
Qed.

(** X6: Outside the documented domain of [_random_segmentation] the result
    no longer has the shape asked for: with
    more segments than items every item is a segment of its own, and for
    [num_items <= 0] the result is the single segment [[1]], which does not
    add up to [num_items]. *)
Theorem random_segmentation_out_of_domain (num_items num_segments : Z)
    (g : Np.rng) :
  num_items < Z.max num_segments 1 ->
  fst (NoiseMask.random_segmentation num_items num_segments g)
  = repeat 1 (Z.to_nat (Z.max num_items 1)).
Proof.
  intros H. destruct (Z_le_gt_dec num_items 1) as [L|G].
  - rewrite random_segmentation_single by exact L.
    replace (Z.max num_items 1) with 1 by lia. reflexivity.
  - pose proof (random_segmentation_short num_items num_segments g ltac:(lia)) as Ln.
    unfold NoiseMask.random_segmentation in *.
    destruct (arange_lt_spec (num_items - 1) (num_segments - 1)) as [Hl Hc].
    destruct (shuffle_spec
                (map (fun i => i <? num_segments - 1) (Np.arange (num_items - 1))) g)
      as [Sl Sc].
    destruct (Np.shuffle _ g) as [sh g']. cbn [fst] in *.
    rewrite unique_counts_segments in *.
    destruct (seg_lengths_spec sh 1 ltac:(lia)) as (H1 & H2 & H3).
    rewrite (all_ones_repeat (seg_lengths 1 sh)).
    + f_equal. unfold Np.len in Ln. lia.
    + apply positive_sum_len; [exact H1|].
      rewrite H2, Ln. unfold Np.len in *. rewrite Sl. lia.
Qed.

Lemma random_segmentation_out_of_domain_witness :
  fst (NoiseMask.random_segmentation 3 5 [4; 2; 7]%nat) = [1; 1; 1]
  /\ fst (NoiseMask.random_segmentation 0 1 []) = [1].
Proof.
  split.
  - apply (random_segmentation_out_of_domain 3 5). lia.
  - apply (random_segmentation_out_of_domain 0 1). lia.
Defined.

(** *** Outcome of the generator *)

Lemma round_comp (x y : Q) : (x == y)%Q -> Np.round x = Np.round y.
Proof.
  intros H. apply Z.le_antisymm; apply round_mono; rewrite H; apply Qle_refl.
Qed.

Lemma span_count_nonpos (n : Z) (m : Q) :
  n <= 0 -> (1 <= m)%Q -> span_count n m = 1.
Proof.
  intros Hn Hm. unfold span_count.
  assert (Np.round (inject_Z n / m) <= 0).
  { rewrite <- (round_inject_Z 0). apply round_mono.
    apply Qle_shift_div_r; [lra|].
    assert (inject_Z n <= 0)%Q by (unfold Qle; simpl; lia).
    change (inject_Z 0) with 0%Q. lra. }
  lia.
Qed.

Lemma generator_short_length (L : Z) (d m : Q) (g : Np.rng) :
  L <= 1 -> (1 <= m)%Q ->
  NoiseMask.random_spans_noise_mask L d m g
  = Raise (if L <? 0 then ValueError else IndexError).
Proof.
  intros HL Hm. unfold NoiseMask.random_spans_noise_mask, Np.py_div.
  rewrite Qeq_bool_neq_0 by exact Hm. cbn [bind].
  replace (Z.min (Z.max (Np.round (inject_Z L * d)) 1) (L - 1)) with (L - 1)
    by lia.
  fold (span_count (L - 1) m). rewrite span_count_nonpos by (lia || exact Hm).
  rewrite random_segmentation_single by lia.
  replace (L - (L - 1)) with 1 by lia.
  rewrite random_segmentation_single by lia.
  cbn [Np.stack2 length Nat.eqb combine bind].
  unfold Np.reshape_flat. cbn [Np.len length combine Z.of_nat].
  change (2 * Z.pos (Pos.of_succ_nat 0) =? 1 * 2) with true.
  cbn [bind flat_map fst snd app Np.cumsum Np.cumsum_from].
  unfold Np.zeros. destruct (L <? 0) eqn:E; [reflexivity|].
  apply Z.ltb_ge in E. cbn [bind].
  rewrite set_indices_out_of_bounds; [reflexivity|].
  change (removelast [0 + 1; 0 + 1 + 1]) with [1].
  constructor. unfold Np.len. rewrite repeat_length. lia.
Qed.

Lemma num_noise_tokens_ok (L : Z) (x : Q) :
  Z.abs L < 2 ^ 52 -> (0 <= x)%Q -> (x <= 1)%Q ->
  exists n, NoiseMask64.num_noise_tokens L (F64.Finite x) = Ok n.
Proof.
  intros HL Hx0 Hx1. unfold NoiseMask64.num_noise_tokens.
  destruct (of_Z_exact L ltac:(lia)) as (v & E1 & Hv). rewrite E1.
  cbn [bind F64.mul].
  assert (Hlo : (inject_Z (Z.min L 0) <= v * x)%Q).
  { rewrite Hv. destruct (Z_le_gt_dec 0 L) as [P|N].
    - rewrite Z.min_r by lia. change (inject_Z 0) with 0%Q.
      assert (0 <= inject_Z L)%Q by (unfold Qle; simpl; lia). nra.
    - rewrite Z.min_l by lia.
      assert (inject_Z L <= 0)%Q by (unfold Qle; simpl; lia). nra. }
  assert (Hhi : (v * x <= inject_Z (Z.max L 0))%Q).
  { rewrite Hv. destruct (Z_le_gt_dec 0 L) as [P|N].
    - rewrite Z.max_l by lia.
      assert (0 <= inject_Z L)%Q by (unfold Qle; simpl; lia). nra.
    - rewrite Z.max_r by lia. change (inject_Z 0) with 0%Q.
      assert (inject_Z L <= 0)%Q by (unfold Qle; simpl; lia). nra. }
  destruct (of_Q_between (v * x) (Z.min L 0) (Z.max L 0) ltac:(lia) ltac:(lia)
              Hlo Hhi) as (p & E2 & _ & _).
  rewrite E2. cbn [F64.py_round bind]. eexists. reflexivity.
Qed.

Lemma num_noise_spans_ok (n : Z) (y : Q) :
  Z.abs n < 2 ^ 53 -> (1 <= y)%Q ->
  exists s,
    NoiseMask64.num_noise_spans n (F64.Finite y) = Ok s
    /\ (1 <= n -> s <= n) /\ (n <= 0 -> s = 1).
Proof.
  intros Hn Hy. unfold NoiseMask64.num_noise_spans.
  destruct (of_Z_exact n ltac:(lia)) as (v & E1 & Hv). rewrite E1.
  cbn [bind F64.div]. rewrite Qeq_bool_neq_0 by exact Hy.
  assert (Hlo : (inject_Z (Z.min n 0) <= v / y)%Q).
  { apply Qle_shift_div_l; [lra|]. rewrite Hv.
    destruct (Z_le_gt_dec 0 n) as [P|N].
    - rewrite Z.min_r by lia. change (inject_Z 0) with 0%Q.
      assert (0 <= inject_Z n)%Q by (unfold Qle; simpl; lia). lra.
    - rewrite Z.min_l by lia.
      assert (inject_Z n <= 0)%Q by (unfold Qle; simpl; lia). nra. }
  assert (Hhi : (v / y <= inject_Z (Z.max n 0))%Q).
  { apply Qle_shift_div_r; [lra|]. rewrite Hv.
    destruct (Z_le_gt_dec 0 n) as [P|N].
    - rewrite Z.max_l by lia.
      assert (0 <= inject_Z n)%Q by (unfold Qle; simpl; lia). nra.
    - rewrite Z.max_r by lia. change (inject_Z 0) with 0%Q.
      assert (inject_Z n <= 0)%Q by (unfold Qle; simpl; lia). lra. }
  destruct (of_Q_between (v / y) (Z.min n 0) (Z.max n 0) ltac:(lia) ltac:(lia)
              Hlo Hhi) as (r & E2 & Hr1 & Hr2).
  rewrite E2. cbn [F64.py_round bind].
  pose proof (py_round_between r _ _ Hr1 Hr2) as Hs.
  eexists. split; [reflexivity|]. lia.
Qed.

(** X7: For a length below 2^52 in absolute value, a density in [0, 1] and
    a mean span length of at least 1, the generator computes its two counts
    n and s and returns a mask exactly when the length is at least 2 and
    there are at least as many non-noise tokens as spans. Otherwise it
    raises: [ValueError] for a negative length, [IndexError] for the lengths
    0 and 1, and [ValueError] when the spans outnumber the non-noise
    tokens. The counts are those of the code, rounded in binary64. *)
Theorem generator_outcome (L : Z) (x y : Q) (g : Np.rng) :
  Z.abs L < 2 ^ 52 -> (0 <= x)%Q -> (x <= 1)%Q -> (1 <= y)%Q ->
  exists n s,
    NoiseMask64.num_noise_tokens L (F64.Finite x) = Ok n
    /\ NoiseMask64.num_noise_spans n (F64.Finite y) = Ok s
    /\ match NoiseMask64.random_spans_noise_mask L (F64.Finite x) (F64.Finite y) g
       with
       | Ok (mask, _) => 2 <= L /\ s <= L - n /\ Np.len mask = L
       | Raise e =>
         (L < 2 \/ L - n < s)
         /\ e = if L <? 0 then ValueError
                else if L <? 2 then IndexError else ValueError
       end.
Proof.
  intros HL Hx0 Hx1 Hy.
  destruct (num_noise_tokens_ok L x HL Hx0 Hx1) as (n & En).
  destruct (num_noise_tokens_clamped L n _ En) as [Hlong Hshort].
  destruct (num_noise_spans_ok n y ltac:(lia) Hy) as (s & Es & Hs1 & Hs2).
  pose proof (num_noise_spans_clamped n s _ Es) as Hs.
  exists n, s. split; [exact En|]. split; [exact Es|].
  rewrite generator64_unfold, En. cbn [bind]. rewrite Es. cbn [bind].
  destruct (Z_le_gt_dec L 1) as [HL1|HL2].
  - rewrite (Hshort HL1), (Hs2 ltac:(lia)) in *.
    rewrite spans_mask_short by exact HL1.
    split; [left; lia|].
    destruct (L <? 0); [reflexivity|].
    replace (L <? 2) with true by (symmetry; apply Z.ltb_lt; lia). reflexivity.
  - specialize (Hlong ltac:(lia)). specialize (Hs1 ltac:(lia)).
    destruct (Z_le_gt_dec s (L - n)) as [Hfit|Hmany].
    + destruct (spans_mask_layout L n s g ltac:(lia) Hfit)
        as (bs & as_ & g' & E & Hlen & Pb & Pa & Sa & Sb & La).
      rewrite E.
      destruct (alternate_interleave bs as_ false Hlen Pb Pa) as (M1 & _ & _).
      cbv zeta in M1. repeat split; try assumption; lia.
    + rewrite spans_mask_too_many by lia.
      split; [right; lia|].
      replace (L <? 0) with false by (symmetry; apply Z.ltb_ge; lia).
      replace (L <? 2) with false by (symmetry; apply Z.ltb_ge; lia).
      reflexivity.
Qed.

Lemma generator_outcome_witness :
  exists n s,
    NoiseMask64.num_noise_tokens 45 (F64.of_Q (7 # 10)) = Ok n
    /\ NoiseMask64.num_noise_spans n (F64.of_Q (23 # 10)) = Ok s
    /\ match NoiseMask64.random_spans_noise_mask 45 (F64.of_Q (7 # 10))
               (F64.of_Q (23 # 10)) [3; 1; 4; 1; 5]%nat
       with
       | Ok (mask, _) => 2 <= 45 /\ s <= 45 - n /\ Np.len mask = 45
       | Raise e =>
         (45 < 2 \/ 45 - n < s)
         /\ e = if 45 <? 0 then ValueError
                else if 45 <? 2 then IndexError else ValueError
       end.
Proof.
  assert (Ed : F64.of_Q (7 # 10)
               = F64.Finite (6305039478318694 # 9007199254740992))
    by (vm_compute; reflexivity).
  assert (Em : F64.of_Q (23 # 10)
               = F64.Finite (5179139571476070 # 2251799813685248))
    by (vm_compute; reflexivity).
  rewrite Ed, Em.
  apply (generator_outcome 45 (6305039478318694 # 9007199254740992)
           (5179139571476070 # 2251799813685248)).
  - vm_compute. reflexivity.
  - vm_compute. discriminate.
  - vm_compute. discriminate.
  - vm_compute. discriminate.
Defined.

(** *** Shape of a returned mask *)

Lemma last_app_nonempty (A : Type) (l1 l2 : list A) (d : A) :
  l2 <> [] -> last (l1 ++ l2) d = last l2 d.
Proof.
  intros H. induction l1 as [|x l1 IH]; [reflexivity|].
  cbn [app]. destruct (l1 ++ l2) eqn:E.
  - destruct l1; [cbn in E; congruence | discriminate E].
  - cbn [last]. exact IH.
Qed.

Lemma last_repeat (A : Type) (x d : A) (n : nat) :
  (1 <= n)%nat -> last (repeat x n) d = x.
Proof.
  intros H. destruct n as [|n]; [lia|]. clear H.
  induction n as [|n IH]; [reflexivity|].
  change (repeat x (S (S n))) with (x :: repeat x (S n)).
  cbn [last]. cbn [repeat] in IH. exact IH.
Qed.

Lemma alternate_ends (bs : list Z) :
  forall as_, length bs = length as_ -> bs <> [] ->
  Forall (fun c => 1 <= c) bs -> Forall (fun c => 1 <= c) as_ ->
  nth 0 (alternate false (interleave bs as_)) true = false
  /\ last (alternate false (interleave bs as_)) false = true.
Proof.
  induction bs as [|b bs IH]; intros [|a as_] Hlen Hne Hb Ha;
    try discriminate Hlen; [congruence|].
  injection Hlen as Hlen.
  inversion Hb as [|? ? Pb1 Pb2]; inversion Ha as [|? ? Pa1 Pa2]; subst.
  rewrite interleave_cons. cbn [alternate negb]. split.
  - destruct (Z.to_nat b) as [|k] eqn:E; [lia|]. reflexivity.
  - rewrite app_assoc.
    destruct bs as [|b' bs].
    + destruct as_; [|discriminate Hlen].
      cbn [interleave combine flat_map alternate]. rewrite app_nil_r.
      rewrite last_app_nonempty.
      * apply last_repeat. lia.
      * destruct (Z.to_nat a) eqn:E; [lia|discriminate].
    + destruct (IH as_ Hlen ltac:(discriminate) Pb2 Pa2) as [_ Hl].
      rewrite last_app_nonempty; [exact Hl|].
      destruct as_ as [|a' as_]; [discriminate Hlen|].
      rewrite interleave_cons. cbn [alternate].
      inversion Pb2; subst.
      destruct (Z.to_nat b') eqn:E; [lia|discriminate].
Qed.

(** X8: Every mask that the generator returns begins with a non-noise position
    and ends with a noise position, as its docstring says of the spans
    ("alternate between non-noise and noise, beginning with non-noise"). *)
Theorem noise_mask_ends (L : Z) (d m : Q) (g g' : Np.rng) (mask : list bool) :
  (1 <= m)%Q ->
  NoiseMask.random_spans_noise_mask L d m g = Ok (mask, g') ->
  nth 0 mask true = false /\ last mask false = true.
Proof.
  intros Hm H.
  destruct (Z_le_gt_dec L 1) as [Hshort|Hlong].
  { rewrite generator_short_length in H by assumption. discriminate H. }
  assert (HL : 2 <= L) by lia.
  destruct (Z_le_gt_dec (span_count (clamped_noise_tokens L d) m)
              (L - clamped_noise_tokens L d)) as [Hfit|Hmany].
  - destruct (generator_layout L d m HL Hm g Hfit)
      as (bs & as_ & g1 & E & Hlen & Pb & Pa & Sa & Sb & La).
    rewrite E in H. injection H as <- _.
    apply alternate_ends; try assumption.
    intros N. subst bs. destruct as_; [|discriminate Hlen].
    pose proof (span_count_bounds L d m HL Hm). unfold Np.len in La.
    simpl in La. lia.
  - rewrite (generator_too_many_spans L d m HL Hm g) in H by lia.
    discriminate H.
Qed.

Lemma noise_mask_ends_witness :
  nth 0 [false; false; true; false; false; false; false; false; true; true]
    true = false
  /\ last [false; false; true; false; false; false; false; false; true; true]
       false = true.
Proof.
  apply (noise_mask_ends 10 (3 # 10) 2 [3; 1; 4; 1; 5]%nat []).
  - lra.
  - vm_compute. reflexivity.
Defined.

(** *** The constants of [build_training_sample] *)

Lemma default_noise_at_most_half (L : Z) :
  2 <= L -> 2 * clamped_noise_tokens L (15 # 100) <= L.
Proof.
  intros HL.
  pose proof (round_near (inject_Z L * (15 # 100))) as [Hr _].
  assert (H2 : 2 * Np.round (inject_Z L * (15 # 100)) <= L).
  { apply Z_of_Q_le. rewrite inject_Z_mult. change (inject_Z 2) with 2%Q.
    assert (2 <= inject_Z L)%Q
      by (change 2%Q with (inject_Z 2); unfold Qle; simpl; lia).
    revert Hr H. generalize (inject_Z (Np.round (inject_Z L * (15 # 100)))).
    generalize (inject_Z L). intros x r Hr Hx. lra. }
  unfold clamped_noise_tokens. lia.
Qed.

(** X9: With the density 0.15 and the mean span length 3 that
    [build_training_sample] passes, the generator returns a mask for every
    length of at least 2 and every state of the random source; the mask has
    that length, at least one noise position, and at most half of its
    positions are noise. *)
Theorem default_mask_returned (L : Z) (g : Np.rng) :
  2 <= L ->
  exists mask g',
    NoiseMask.random_spans_noise_mask L (15 # 100) 3 g = Ok (mask, g')
    /\ Np.len mask = L
    /\ 1 <= Mask.count true mask
    /\ 2 * Mask.count true mask <= L.
Proof.
  intros HL.
  destruct (generator_layout L (15 # 100) 3 HL ltac:(lra) g
              (default_parameters_fit L HL))
    as (bs & as_ & g' & E & Hlen & Pb & Pa & Sa & Sb & La).
  destruct (alternate_interleave bs as_ false Hlen Pb Pa) as (M1 & M2 & _).
  cbv zeta in M1, M2.
  pose proof (clamped_noise_tokens_bounds L (15 # 100) HL).
  pose proof (default_noise_at_most_half L HL).
  exists (alternate false (interleave bs as_)), g'.
  split; [exact E|]. split; [lia|]. split; lia.
Qed.

Lemma default_mask_returned_witness :
  exists mask g',
    NoiseMask.random_spans_noise_mask 40 (15 # 100) 3 [3; 1; 4; 1; 5; 9]%nat
      = Ok (mask, g')
    /\ Np.len mask = 40
    /\ 1 <= Mask.count true mask
    /\ 2 * Mask.count true mask <= 40.
Proof. apply (default_mask_returned 40). lia. Defined.

(** ** Streams of a training sample *)

(** *** Blocks of the mask *)

Lemma combine_app (A B : Type) (a1 a2 : list A) (b1 b2 : list B) :
  length a1 = length b1 ->
  combine (a1 ++ a2) (b1 ++ b2) = combine a1 b1 ++ combine a2 b2.
Proof.
  revert b1. induction a1 as [|x a1 IH]; intros [|y b1] H;
    try discriminate H; [reflexivity|].
  cbn [app combine]. rewrite IH by (injection H; auto). reflexivity.
Qed.

Lemma surviving_cons (vocab_len : Z) (prev b : bool) (r t : Z)
    (mask : list bool) (tokens : list Z) :
  surviving vocab_len prev r (b :: mask) (t :: tokens)
  = (let x := if b then if prev then -1 else vocab_len - (r + 1) else 0 in
     let y := if x =? 0 then t else x in
     if 0 <=? y then [y] else [])
    ++ surviving vocab_len b (r + (if b && negb prev then 1 else 0)) mask tokens.
Proof.
  unfold surviving. rewrite sentinel_pass_cons.
  cbn [combine map filter fst snd]. cbv zeta.
  destruct (0 <=? _); reflexivity.
Qed.

Lemma surviving_false_block (vocab_len : Z) (t1 : list Z) :
  forall prev r mask tokens,
  Forall (fun t => 0 <= t) t1 -> t1 <> [] ->
  surviving vocab_len prev r (repeat false (length t1) ++ mask) (t1 ++ tokens)
  = t1 ++ surviving vocab_len false r mask tokens.
Proof.
  induction t1 as [|t t1 IH]; intros prev r mask tokens Ht Hne; [congruence|].
  inversion Ht as [|? ? Ht0 Ht1]; subst.
  cbn [length repeat app]. rewrite surviving_cons. cbv zeta.
  cbn [andb]. change (0 =? 0) with true. cbv iota.
  replace (0 <=? t) with true by (symmetry; apply Z.leb_le; exact Ht0).
  rewrite Z.add_0_r. cbn [app]. f_equal.
  destruct t1 as [|t' t1]; [reflexivity|].
  apply IH; [exact Ht1 | discriminate].
Qed.

Lemma surviving_deleted (vocab_len : Z) (t1 : list Z) :
  forall r mask tokens,
  surviving vocab_len true r (repeat true (length t1) ++ mask) (t1 ++ tokens)
  = surviving vocab_len true r mask tokens.
Proof.
  induction t1 as [|t t1 IH]; intros r mask tokens; [reflexivity|].
  cbn [length repeat app]. rewrite surviving_cons. cbv zeta.
  cbn [andb negb]. change (-1 =? 0) with false. cbv iota.
  change (0 <=? -1) with false. cbv iota. rewrite Z.add_0_r. apply IH.
Qed.

Lemma surviving_true_block (vocab_len : Z) (t1 : list Z) :
  forall r mask tokens,
  t1 <> [] -> 0 < vocab_len - (r + 1) ->
  surviving vocab_len false r (repeat true (length t1) ++ mask) (t1 ++ tokens)
  = (vocab_len - (r + 1)) :: surviving vocab_len true (r + 1) mask tokens.
Proof.
  intros r mask tokens Hne Hv. destruct t1 as [|t t1]; [congruence|].
  cbn [length repeat app]. rewrite surviving_cons. cbv zeta.
  cbn [andb negb].
  replace (vocab_len - (r + 1) =? 0) with false by (symmetry; apply Z.eqb_neq; lia).
  replace (0 <=? vocab_len - (r + 1)) with true by (symmetry; apply Z.leb_le; lia).
  cbn [app]. f_equal. apply surviving_deleted.
Qed.

(** *** The two streams of a segmented token array *)

Lemma surviving_input (vocab_len : Z) (segs : list (list Z * list Z)) :
  forall prev r,
  Forall (fun p => fst p <> [] /\ snd p <> []) segs ->
  Forall (fun t => 0 <= t) (seg_tokens segs) ->
  r + Np.len segs < vocab_len ->
  surviving vocab_len prev r (seg_mask segs) (seg_tokens segs)
  = input_stream vocab_len r segs.
Proof.
  unfold Np.len.
  induction segs as [|[nn ns] segs IH]; intros prev r Hne Ht Hv; [reflexivity|].
  inversion Hne as [|? ? [Hnn Hns] Hne']; subst. cbn [fst snd] in *.
  cbn [seg_tokens seg_mask flat_map fst snd input_stream] in *.
  fold (seg_tokens segs) in *. fold (seg_mask segs).
  apply Forall_app in Ht. destruct Ht as [Ht1 Ht2].
  apply Forall_app in Ht1. destruct Ht1 as [Hnn0 Hns0].
  cbn [length] in Hv. rewrite Nat2Z.inj_succ in Hv.
  rewrite <- !app_assoc.
  rewrite surviving_false_block by assumption. f_equal.
  rewrite surviving_true_block by (assumption || lia). f_equal.
  apply IH; [assumption | assumption | lia].
Qed.

Lemma negb_seg_mask (segs : list (list Z * list Z)) :
  map negb (seg_mask segs)
  = flat_map (fun p => repeat true (length (fst p))
                         ++ repeat false (length (snd p))) segs.
Proof.
  induction segs as [|p segs IH]; [reflexivity|].
  cbn [seg_mask flat_map]. fold (seg_mask segs).
  rewrite !map_app, !map_repeat, IH. reflexivity.
Qed.

Lemma surviving_target (vocab_len : Z) (segs : list (list Z * list Z)) :
  forall r,
  Forall (fun p => fst p <> [] /\ snd p <> []) segs ->
  Forall (fun t => 0 <= t) (seg_tokens segs) ->
  r + Np.len segs < vocab_len ->
  surviving vocab_len false r (map negb (seg_mask segs)) (seg_tokens segs)
  = target_stream vocab_len r segs.
Proof.
  unfold Np.len. rewrite negb_seg_mask.
  induction segs as [|[nn ns] segs IH]; intros r Hne Ht Hv; [reflexivity|].
  inversion Hne as [|? ? [Hnn Hns] Hne']; subst. cbn [fst snd] in *.
  cbn [seg_tokens flat_map fst snd target_stream] in *.
  fold (seg_tokens segs) in *.
  apply Forall_app in Ht. destruct Ht as [Ht1 Ht2].
  apply Forall_app in Ht1. destruct Ht1 as [Hnn0 Hns0].
  cbn [length] in Hv. rewrite Nat2Z.inj_succ in Hv.
  rewrite <- !app_assoc.
  rewrite surviving_true_block by (assumption || lia). f_equal.
  assert (E : forall mask tokens,
             surviving vocab_len true (r + 1)
               (repeat false (length ns) ++ mask) (ns ++ tokens)
             = ns ++ surviving vocab_len false (r + 1) mask tokens)
    by (intros; apply surviving_false_block; assumption).
  rewrite E. f_equal. apply IH; [assumption | assumption | lia].
Qed.

Lemma seg_mask_length (segs : list (list Z * list Z)) :
  length (seg_mask segs) = length (seg_tokens segs).
Proof.
  induction segs as [|p segs IH]; [reflexivity|].
  cbn [seg_mask seg_tokens flat_map].
  fold (seg_mask segs). fold (seg_tokens segs).
  rewrite !length_app, !repeat_length, IH. lia.
Qed.

(** An id in the range of [int32] is stored as it is. *)
Lemma astype_int32_id (x : Z) :
  - 2 ^ 31 <= x < 2 ^ 31 -> Np.astype_int32 x = x.
Proof.
  intros H. unfold Np.astype_int32.
  rewrite Z.mod_small by lia. lia.
Qed.

Lemma filter_input_ids_surviving (vocab_len eos_id : Z) (mask : list bool)
    (tokens : list Z) :
  mask <> [] -> length mask = length tokens ->
  - 2 ^ 31 <= eos_id < 2 ^ 31 ->
  exists s,
    Sentinel.create_sentinel_ids (Sentinel.astype_int8 mask) vocab_len = Ok s
    /\ Sentinel.filter_input_ids tokens s eos_id
       = Ok (surviving vocab_len false 0 mask tokens ++ [eos_id]).
Proof.
  intros Hne Hlen Heos. exists (sentinel_pass vocab_len false 0 mask).
  split; [apply create_sentinel_ids_pass, Hne|].
  unfold Sentinel.filter_input_ids.
  rewrite input_ids_full_same_length
    by (rewrite sentinel_pass_length; exact Hlen).
  cbn [bind]. rewrite astype_int32_id by exact Heos. reflexivity.
Qed.

(** X10: For a token array cut into non-empty segments nn_1, ns_1, ..., nn_s,
    ns_s (non-noise, noise, alternating), ids that are not negative and a
    vocabulary larger than the number of spans, the assembler produces the
    span-corruption format: the input stream is nn_1, S_1, ..., nn_s, S_s,
    eos and the target stream is S_1, ns_1, ..., S_s, ns_s, eos, where
    S_k = vocab_len - k; the sentinel S_k of the input stands for the noise
    segment that follows S_k in the target. The id of eos is in the range
    of [int32], the type of the column that holds it. *)
Theorem streams_of_segments (segs : list (list Z * list Z))
    (vocab_len eos_id : Z) :
  segs <> [] ->
  Forall (fun p => fst p <> [] /\ snd p <> []) segs ->
  Forall (fun t => 0 <= t) (seg_tokens segs) ->
  Np.len segs < vocab_len ->
  - 2 ^ 31 <= eos_id < 2 ^ 31 ->
  exists input_ids_sentinel labels_sentinel,
    Sentinel.create_sentinel_ids (Sentinel.astype_int8 (seg_mask segs)) vocab_len
      = Ok input_ids_sentinel
    /\ Sentinel.create_sentinel_ids
         (Sentinel.astype_int8 (map negb (seg_mask segs))) vocab_len
       = Ok labels_sentinel
    /\ Sentinel.filter_input_ids (seg_tokens segs) input_ids_sentinel eos_id
       = Ok (input_stream vocab_len 0 segs ++ [eos_id])
    /\ Sentinel.filter_input_ids (seg_tokens segs) labels_sentinel eos_id
       = Ok (target_stream vocab_len 0 segs ++ [eos_id]).
Proof.
  intros Hne Hseg Ht Hv Heos.
  assert (Hm : seg_mask segs <> []).
  { destruct segs as [|[nn ns] segs]; [congruence|].
    inversion Hseg as [|? ? [Hnn _] _]; subst. cbn [fst] in Hnn.
    destruct nn; [congruence|]. discriminate. }
  assert (Hm' : map negb (seg_mask segs) <> [])
    by (destruct (seg_mask segs); [congruence|discriminate]).
  destruct (filter_input_ids_surviving vocab_len eos_id (seg_mask segs)
              (seg_tokens segs) Hm (seg_mask_length segs) Heos)
    as (s1 & E1 & F1).
  destruct (filter_input_ids_surviving vocab_len eos_id (map negb (seg_mask segs))
              (seg_tokens segs) Hm') as (s2 & E2 & F2);
    [rewrite length_map; apply seg_mask_length | exact Heos |].
  exists s1, s2. split; [exact E1|]. split; [exact E2|].
  rewrite F1, F2, surviving_input, surviving_target by (assumption || lia).
  split; reflexivity.
Qed.

Lemma streams_of_segments_witness :
  exists input_ids_sentinel labels_sentinel,
    Sentinel.create_sentinel_ids
      (Sentinel.astype_int8 (seg_mask [([11; 12], [13]); ([14], [15; 16])])) 100
      = Ok input_ids_sentinel
    /\ Sentinel.create_sentinel_ids
         (Sentinel.astype_int8
            (map negb (seg_mask [([11; 12], [13]); ([14], [15; 16])]))) 100
       = Ok labels_sentinel
    /\ Sentinel.filter_input_ids
         (seg_tokens [([11; 12], [13]); ([14], [15; 16])]) input_ids_sentinel 1
       = Ok (input_stream 100 0 [([11; 12], [13]); ([14], [15; 16])] ++ [1])
    /\ Sentinel.filter_input_ids
         (seg_tokens [([11; 12], [13]); ([14], [15; 16])]) labels_sentinel 1
       = Ok (target_stream 100 0 [([11; 12], [13]); ([14], [15; 16])] ++ [1]).
Proof.
  apply (streams_of_segments [([11; 12], [13]); ([14], [15; 16])] 100 1).
  - discriminate.
  - repeat constructor; discriminate.
  - repeat constructor; lia.
  - vm_compute. reflexivity.
  - lia.
Defined.

(** *** Cutting a token array along a generated mask *)

Lemma cut_spec (bs : list Z) :
  forall as_ tokens, length bs = length as_ ->
  Forall (fun c => 1 <= c) bs -> Forall (fun c => 1 <= c) as_ ->
  Np.len tokens = sumZ as_ + sumZ bs ->
  seg_tokens (cut bs as_ tokens) = tokens
  /\ seg_mask (cut bs as_ tokens) = alternate false (interleave bs as_)
  /\ Forall (fun p => fst p <> [] /\ snd p <> []) (cut bs as_ tokens)
  /\ length (cut bs as_ tokens) = length as_.
Proof.
  unfold Np.len.
  induction bs as [|b bs IH]; intros [|a as_] tokens Hlen Hb Ha Ht;
    try discriminate Hlen.
  - cbn in Ht. destruct tokens; [|cbn in Ht; lia]. repeat split. constructor.
  - injection Hlen as Hlen.
    inversion Hb as [|? ? Pb1 Pb2]; inversion Ha as [|? ? Pa1 Pa2]; subst.
    rewrite !sumZ_cons in Ht.
    pose proof (sumZ_pos _ Pb2) as Sb. pose proof (sumZ_pos _ Pa2) as Sa.
    set (t1 := firstn (Z.to_nat b) tokens).
    set (rest1 := skipn (Z.to_nat b) tokens).
    set (t2 := firstn (Z.to_nat a) rest1).
    set (rest2 := skipn (Z.to_nat a) rest1).
    assert (L1 : length t1 = Z.to_nat b)
      by (unfold t1; rewrite length_firstn; lia).
    assert (Lr1 : length rest1 = (length tokens - Z.to_nat b)%nat)
      by (unfold rest1; apply length_skipn).
    assert (L2 : length t2 = Z.to_nat a)
      by (unfold t2; rewrite length_firstn; lia).
    assert (Lr2 : Z.of_nat (length rest2) = sumZ as_ + sumZ bs)
      by (unfold rest2; rewrite length_skipn; lia).
    destruct (IH as_ rest2 Hlen Pb2 Pa2 Lr2) as (I1 & I2 & I3 & I4).
    change (cut (b :: bs) (a :: as_) tokens) with ((t1, t2) :: cut bs as_ rest2).
    cbn [seg_tokens seg_mask flat_map fst snd length].
    fold (seg_tokens (cut bs as_ rest2)). fold (seg_mask (cut bs as_ rest2)).
    rewrite I1, I2, I4, L1, L2, interleave_cons. cbn [alternate negb].
    repeat split.
    + rewrite <- app_assoc. unfold t2, rest2.
      rewrite (firstn_skipn (Z.to_nat a) rest1). unfold t1, rest1.
      apply firstn_skipn.
    + rewrite <- app_assoc. reflexivity.
    + constructor; [|exact I3]. cbn [fst snd].
      split; intros N; rewrite N in *; cbn in *; lia.
Qed.

(** *** The sample built from a drawn mask *)

Lemma assemble_segments (segs : list (list Z * list Z))
    (vocab_id_list : list Z) (eos_id : Z) :
  segs <> [] ->
  Forall (fun p => fst p <> [] /\ snd p <> []) segs ->
  Forall (fun t => 0 <= t) (seg_tokens segs) ->
  Np.len segs < Np.len vocab_id_list ->
  - 2 ^ 31 <= eos_id < 2 ^ 31 ->
  assemble (seg_tokens segs) vocab_id_list eos_id (seg_mask segs)
  = Ok (Sentinel.mk_training_sample
          ((input_stream (Np.len vocab_id_list) 0 segs ++ [eos_id])
             ++ (target_stream (Np.len vocab_id_list) 0 segs ++ [eos_id]))
          (Np.len (input_stream (Np.len vocab_id_list) 0 segs ++ [eos_id]))).
Proof.
  intros Hne Hseg Ht Hv Heos.
  assert (Hm : seg_mask segs <> []).
  { destruct segs as [|[nn ns] segs]; [congruence|].
    inversion Hseg as [|? ? [Hnn _] _]; subst. cbn [fst] in Hnn.
    destruct nn; [congruence|]. discriminate. }
  assert (Hm' : map negb (seg_mask segs) <> [])
    by (destruct (seg_mask segs); [congruence|discriminate]).
  destruct (filter_input_ids_surviving (Np.len vocab_id_list) eos_id
              (seg_mask segs) (seg_tokens segs) Hm (seg_mask_length segs) Heos)
    as (s1 & E1 & F1).
  destruct (filter_input_ids_surviving (Np.len vocab_id_list) eos_id
              (map negb (seg_mask segs)) (seg_tokens segs) Hm')
    as (s2 & E2 & F2);
    [rewrite length_map; apply seg_mask_length | exact Heos |].
  rewrite surviving_input in F1 by (assumption || lia).
  rewrite surviving_target in F2 by (assumption || lia).
  unfold assemble. rewrite E1. cbn [bind]. rewrite E2. cbn [bind].
  rewrite F1. cbn [bind]. rewrite F2. reflexivity.
Qed.

(** X11: For a raw length L >= 2, L token ids that are not negative and a
    vocabulary larger than the span count, [build_training_sample] returns
    the span-corruption encoding of its tokens: they are cut into s pairs
    of non-empty non-noise and noise segments, [text] is the input stream
    nn_1, S_1, ..., nn_s, S_s, eos followed by the target stream S_1, ns_1,
    ..., S_s, ns_s, eos with S_k = len(vocab) - k, and [prefix_len] is the
    length of the input stream; s is the span count of the clamped noise
    count for density 0.15 and mean span length 3. The id of eos is in the
    range of [int32], the type of the column that holds it. *)
Theorem build_training_sample_encoding (sample : list (list Z)) (L : Z)
    (vocab_id_list : list Z) (cls_id sep_id mask_id pad_id bos_id eos_id : Z)
    (sentinel_tokens : list Z) (g : Np.rng) :
  2 <= L ->
  Np.len (concat sample) = L ->
  Forall (fun t => 0 <= t) (concat sample) ->
  span_count (clamped_noise_tokens L (15 # 100)) 3 < Np.len vocab_id_list ->
  - 2 ^ 31 <= eos_id < 2 ^ 31 ->
  exists segs g',
    Sentinel.build_training_sample sample L vocab_id_list cls_id sep_id mask_id
      pad_id bos_id eos_id sentinel_tokens g
    = Ok (Sentinel.mk_training_sample
            ((input_stream (Np.len vocab_id_list) 0 segs ++ [eos_id])
               ++ (target_stream (Np.len vocab_id_list) 0 segs ++ [eos_id]))
            (Np.len (input_stream (Np.len vocab_id_list) 0 segs ++ [eos_id])),
          g')
    /\ seg_tokens segs = concat sample
    /\ Forall (fun p => fst p <> [] /\ snd p <> []) segs
    /\ Np.len segs = span_count (clamped_noise_tokens L (15 # 100)) 3.
Proof.
  intros HL Hlen Htok Hv Heos.
  destruct (generator_layout L (15 # 100) 3 HL ltac:(lra) g
              (default_parameters_fit L HL))
    as (bs & as_ & g' & E & Hl & Pb & Pa & Sa & Sb & La).
  destruct (cut_spec bs as_ (concat sample) Hl Pb Pa ltac:(lia))
    as (C1 & C2 & C3 & C4).
  set (segs := cut bs as_ (concat sample)) in *.
  assert (Ls : Np.len segs = span_count (clamped_noise_tokens L (15 # 100)) 3)
    by (unfold Np.len in *; lia).
  assert (Hne : segs <> []).
  { intros N. rewrite N in Ls. unfold Np.len in Ls. cbn in Ls.
    pose proof (span_count_bounds L (15 # 100) 3 HL ltac:(lra)). lia. }
  exists segs, g'. split; [|repeat split; assumption].
  rewrite build_training_sample_unfold, E. cbn [bind].
  rewrite <- C2, <- C1.
  rewrite assemble_segments;
    [reflexivity | assumption | assumption | | lia | exact Heos].
  rewrite C1. exact Htok.
Qed.

Lemma build_training_sample_encoding_witness :
  exists segs g',
    Sentinel.build_training_sample [[1; 2; 3]; [4; 5; 6; 7; 8; 9; 10]] 10
      [0; 1; 2; 3; 4; 5; 6; 7; 8; 9; 10; 11; 12] 0 0 0 0 0 1 [12] [5; 3; 2; 7]%nat
    = Ok (Sentinel.mk_training_sample
            ((input_stream 13 0 segs ++ [1]) ++ (target_stream 13 0 segs ++ [1]))
            (Np.len (input_stream 13 0 segs ++ [1])),
          g')
    /\ seg_tokens segs = concat [[1; 2; 3]; [4; 5; 6; 7; 8; 9; 10]]
    /\ Forall (fun p => fst p <> [] /\ snd p <> []) segs
    /\ Np.len segs = span_count (clamped_noise_tokens 10 (15 # 100)) 3.
Proof.
  apply (build_training_sample_encoding [[1; 2; 3]; [4; 5; 6; 7; 8; 9; 10]] 10
           [0; 1; 2; 3; 4; 5; 6; 7; 8; 9; 10; 11; 12] 0 0 0 0 0 1 [12]
           [5; 3; 2; 7]%nat).
  - lia.
  - reflexivity.
  - repeat constructor; lia.
  - vm_compute. reflexivity.
  - lia.
Defined.

(** X12: A token array whose length is neither the raw length nor 1 cannot be
    combined with the mask: [build_training_sample] raises [ValueError]. *)
Theorem build_training_sample_shape_mismatch (sample : list (list Z)) (L : Z)
    (vocab_id_list : list Z) (cls_id sep_id mask_id pad_id bos_id eos_id : Z)
    (sentinel_tokens : list Z) (g : Np.rng) :
  2 <= L ->
  Np.len (concat sample) <> L ->
  Np.len (concat sample) <> 1 ->
  Sentinel.build_training_sample sample L vocab_id_list cls_id sep_id mask_id
    pad_id bos_id eos_id sentinel_tokens g
  = Raise ValueError.
Proof.
  intros HL Hn H1.
  destruct (generator_layout L (15 # 100) 3 HL ltac:(lra) g
              (default_parameters_fit L HL))
    as (bs & as_ & g' & E & Hl & Pb & Pa & Sa & Sb & La).
  destruct (alternate_interleave bs as_ false Hl Pb Pa) as (M1 & _ & _).
  cbv zeta in M1.
  set (mask := alternate false (interleave bs as_)) in *.
  assert (Hne : mask <> []).
  { intros N. rewrite N in M1. unfold Np.len in M1. cbn in M1.
    pose proof (clamped_noise_tokens_bounds L (15 # 100) HL). lia. }
  rewrite build_training_sample_unfold, E. cbn [bind]. unfold assemble.
  rewrite create_sentinel_ids_pass by exact Hne. cbn [bind].
  rewrite create_sentinel_ids_pass
    by (destruct mask; [congruence|discriminate]).
  cbn [bind].
  assert (F : Sentinel.filter_input_ids (concat sample)
                (sentinel_pass (Np.len vocab_id_list) false 0 mask) eos_id
              = Raise ValueError).
  { unfold Sentinel.filter_input_ids, Sentinel.input_ids_full, Np.broadcast2.
    pose proof (sentinel_pass_length (Np.len vocab_id_list) mask false 0) as Ls.
    replace (length (sentinel_pass (Np.len vocab_id_list) false 0 mask)
             =? length (concat sample))%nat with false
      by (symmetry; apply Nat.eqb_neq; unfold Np.len in *; lia).
    destruct (sentinel_pass (Np.len vocab_id_list) false 0 mask) as [|x [|y s]];
      [cbn in Ls; unfold Np.len in M1; lia
      |cbn in Ls; unfold Np.len in M1; lia|].
    destruct (concat sample) as [|t [|t' ts]]; try reflexivity.
    unfold Np.len in H1. cbn in H1. lia. }
  rewrite F. reflexivity.
Qed.

Lemma build_training_sample_shape_mismatch_witness :
  Sentinel.build_training_sample [[1; 2; 3]; [4; 5]] 10
    [0; 1; 2; 3; 4; 5; 6; 7; 8; 9; 10; 11; 12] 0 0 0 0 0 1 [12] [5; 3; 2; 7]%nat
  = Raise ValueError.
Proof.
  apply (build_training_sample_shape_mismatch [[1; 2; 3]; [4; 5]] 10).
  - lia.
  - vm_compute. discriminate.
  - vm_compute. discriminate.
Defined.

(** ** Length planner, continued *)

(** Rounding to even moves by at most one over a step shorter than one. *)
Lemma round_step (x y : Q) : (y < x + 1)%Q -> Np.round y <= Np.round x + 1.
Proof.
  intros H.
  destruct (Qlt_le_dec x y) as [L|G];
    [|pose proof (round_mono y x G); lia].
  pose proof (Qfloor_le x) as Hxlo. pose proof (Qlt_floor x) as Hxhi.
  pose proof (Qfloor_le y) as Hylo. pose proof (Qlt_floor y) as Hyhi.
  rewrite inject_Z_plus in Hxhi, Hyhi. change (inject_Z 1) with 1%Q in *.
  assert (Hf : Qfloor y <= Qfloor x + 1).
  { assert (Qfloor y < Qfloor x + 2); [|lia].
    apply Z_of_Q_lt. rewrite inject_Z_plus. change (inject_Z 2) with 2%Q. lra. }
  destruct (Z.eq_dec (Qfloor y) (Qfloor x + 1)) as [E|N].
  - rewrite E, inject_Z_plus in Hylo. change (inject_Z 1) with 1%Q in Hylo.
    destruct (round_cases x) as [[Hx Ex]|[[Hx Ex]|[Hx Ex]]];
    destruct (round_cases y) as [[Hy Ey]|[[Hy Ey]|[Hy Ey]]];
      rewrite Ex, Ey; rewrite ?E in *; rewrite ?inject_Z_plus in *;
      change (inject_Z 1) with 1%Q in *;
      try (destruct (Z.even (Qfloor x))); try (destruct (Z.even (Qfloor x + 1)));
      try lia; exfalso; lra.
  - assert (Np.round y <= Qfloor y + 1).
    { destruct (round_cases y) as [[_ ->]|[[_ ->]|[_ ->]]];
        [lia | lia | destruct (Z.even (Qfloor y)); lia]. }
    assert (Qfloor x <= Np.round x).
    { destruct (round_cases x) as [[_ ->]|[[_ ->]|[_ ->]]];
        [lia | lia | destruct (Z.even (Qfloor x)); lia]. }
    lia.
Qed.

(** With a unit mean span length every noise token is its own span. *)
Lemma noise_spans_unit (d m : Q) (T : Z) :
  (m == 1)%Q -> noise_spans d m T = noise_tokens d T.
Proof.
  intros E. unfold noise_spans.
  rewrite (round_comp _ (inject_Z (noise_tokens d T))).
  - apply round_inject_Z.
  - rewrite E. field.
Qed.

(** One more raw token lengthens the simulated input by at most one. *)
Lemma input_len_step_le (d m : Q) (T : Z) :
  (0 < d)%Q -> (d < 1)%Q -> (1 <= m)%Q ->
  input_len d m (T + 1) <= input_len d m T + 1.
Proof.
  intros Hd0 Hd1 Hm.
  pose proof (noise_tokens_step d Hd1 T) as Hs.
  pose proof (noise_tokens_mono d Hd0 T (T + 1) ltac:(lia)) as Hmo.
  destruct (Qlt_le_dec 1 m) as [L|G].
  - unfold input_len, noise_spans.
    destruct (Z.eq_dec (noise_tokens d (T + 1)) (noise_tokens d T)) as [E|N].
    + rewrite E. lia.
    + replace (noise_tokens d (T + 1)) with (noise_tokens d T + 1) by lia.
      assert (Np.round (inject_Z (noise_tokens d T + 1) / m)
              <= Np.round (inject_Z (noise_tokens d T) / m) + 1); [|lia].
      apply round_step. rewrite inject_Z_plus. change (inject_Z 1) with 1%Q.
      generalize (inject_Z (noise_tokens d T)). intros q.
      assert (Hi : (/ m < 1)%Q).
      { setoid_replace 1%Q with (/ 1)%Q by reflexivity.
        apply -> Qinv_lt_contravar; lra. }
      unfold Qdiv. nra.
  - assert (E : (m == 1)%Q) by lra.
    unfold input_len. rewrite !(noise_spans_unit d m _ E). lia.
Qed.

Lemma Qinv_le_anti (a m : Q) : (0 < a)%Q -> (a <= m)%Q -> (/ m <= / a)%Q.
Proof.
  intros Ha H. destruct (Qlt_le_dec a m) as [L|G].
  - apply Qlt_le_weak. apply -> Qinv_lt_contravar; lra.
  - assert (E : (m == a)%Q) by lra. rewrite E. lra.
Qed.

(** Half of a positive count, rounded, is less than the count. *)
Lemma round_half_lt (n : Z) (m : Q) :
  1 <= n -> (2 <= m)%Q -> Np.round (inject_Z n / m) <= n - 1.
Proof.
  intros Hn Hm.
  assert (Hi : (0 < / m)%Q) by (apply Qinv_lt_0_compat; lra).
  assert (Hh : (/ m <= 1 # 2)%Q).
  { apply (Qinv_le_anti 2 m); lra. }
  assert (Hq : (0 <= inject_Z n)%Q) by (unfold Qle; simpl; lia).
  assert (Hle : (inject_Z n / m <= inject_Z n * (1 # 2))%Q).
  { unfold Qdiv. revert Hq. generalize (inject_Z n). intros q Hq. nra. }
  destruct (Z.eq_dec n 1) as [->|N1].
  - pose proof (round_mono _ _ Hle) as H.
    change (Np.round (inject_Z 1 * (1 # 2))) with 0 in H. lia.
  - destruct (Z.eq_dec n 2) as [->|N2].
    + pose proof (round_mono _ _ Hle) as H.
      change (Np.round (inject_Z 2 * (1 # 2))) with 1 in H. lia.
    + destruct (round_near (inject_Z n / m)) as [Hlo _].
      apply Z_of_Q_le.
      assert (Hn3 : (3 <= inject_Z n)%Q) by (unfold Qle; simpl; lia).
      assert (Hr : (inject_Z (Np.round (inject_Z n / m)) <= inject_Z n - 1)%Q).
      { revert Hlo Hle Hn3. generalize (inject_Z (Np.round (inject_Z n / m))).
        generalize (inject_Z n / m)%Q. generalize (inject_Z n). intros; lra. }
      unfold Zminus. rewrite inject_Z_plus. exact Hr.
Qed.

Lemma round_quotient_nonpos (n : Z) (m : Q) :
  n <= 0 -> (1 <= m)%Q -> n <= Np.round (inject_Z n / m).
Proof.
  intros Hn Hm. rewrite <- (round_inject_Z n) at 1. apply round_mono.
  assert (Hi : (0 < / m)%Q) by (apply Qinv_lt_0_compat; lra).
  assert (Hh : (/ m <= 1)%Q).
  { apply (Qinv_le_anti 1 m); lra. }
  assert (Hq : (inject_Z n <= 0)%Q) by (unfold Qle; simpl; lia).
  unfold Qdiv. revert Hq. generalize (inject_Z n). intros q Hq. nra.
Qed.

(** X13: For a mean span length of at least 2 the desired length itself is a
    candidate raw length, that is, its simulated input length is at most the
    desired length, exactly when at least one of its tokens is noise. *)
Theorem planner_start_fits (W : Z) (d m : Q) (il tl : Z) :
  (2 <= m)%Q ->
  Planner.tokens_length_to_lengths d m W = Ok (il, tl) ->
  il <= W <-> 1 <= Np.round (inject_Z W * d).
Proof.
  intros Hm H. rewrite lengths_ok in H by lra. injection H as <- <-.
  unfold input_len, noise_spans. fold (noise_tokens d W).
  destruct (Z_lt_le_dec (noise_tokens d W) 1) as [L|G].
  - pose proof (round_quotient_nonpos (noise_tokens d W) m ltac:(lia) ltac:(lra)).
    lia.
  - pose proof (round_half_lt (noise_tokens d W) m G Hm). lia.
Qed.

Lemma planner_start_fits_witness :
  91 <= 100 <-> 1 <= Np.round (inject_Z 100 * (15 # 100)).
Proof.
  apply (planner_start_fits 100 (15 # 100) 3 91 21).
  - lra.
  - vm_compute. reflexivity.
Defined.



(** *** Densities outside the unit interval *)





(** ** Dataset, continued *)

(** *** Indexing *)

Lemma py_index_in_range (A : Type) (l : list A) (i : Z) :
  - Np.len l <= i < Np.len l -> exists x, Np.py_index l i = Ok x /\ In x l.
Proof.
  intros H. unfold Np.py_index.
  destruct (nth_error l (Z.to_nat (if i <? 0 then i + Np.len l else i)))
    as [x|] eqn:E.
  - exists x. split; [|eapply nth_error_In, E].
    replace (- Np.len l <=? i) with true by (symmetry; apply Z.leb_le; lia).
    replace (i <? Np.len l) with true by (symmetry; apply Z.ltb_lt; lia).
    reflexivity.
  - exfalso. apply nth_error_None in E. unfold Np.len in *.
    destruct (i <? 0) eqn:Ei; [apply Z.ltb_lt in Ei|apply Z.ltb_ge in Ei]; lia.
Qed.

Lemma py_index_out_of_range (A : Type) (l : list A) (i : Z) :
  i < - Np.len l \/ Np.len l <= i -> Np.py_index l i = Raise IndexError.
Proof.
  intros H. unfold Np.py_index.
  destruct (nth_error l (Z.to_nat (if i <? 0 then i + Np.len l else i)));
    [|reflexivity].
  replace ((- Np.len l <=? i) && (i <? Np.len l)) with false; [reflexivity|].
  symmetry. apply andb_false_iff.
  destruct H; [left; apply Z.leb_gt|right; apply Z.ltb_ge]; lia.
Qed.

(** X17: An index outside [-len(dataset), len(dataset)) raises [IndexError], and
    no random number is drawn. *)
Theorem getitem_out_of_range (self : Dataset.NonCausalMLMDataset) (idx : Z)
    (g : Np.rng) :
  idx < - Dataset.ds_len self \/ Dataset.ds_len self <= idx ->
  Dataset.getitem self idx g = Raise IndexError.
Proof.
  intros H. unfold Dataset.getitem.
  rewrite py_index_out_of_range by exact H. reflexivity.
Qed.

Lemma getitem_out_of_range_witness :
  Dataset.getitem (example_dataset (15 # 100)) 2 [1; 2; 3]%nat = Raise IndexError.
Proof.
  apply (getitem_out_of_range (example_dataset (15 # 100)) 2 [1; 2; 3]%nat).
  right. vm_compute. discriminate.
Defined.

(** *** Tokens gathered for a sample *)

Lemma gather_length (ids : Dataset.indexed_dataset) (docs : list (Z * Z))
    (s : Packer.sample) :
  Forall (fun d => Np.len (Dataset.get ids (fst d)) = snd d) docs ->
  Forall (span_in docs) s ->
  Np.len (concat (gather ids s)) = Packer.sample_len_of s.
Proof.
  intros Hd. induction 1 as [|[[doc st] e] s Hsp _ IH].
  - reflexivity.
  - cbn [gather map concat Packer.sample_len_of fold_right Packer.span_len] in *.
    fold (gather ids s). fold (Packer.sample_len_of s).
    unfold Np.len in *. rewrite length_app, Nat2Z.inj_add, IH.
    destruct Hsp as [Hr (size & Hin & Hle)].
    rewrite Forall_forall in Hd. specialize (Hd _ Hin). cbn [fst snd] in Hd.
    pose proof (py_slice_length Z (Dataset.get ids doc) st e Hr) as Hl.
    unfold Np.len in Hl. rewrite Hl by lia. reflexivity.
Qed.

Lemma gather_nonneg (ids : Dataset.indexed_dataset) (s : Packer.sample) :
  (forall doc, Forall (fun t => 0 <= t) (Dataset.get ids doc)) ->
  Forall (fun t => 0 <= t) (concat (gather ids s)).
Proof.
  intros Hg. induction s as [|[[doc st] e] s IH].
  - constructor.
  - cbn [gather map concat]. apply Forall_app. split; [|exact IH].
    unfold Np.py_slice. apply Forall_forall. intros t Ht.
    specialize (Hg doc). rewrite Forall_forall in Hg. apply Hg.
    match type of Ht with In _ (firstn ?n (skipn ?k ?l)) =>
      rewrite <- (firstn_skipn k l); apply in_or_app; right;
      rewrite <- (firstn_skipn n (skipn k l)); apply in_or_app; left; exact Ht
    end.
Qed.

(** Every sample of a built index selects exactly [max_len] tokens. *)
Lemma built_sample_tokens (ids : Dataset.indexed_dataset) (max_len : Z)
    (m : list Packer.sample) (s : Packer.sample) :
  0 <= max_len ->
  Forall (fun s => 0 <= s) (Dataset.sizes ids) ->
  Forall (fun d => Np.len (Dataset.get ids (fst d)) = snd d)
    (combine (Dataset.doc_idx ids) (Dataset.sizes ids)) ->
  Packer.get_samples_mapping None (Dataset.doc_idx ids) (Dataset.sizes ids) max_len
  = Ok m ->
  In s m ->
  Np.len (concat (gather ids s)) = max_len.
Proof.
  intros Hm Hs Hd H Hin. unfold Packer.get_samples_mapping in H.
  apply bind_Ok_inv in H. destruct H as [st [Hb H]]. injection H as <-.
  unfold Packer.build in Hb.
  destruct (packed_build_loop max_len _ _ _ (packed_init max_len) Hb) as [Hp _].
  assert (Ha : accounted max_len ([] ++ combine (Dataset.doc_idx ids) (Dataset.sizes ids)) st).
  { apply (accounted_build_loop max_len (combine (Dataset.doc_idx ids) (Dataset.sizes ids)))
      with (st := Packer.build_init); [| |exact Hb].
    - clear - Hs. revert Hs. generalize (Dataset.doc_idx ids).
      induction (Dataset.sizes ids) as [|x xs IH]; intros [|d ds] Hs;
        try constructor.
      + inversion Hs; assumption.
      + apply IH. inversion Hs; assumption.
    - split; [simpl; lia|]. split; [reflexivity|constructor]. }
  cbn [app] in Ha. destruct Ha as (_ & _ & Hsp).
  rewrite Forall_forall in Hp. rewrite <- (Hp _ Hin).
  apply (gather_length ids _ s Hd).
  apply Forall_forall. intros sp Hsp'. rewrite Forall_forall in Hsp.
  apply Hsp. unfold all_spans. apply in_or_app. left.
  apply in_concat. exists s. split; assumption.
Qed.

(** *** The planned lengths and the built sample *)

(** From raw length 10 on the clamps of the generator are idle: its noise
    and span counts are those the planner simulates. *)
Lemma default_counts_agree (L : Z) :
  10 <= L ->
  clamped_noise_tokens L (15 # 100) = noise_tokens (15 # 100) L
  /\ span_count (noise_tokens (15 # 100) L) 3 = noise_spans (15 # 100) 3 L.
Proof.
  intros HL.
  assert (Hq : (10 <= inject_Z L)%Q) by (unfold Qle; simpl; lia).
  assert (H2 : 2 <= noise_tokens (15 # 100) L).
  { change 2 with (Np.round (inject_Z 10 * (15 # 100))).
    apply round_mono. change (inject_Z 10) with 10%Q. lra. }
  assert (Hup : noise_tokens (15 # 100) L <= L - 1).
  { destruct (round_near (inject_Z L * (15 # 100))) as [Hlo _].
    fold (noise_tokens (15 # 100) L) in Hlo.
    apply Z_of_Q_le. unfold Zminus. rewrite inject_Z_plus.
    change (inject_Z (- (1))) with (- (1))%Q.
    revert Hlo Hq. generalize (inject_Z (noise_tokens (15 # 100) L)).
    generalize (inject_Z L). intros; lra. }
  split.
  - unfold clamped_noise_tokens. fold (noise_tokens (15 # 100) L). lia.
  - unfold span_count, noise_spans.
    assert (1 <= Np.round (inject_Z (noise_tokens (15 # 100) L) / 3)); [|lia].
    change 1 with (Np.round (inject_Z 2 / 3)) at 1.
    apply round_mono, quotient_mono; [lra|exact H2].
Qed.

Lemma compute_inv (fuel : nat) (W : Z) (d m : Q) (T tl : Z) :
  (1 <= m)%Q -> Qeq_bool d (1 # 2) = false ->
  Planner.compute_input_and_target_lengths fuel W d m = Some (Ok (T, tl)) ->
  Planner.search fuel W d m W = Some (Ok T) /\ tl = target_len d m T.
Proof.
  intros Hm Hd H. unfold Planner.compute_input_and_target_lengths in H.
  destruct (Planner.search fuel W d m W) as [[T0|e]|] eqn:ES.
  - rewrite (run_after_search W d m Hm fuel T0 ES), Hd in H.
    cbn [andb bind Planner.tokens_length Planner.targets_length] in H.
    injection H as <- <-. split; reflexivity.
  - unfold Planner.run in H. rewrite ES in H. discriminate H.
  - unfold Planner.run in H. rewrite ES in H. discriminate H.
Qed.

(** X18: A dataset built with [masked_lm_prob] 0.15 for a sequence length W >= 10
    over a corpus of non-negative token ids, with a vocabulary of at least W
    entries, returns at every index in range a sample without padding: its
    input part has exactly W tokens, [prefix_len] = [max_seq_length], and
    its target part has [targets_length] tokens. *)
Theorem getitem_fills_window (fuel : nat) (tok : Dataset.tokenizer)
    (ids : Dataset.indexed_dataset) (W seed : Z)
    (ds : Dataset.NonCausalMLMDataset) (idx : Z) (g : Np.rng) :
  Dataset.init fuel None tok ids (15 # 100) W seed = Some (Ok ds) ->
  10 <= W ->
  W <= Np.len (Dataset.inv_vocab_keys tok) ->
  Forall (fun s => 0 <= s) (Dataset.sizes ids) ->
  Forall (fun d => Np.len (Dataset.get ids (fst d)) = snd d)
    (combine (Dataset.doc_idx ids) (Dataset.sizes ids)) ->
  (forall doc, Forall (fun t => 0 <= t) (Dataset.get ids doc)) ->
  - Dataset.ds_len ds <= idx < Dataset.ds_len ds ->
  exists ts g',
    Dataset.getitem ds idx g = Ok (ts, g')
    /\ Sentinel.prefix_len ts = Dataset.max_seq_length ds
    /\ Np.len (Sentinel.text ts)
       = Dataset.max_seq_length ds + Dataset.targets_length ds.
Proof.
  intros Hi HW Hv Hs Hd Hg Hidx.
  destruct (init_inv _ _ _ _ _ _ _ _ Hi) as (T & tl & m & EP & EM & ->).
  destruct (compute_inv fuel W (15 # 100) 3 T tl ltac:(lra) eq_refl EP)
    as [ES ->].
  destruct (search_sound W (15 # 100) 3 ltac:(lra) fuel W T ES) as (H1 & H2 & H3).
  destruct (default_counts_agree W HW) as [CW _].
  assert (Hfit : input_len (15 # 100) 3 W <= W).
  { pose proof (round_half_lt (noise_tokens (15 # 100) W) 3) as Hh.
    assert (2 <= noise_tokens (15 # 100) W).
    { change 2 with (Np.round (inject_Z 10 * (15 # 100))).
      apply round_mono.
      assert (Hq : (10 <= inject_Z W)%Q) by (unfold Qle; simpl; lia).
      change (inject_Z 10) with 10%Q. lra. }
    unfold input_len, noise_spans. specialize (Hh ltac:(lia) ltac:(lra)). lia. }
  assert (Hle : input_len (15 # 100) 3 T <= W).
  { destruct (Z.eq_dec T W) as [->|N]; [exact Hfit|]. apply H3. lia. }
  pose proof (input_len_step_le (15 # 100) 3 T ltac:(lra) ltac:(lra) ltac:(lra))
    as Hst.
  assert (E : input_len (15 # 100) 3 T = W) by lia.
  destruct (default_counts_agree T ltac:(lia)) as [CT ST].
  unfold Dataset.ds_len, dataset_of in Hidx. cbn [Dataset.samples_mapping] in Hidx.
  destruct (py_index_in_range _ m idx Hidx) as (s & Ex & Hin).
  pose proof (built_sample_tokens ids T m s ltac:(lia) Hs Hd EM Hin) as Hlen.
  pose proof (build_training_sample_lengths (gather ids s) T
                (Dataset.inv_vocab_keys tok) (Dataset.cls tok) (Dataset.sep tok)
                (Dataset.mask tok) (Dataset.pad tok) (Dataset.bos_token_id tok)
                (Dataset.eos_token_id tok)
                (Dataset.additional_special_tokens_ids tok) g) as Hb.
  cbv zeta in Hb. rewrite CT, ST in Hb.
  destruct Hb as (ts & g' & Eb & Hp & Ht);
    [lia | exact Hlen | apply gather_nonneg, Hg | |].
  { unfold input_len in E.
    pose proof (noise_tokens_upper (15 # 100) T) as Hup. cbn [Qnum Qden] in Hup.
    lia. }
  exists ts, g'. split.
  - unfold Dataset.getitem, dataset_of.
    cbn [Dataset.samples_mapping Dataset.the_indexed_dataset
         Dataset.expanded_inputs_length Dataset.vocab_id_list Dataset.cls_id
         Dataset.sep_id Dataset.mask_id Dataset.pad_id Dataset.bos_id
         Dataset.eos_id Dataset.sentinel_tokens].
    rewrite Ex. cbn [bind]. exact Eb.
  - unfold dataset_of. cbn [Dataset.max_seq_length Dataset.targets_length].
    unfold input_len, target_len in *. split; lia.
Qed.

Lemma getitem_fills_window_witness :
  exists ts g',
    Dataset.getitem
      (dataset_of example_tokenizer example_documents 1234 (15 # 100) 10 10 4
         [[(0, 0, 6); (1, 0, 4)]]) 0 [3; 1; 4; 1; 5]%nat
    = Ok (ts, g')
    /\ Sentinel.prefix_len ts
       = Dataset.max_seq_length
           (dataset_of example_tokenizer example_documents 1234 (15 # 100) 10 10 4
              [[(0, 0, 6); (1, 0, 4)]])
    /\ Np.len (Sentinel.text ts)
       = Dataset.max_seq_length
           (dataset_of example_tokenizer example_documents 1234 (15 # 100) 10 10 4
              [[(0, 0, 6); (1, 0, 4)]])
         + Dataset.targets_length
             (dataset_of example_tokenizer example_documents 1234 (15 # 100) 10 10 4
                [[(0, 0, 6); (1, 0, 4)]]).
Proof.
  apply (getitem_fills_window 5 example_tokenizer example_documents 10 1234
           (dataset_of example_tokenizer example_documents 1234 (15 # 100) 10 10 4
              [[(0, 0, 6); (1, 0, 4)]]) 0 [3; 1; 4; 1; 5]%nat).
  - vm_compute. reflexivity.
  - lia.
  - vm_compute. discriminate.
  - repeat constructor; lia.
  - repeat constructor.
  - intros doc. cbn [Dataset.get example_documents].
    destruct (doc =? 0); [|destruct (doc =? 1)]; repeat constructor; lia.
  - vm_compute. split; [discriminate|reflexivity].
Defined.

(** *** Size of the index *)

Lemma combine_nonneg (doc_idx sizes : list Z) :
  Forall (fun s => 0 <= s) sizes ->
  Forall (fun d => 0 <= snd d) (combine doc_idx sizes).
Proof.
  intros Hs. revert doc_idx.
  induction Hs as [|x xs Hx _ IH]; intros [|d ds]; try constructor;
    [exact Hx | apply IH].
Qed.

Lemma index_size (doc_idx sizes : list Z) (max_len : Z) (m : list Packer.sample) :
  0 <= max_len ->
  Forall (fun s => 0 <= s) sizes ->
  Packer.get_samples_mapping None doc_idx sizes max_len = Ok m ->
  Np.len m * max_len <= total_size (combine doc_idx sizes)
  /\ total_size (combine doc_idx sizes) <= (Np.len m + 1) * max_len.
Proof.
  intros Hm Hs H. unfold Packer.get_samples_mapping in H.
  apply bind_Ok_inv in H. destruct H as [st [Hb H]]. injection H as <-.
  unfold Packer.build in Hb.
  assert (Ha : accounted max_len ([] ++ combine doc_idx sizes) st).
  { apply (accounted_build_loop max_len (combine doc_idx sizes))
      with (st := Packer.build_init);
      [apply combine_nonneg, Hs | | exact Hb].
    split; [simpl; lia|]. split; [reflexivity|constructor]. }
  cbn [app] in Ha. destruct Ha as (Hc & Hn & _). lia.
Qed.

(** X19: On a corpus whose documents are all shorter than the window the build
    returns an index, and the index leaves out at most one window of
    tokens: len(index) * max_len <= total <= (len(index) + 1) * max_len. *)
Theorem index_of_short_documents (doc_idx sizes : list Z) (max_len : Z) :
  0 <= max_len ->
  Forall (fun s => 0 <= s < max_len) sizes ->
  exists m,
    Packer.get_samples_mapping None doc_idx sizes max_len = Ok m
    /\ Np.len m * max_len <= total_size (combine doc_idx sizes)
    /\ total_size (combine doc_idx sizes) <= (Np.len m + 1) * max_len.
Proof.
  intros Hm Hs.
  destruct (build_short_documents doc_idx sizes max_len Hm Hs) as [st Hb].
  assert (E : Packer.get_samples_mapping None doc_idx sizes max_len
              = Ok (Packer.samples_mapping st))
    by (unfold Packer.get_samples_mapping; rewrite Hb; reflexivity).
  exists (Packer.samples_mapping st). split; [exact E|].
  apply (index_size doc_idx sizes max_len _ Hm); [|exact E].
  eapply Forall_impl; [|exact Hs]. cbv beta. intros; lia.
Qed.

Lemma index_of_short_documents_witness :
  exists m,
    Packer.get_samples_mapping None [0; 1; 2; 3] [6; 7; 5] 10 = Ok m
    /\ Np.len m * 10 <= total_size (combine [0; 1; 2; 3] [6; 7; 5])
    /\ total_size (combine [0; 1; 2; 3] [6; 7; 5]) <= (Np.len m + 1) * 10.
Proof.
  apply (index_of_short_documents [0; 1; 2; 3] [6; 7; 5] 10).
  - lia.
  - repeat constructor; lia.
Defined.

Lemma compute_inv_any (fuel : nat) (W : Z) (d m : Q) (T tl : Z) :
  (1 <= m)%Q ->
  Planner.compute_input_and_target_lengths fuel W d m = Some (Ok (T, tl)) ->
  exists T0, Planner.search fuel W d m W = Some (Ok T0) /\ T0 - 1 <= T <= T0.
Proof.
  intros Hm H. unfold Planner.compute_input_and_target_lengths in H.
  destruct (Planner.search fuel W d m W) as [[T0|e]|] eqn:ES.
  - exists T0. split; [reflexivity|].
    rewrite (run_after_search W d m Hm fuel T0 ES) in H.
    destruct (Qeq_bool d (1 # 2) && (target_len d m T0 >? input_len d m T0));
      cbn [bind Planner.tokens_length Planner.targets_length] in H;
      injection H as <- <-; lia.
  - unfold Planner.run in H. rewrite ES in H. discriminate H.
  - unfold Planner.run in H. rewrite ES in H. discriminate H.
Qed.

(** X20: The number of samples of a dataset built for a sequence length W >= 1:
    with T = [expanded_inputs_length] >= W - 1 the raw length of a sample,
    len(dataset) * T <= total <= (len(dataset) + 1) * T for the total
    number of tokens of the corpus. *)
Theorem dataset_len_bounds (fuel : nat) (tok : Dataset.tokenizer)
    (ids : Dataset.indexed_dataset) (p : Q) (W seed : Z)
    (ds : Dataset.NonCausalMLMDataset) :
  Dataset.init fuel None tok ids p W seed = Some (Ok ds) ->
  1 <= W ->
  Forall (fun s => 0 <= s) (Dataset.sizes ids) ->
  W - 1 <= Dataset.expanded_inputs_length ds
  /\ Dataset.ds_len ds * Dataset.expanded_inputs_length ds
     <= total_size (combine (Dataset.doc_idx ids) (Dataset.sizes ids))
  /\ total_size (combine (Dataset.doc_idx ids) (Dataset.sizes ids))
     <= (Dataset.ds_len ds + 1) * Dataset.expanded_inputs_length ds.
Proof.
  intros Hi HW Hs.
  destruct (init_inv _ _ _ _ _ _ _ _ Hi) as (T & tl & m & EP & EM & ->).
  destruct (compute_inv_any fuel W p 3 T tl ltac:(lra) EP) as (T0 & ES & HT).
  destruct (search_sound W p 3 ltac:(lra) fuel W T0 ES) as (H1 & _ & _).
  unfold Dataset.ds_len, dataset_of.
  cbn [Dataset.samples_mapping Dataset.expanded_inputs_length].
  split; [lia|]. apply (index_size _ _ T m ltac:(lia) Hs EM).
Qed.

Lemma dataset_len_bounds_witness :
  10 - 1 <= Dataset.expanded_inputs_length
              (dataset_of example_tokenizer example_documents 1234 (15 # 100)
                 10 10 4 [[(0, 0, 6); (1, 0, 4)]])
  /\ Dataset.ds_len
       (dataset_of example_tokenizer example_documents 1234 (15 # 100)
          10 10 4 [[(0, 0, 6); (1, 0, 4)]])
     * Dataset.expanded_inputs_length
         (dataset_of example_tokenizer example_documents 1234 (15 # 100)
            10 10 4 [[(0, 0, 6); (1, 0, 4)]])
     <= total_size (combine (Dataset.doc_idx example_documents)
                      (Dataset.sizes example_documents))
  /\ total_size (combine (Dataset.doc_idx example_documents)
                   (Dataset.sizes example_documents))
     <= (Dataset.ds_len
           (dataset_of example_tokenizer example_documents 1234 (15 # 100)
              10 10 4 [[(0, 0, 6); (1, 0, 4)]]) + 1)
        * Dataset.expanded_inputs_length
            (dataset_of example_tokenizer example_documents 1234 (15 # 100)
               10 10 4 [[(0, 0, 6); (1, 0, 4)]]).
Proof.
  apply (dataset_len_bounds 5 example_tokenizer example_documents (15 # 100)
           10 1234).
  - vm_compute. reflexivity.
  - lia.
  - repeat constructor; lia.
Defined.

(** ** Evaluation harness *)

(** *** The input window *)

Lemma removelast_skipn (A : Type) (k : nat) :
  forall l : list A, removelast (skipn k l) = skipn k (removelast l).
Proof.
  induction k as [|k IH]; intros l; [reflexivity|].
  destruct l as [|x [|y l]]; [reflexivity | destruct k; reflexivity |].
  change (removelast (x :: y :: l)) with (x :: removelast (y :: l)).
  cbn [skipn]. apply (IH (y :: l)).
Qed.

Lemma input_window_eq (max_length : Z) (context_enc continuation_enc : list Z) :
  0 <= max_length ->
  EvalHarness.input_window max_length context_enc continuation_enc
  = skipn (Z.to_nat (Np.len (context_enc ++ continuation_enc) - (max_length + 1)))
      (removelast (context_enc ++ continuation_enc)).
Proof.
  intros HM. unfold EvalHarness.input_window.
  set (toks := context_enc ++ continuation_enc).
  set (k := Z.to_nat (Np.len toks - (max_length + 1))).
  assert (E1 : Np.py_slice toks (- (max_length + 1)) (Np.len toks) = skipn k toks).
  { unfold Np.py_slice.
    replace (- (max_length + 1) <? 0) with true by (symmetry; apply Z.ltb_lt; lia).
    replace (Np.len toks <? 0) with false
      by (symmetry; apply Z.ltb_ge; unfold Np.len; lia).
    rewrite Z.min_id.
    replace (Z.to_nat (Z.max (- (max_length + 1) + Np.len toks) 0)) with k
      by (unfold k; lia).
    apply firstn_all2. rewrite length_skipn. unfold k, Np.len. lia. }
  rewrite E1. unfold Np.py_slice.
  change (0 <? 0) with false. change (-1 <? 0) with true.
  replace (Z.min 0 (Np.len (skipn k toks))) with 0
    by (unfold Np.len; lia).
  rewrite Z.sub_0_r. cbn [Z.to_nat skipn].
  replace (Z.to_nat (Z.max (-1 + Np.len (skipn k toks)) 0))
    with (pred (length (skipn k toks))) by (unfold Np.len; lia).
  rewrite <- removelast_firstn_len. apply removelast_skipn.
Qed.

Lemma input_window_length (max_length : Z) (context_enc continuation_enc : list Z) :
  0 <= max_length ->
  Np.len (EvalHarness.input_window max_length context_enc continuation_enc)
  = Z.max (Z.min (Np.len (context_enc ++ continuation_enc)) (max_length + 1) - 1) 0.
Proof.
  intros HM. rewrite input_window_eq by exact HM. unfold Np.len.
  rewrite length_skipn, removelast_firstn_len, length_firstn. lia.
Qed.

(** X21: The input of a request is cut out of its tokens, context followed by
    continuation: the last token is dropped, and so are the leading tokens
    beyond the last [max_length + 1]; at most [max_length] tokens remain. *)
Theorem input_window_truncates (max_length : Z)
    (context_enc continuation_enc : list Z) :
  0 <= max_length ->
  context_enc ++ continuation_enc <> [] ->
  exists dropped x,
    context_enc ++ continuation_enc
    = dropped
        ++ EvalHarness.input_window max_length context_enc continuation_enc
        ++ [x]
    /\ Np.len (EvalHarness.input_window max_length context_enc continuation_enc)
       = Z.min (Np.len (context_enc ++ continuation_enc)) (max_length + 1) - 1.
Proof.
  intros HM Hne.
  set (toks := context_enc ++ continuation_enc) in *.
  set (k := Z.to_nat (Np.len toks - (max_length + 1))).
  exists (firstn k (removelast toks)), (last toks 0). split.
  - rewrite input_window_eq by exact HM. fold toks. fold k.
    rewrite app_assoc, firstn_skipn. apply app_removelast_last, Hne.
  - rewrite input_window_length by exact HM. fold toks.
    assert (1 <= Np.len toks); [|lia].
    unfold Np.len. destruct toks; [congruence|]. cbn [length]. lia.
Qed.

Lemma input_window_truncates_witness :
  exists dropped x,
    [1; 2; 3] ++ [4; 5]
    = dropped ++ EvalHarness.input_window 3 [1; 2; 3] [4; 5] ++ [x]
    /\ Np.len (EvalHarness.input_window 3 [1; 2; 3] [4; 5])
       = Z.min (Np.len ([1; 2; 3] ++ [4; 5])) (3 + 1) - 1.
Proof.
  apply (input_window_truncates 3 [1; 2; 3] [4; 5]).
  - lia.
  - discriminate.
Defined.

(** *** The batch of a chunk *)

Lemma zeros_nonneg (n : Z) :
  0 <= n -> EvalHarness.zeros n = Some (repeat 0 (Z.to_nat n)).
Proof.
  intros H. unfold EvalHarness.zeros.
  replace (n <? 0) with false by (symmetry; apply Z.ltb_ge; lia). reflexivity.
Qed.

Lemma add_request_fits (K : Type) (deepspeed : bool) (max_length p : Z)
    (st : EvalHarness.chunk_state) (x : EvalHarness.request K) :
  (if deepspeed then max_length
   else match EvalHarness.padding_length st with
        | Some q => q
        | None => Np.len (window_of max_length x)
        end) = p ->
  Np.len (window_of max_length x) <= p ->
  EvalHarness.add_request deepspeed max_length st x
  = Some (EvalHarness.mk_chunk_state
            (EvalHarness.inps st ++ [padded_row max_length p x])
            (EvalHarness.contlens st ++ [snd x])
            (EvalHarness.inplens st ++ [Np.len (window_of max_length x)])
            (Some p)).
Proof.
  destruct x as [[key context_enc] continuation_enc].
  unfold EvalHarness.add_request, padded_row, window_of. cbn [snd].
  intros Hp Hle. rewrite Hp, zeros_nonneg by lia. reflexivity.
Qed.

(** Requests whose windows fit in [p] are all padded to [p]. *)
Lemma add_requests_fit (K : Type) (deepspeed : bool) (max_length p : Z)
    (chunk : list (EvalHarness.request K)) :
  Forall (fun x => Np.len (window_of max_length x) <= p) chunk ->
  forall st,
  (if deepspeed then max_length = p else EvalHarness.padding_length st = Some p) ->
  chunk <> [] ->
  EvalHarness.add_requests deepspeed max_length st chunk
  = Some (EvalHarness.mk_chunk_state
            (EvalHarness.inps st ++ map (padded_row max_length p) chunk)
            (EvalHarness.contlens st ++ map snd chunk)
            (EvalHarness.inplens st
               ++ map (fun x => Np.len (window_of max_length x)) chunk)
            (Some p)).
Proof.
  induction 1 as [|x chunk Hx Hc IH]; intros st Hp Hne; [congruence|].
  cbn [EvalHarness.add_requests].
  rewrite (add_request_fits K deepspeed max_length p st x); [| |exact Hx].
  - destruct chunk as [|y chunk].
    + reflexivity.
    + rewrite IH; [| |discriminate].
      * cbn [EvalHarness.inps EvalHarness.contlens EvalHarness.inplens map].
        rewrite <- !app_assoc. reflexivity.
      * destruct deepspeed; [exact Hp|reflexivity].
  - destruct deepspeed; [exact Hp|]. rewrite Hp. reflexivity.
Qed.

Lemma padded_row_length (K : Type) (max_length p : Z) (x : EvalHarness.request K) :
  Np.len (window_of max_length x) <= p ->
  length (padded_row max_length p x) = Z.to_nat p.
Proof.
  intros H. unfold padded_row. rewrite length_app, repeat_length.
  unfold Np.len in *. lia.
Qed.

Lemma cat_rows_uniform (rows : list (list Z)) (n : nat) :
  rows <> [] -> Forall (fun r => length r = n) rows ->
  EvalHarness.cat_rows rows = Some rows.
Proof.
  intros Hne H. destruct rows as [|r rest]; [congruence|].
  inversion H as [|? ? Hr Hrest]; subst. unfold EvalHarness.cat_rows.
  replace (forallb _ rest) with true; [reflexivity|].
  symmetry. apply forallb_forall. intros r' Hin.
  rewrite Forall_forall in Hrest. rewrite (Hrest _ Hin). apply Nat.eqb_refl.
Qed.

Lemma batch_fit (K : Type) (deepspeed : bool) (max_length p : Z)
    (x0 : EvalHarness.request K) (rest : list (EvalHarness.request K)) :
  (if deepspeed then max_length else Np.len (window_of max_length x0)) = p ->
  Forall (fun x => Np.len (window_of max_length x) <= p) (x0 :: rest) ->
  EvalHarness.batch deepspeed max_length (x0 :: rest)
  = Some (map (padded_row max_length p) (x0 :: rest),
          EvalHarness.mk_chunk_state
            (map (padded_row max_length p) (x0 :: rest))
            (map snd (x0 :: rest))
            (map (fun x => Np.len (window_of max_length x)) (x0 :: rest))
            (Some p)).
Proof.
  intros Hp Hall. unfold EvalHarness.batch.
  inversion Hall as [|? ? H0 Hrest]; subst x l.
  cbn [EvalHarness.add_requests].
  rewrite (add_request_fits K deepspeed max_length p EvalHarness.chunk_init x0);
    [|destruct deepspeed; exact Hp|exact H0].
  assert (E : EvalHarness.add_requests deepspeed max_length
                (EvalHarness.mk_chunk_state
                   (EvalHarness.inps EvalHarness.chunk_init
                      ++ [padded_row max_length p x0])
                   (EvalHarness.contlens EvalHarness.chunk_init ++ [snd x0])
                   (EvalHarness.inplens EvalHarness.chunk_init
                      ++ [Np.len (window_of max_length x0)])
                   (Some p)) rest
              = Some (EvalHarness.mk_chunk_state
                        (map (padded_row max_length p) (x0 :: rest))
                        (map snd (x0 :: rest))
                        (map (fun x => Np.len (window_of max_length x)) (x0 :: rest))
                        (Some p))).
  { destruct rest as [|y rest]; [reflexivity|].
    rewrite (add_requests_fit K deepspeed max_length p (y :: rest) Hrest);
      [reflexivity | | discriminate].
    destruct deepspeed; [exact Hp|reflexivity]. }
  rewrite E. cbn [EvalHarness.inps].
  rewrite (cat_rows_uniform _ (Z.to_nat p)); [reflexivity|discriminate|].
  apply Forall_forall. intros r Hin. apply in_map_iff in Hin.
  destruct Hin as (x & <- & Hin). apply padded_row_length.
  rewrite Forall_forall in Hall. apply Hall, Hin.
Qed.

Lemma window_of_length (K : Type) (max_length : Z) (x : EvalHarness.request K) :
  0 <= max_length ->
  Np.len (window_of max_length x)
  = Z.max (Z.min (- fst (EvalHarness._collate x)) (max_length + 1) - 1) 0.
Proof.
  destruct x as [[key context_enc] continuation_enc]. intros HM.
  unfold window_of, EvalHarness._collate. cbn [fst].
  rewrite input_window_length by exact HM. lia.
Qed.

(** X22: Under deepspeed every row of the batch of a chunk has [max_length]
    entries, the input window followed by zeros, whatever the order of the
    requests; no error of the tensor library occurs. *)
Theorem batch_deepspeed (K : Type) (max_length : Z)
    (chunk : list (EvalHarness.request K)) :
  0 <= max_length ->
  chunk <> [] ->
  exists st,
    EvalHarness.batch true max_length chunk
    = Some (map (padded_row max_length max_length) chunk, st)
    /\ EvalHarness.padding_length st = Some max_length
    /\ Forall (fun r => Np.len r = max_length)
         (map (padded_row max_length max_length) chunk).
Proof.
  intros HM Hne. destruct chunk as [|x0 rest]; [congruence|].
  assert (Hall : Forall (fun x => Np.len (window_of max_length x) <= max_length)
                   (x0 :: rest)).
  { apply Forall_forall. intros x _. rewrite window_of_length by exact HM. lia. }
  rewrite (batch_fit K true max_length max_length x0 rest eq_refl Hall).
  eexists. split; [reflexivity|]. split; [reflexivity|].
  apply Forall_forall. intros r Hin. apply in_map_iff in Hin.
  destruct Hin as (x & <- & Hin). unfold Np.len at 1.
  rewrite padded_row_length; [lia|].
  rewrite Forall_forall in Hall. apply Hall, Hin.
Qed.

Lemma batch_deepspeed_witness :
  exists st,
    EvalHarness.batch true 4 [(tt, [1; 2], [3]); (tt, [1; 2; 3; 4; 5], [6; 7])]
    = Some (map (padded_row 4 4) [(tt, [1; 2], [3]); (tt, [1; 2; 3; 4; 5], [6; 7])],
            st)
    /\ EvalHarness.padding_length st = Some 4
    /\ Forall (fun r => Np.len r = 4)
         (map (padded_row 4 4) [(tt, [1; 2], [3]); (tt, [1; 2; 3; 4; 5], [6; 7])]).
Proof.
  apply (batch_deepspeed unit 4 [(tt, [1; 2], [3]); (tt, [1; 2; 3; 4; 5], [6; 7])]).
  - lia.
  - discriminate.
Defined.

(** X23: Without deepspeed, when the first request of the chunk has the least
    key of [_collate], that is, the most tokens, every row of the batch has
    the length of the first input window and no error occurs. *)
Theorem batch_longest_first (K : Type) (max_length : Z)
    (x0 : EvalHarness.request K) (rest : list (EvalHarness.request K)) :
  0 <= max_length ->
  longest_first (x0 :: rest) ->
  exists st,
    EvalHarness.batch false max_length (x0 :: rest)
    = Some (map (padded_row max_length (Np.len (window_of max_length x0)))
              (x0 :: rest), st)
    /\ EvalHarness.padding_length st = Some (Np.len (window_of max_length x0))
    /\ EvalHarness.inplens st
       = map (fun x => Np.len (window_of max_length x)) (x0 :: rest)
    /\ Forall (fun r => Np.len r = Np.len (window_of max_length x0))
         (map (padded_row max_length (Np.len (window_of max_length x0)))
            (x0 :: rest)).
Proof.
  intros HM Hs. cbn [longest_first] in Hs.
  assert (Hall : Forall (fun x => Np.len (window_of max_length x)
                                  <= Np.len (window_of max_length x0))
                   (x0 :: rest)).
  { constructor; [lia|]. eapply Forall_impl; [|exact Hs]. cbv beta.
    intros x Hx. rewrite !window_of_length by exact HM. lia. }
  rewrite (batch_fit K false max_length _ x0 rest eq_refl Hall).
  eexists. split; [reflexivity|]. split; [reflexivity|]. split; [reflexivity|].
  apply Forall_forall. intros r Hin. apply in_map_iff in Hin.
  destruct Hin as (x & <- & Hin). unfold Np.len at 1.
  rewrite padded_row_length; [unfold Np.len; lia|].
  rewrite Forall_forall in Hall. apply Hall, Hin.
Qed.

Lemma batch_longest_first_witness :
  exists st,
    EvalHarness.batch false 4 [(tt, [1; 2; 3; 4; 5], [6; 7]); (tt, [1; 2], [3])]
    = Some (map (padded_row 4
                   (Np.len (window_of 4 (tt, [1; 2; 3; 4; 5], [6; 7]))))
              [(tt, [1; 2; 3; 4; 5], [6; 7]); (tt, [1; 2], [3])], st)
    /\ EvalHarness.padding_length st
       = Some (Np.len (window_of 4 (tt, [1; 2; 3; 4; 5], [6; 7])))
    /\ EvalHarness.inplens st
       = map (fun x => Np.len (window_of 4 x))
           [(tt, [1; 2; 3; 4; 5], [6; 7]); (tt, [1; 2], [3])]
    /\ Forall (fun r => Np.len r
                        = Np.len (window_of 4 (tt, [1; 2; 3; 4; 5], [6; 7])))
         (map (padded_row 4 (Np.len (window_of 4 (tt, [1; 2; 3; 4; 5], [6; 7]))))
            [(tt, [1; 2; 3; 4; 5], [6; 7]); (tt, [1; 2], [3])]).
Proof.
  apply (batch_longest_first unit 4 (tt, [1; 2; 3; 4; 5], [6; 7])
           [(tt, [1; 2], [3])]).
  - lia.
  - repeat constructor. vm_compute. discriminate.
Defined.

(** *** The scored rows *)

(** X25: For a request with a context and a continuation of at most
    [max_length] tokens, the positions [inplen - contlen .. inplen - 1] that
    are scored hold, in the padded input row, the token before each
    continuation token: the last context token, then the continuation
    without its last token. *)
Theorem scored_alignment (max_length : Z)
    (context_enc continuation_enc padding : list Z) :
  0 <= max_length ->
  context_enc <> [] ->
  Np.len continuation_enc <= max_length ->
  EvalHarness.scored
    (EvalHarness.input_window max_length context_enc continuation_enc ++ padding)
    (Np.len (EvalHarness.input_window max_length context_enc continuation_enc))
    continuation_enc
  = removelast (last context_enc 0 :: continuation_enc).
Proof.
  intros HM Hctx Hc.
  destruct (exists_last Hctx) as (ctx' & a & ->). rewrite last_last.
  destruct (list_eq_dec Z.eq_dec continuation_enc []) as [->|Hcont].
  - unfold EvalHarness.scored. change (Np.len []) with 0. rewrite Z.sub_0_r.
    rewrite py_slice_inside.
    + rewrite Z.sub_diag. reflexivity.
    + unfold Np.len. lia.
    + unfold Np.len. rewrite length_app. lia.
  - destruct (exists_last Hcont) as (cont' & b & ->).
    rewrite input_window_eq by exact HM.
    set (k := Z.to_nat (Np.len ((ctx' ++ [a]) ++ cont' ++ [b]) - (max_length + 1))).
    assert (Hk : (k <= length ctx')%nat).
    { unfold k, Np.len in *. rewrite !length_app in *. cbn [length] in *. lia. }
    replace ((ctx' ++ [a]) ++ cont' ++ [b]) with ((ctx' ++ a :: cont') ++ [b])
      by (rewrite <- !app_assoc; reflexivity).
    rewrite removelast_last.
    change (a :: cont' ++ [b]) with ((a :: cont') ++ [b]). rewrite removelast_last.
    rewrite skipn_app.
    replace (k - length ctx')%nat with O by lia. cbn [skipn].
    unfold EvalHarness.scored. rewrite py_slice_inside.
    + replace (Np.len (skipn k ctx' ++ a :: cont')
               - (Np.len (skipn k ctx' ++ a :: cont') - Np.len (cont' ++ [b])))
        with (Np.len (a :: cont'))
        by (unfold Np.len; rewrite !length_app; cbn [length]; lia).
      replace (Z.to_nat (Np.len (skipn k ctx' ++ a :: cont') - Np.len (cont' ++ [b])))
        with (length (skipn k ctx'))
        by (unfold Np.len; rewrite !length_app; cbn [length]; lia).
      rewrite <- !app_assoc, skipn_app, Nat.sub_diag, skipn_all. cbn [app skipn].
      change (a :: cont' ++ padding) with ((a :: cont') ++ padding).
      unfold Np.len. rewrite Nat2Z.id, firstn_app, Nat.sub_diag, firstn_all.
      cbn [firstn]. apply app_nil_r.
    + unfold Np.len. rewrite !length_app. cbn [length]. lia.
    + unfold Np.len. rewrite !length_app. lia.
Qed.

Lemma scored_alignment_witness :
  EvalHarness.scored (EvalHarness.input_window 4 [1; 2; 3; 4; 5] [6; 7] ++ [0; 0])
    (Np.len (EvalHarness.input_window 4 [1; 2; 3; 4; 5] [6; 7])) [6; 7]
  = removelast (last [1; 2; 3; 4; 5] 0 :: [6; 7]).
Proof.
  apply (scored_alignment 4 [1; 2; 3; 4; 5] [6; 7] [0; 0]).
  - lia.
  - discriminate.
  - vm_compute. discriminate.
Defined.

(** X26: The slice [logits[inplen - contlen:inplen]] has one row per continuation
    token exactly when the continuation is not longer than the input: for
    a longer one the start of the slice is negative and counts from the end
    of the padded row, which leaves fewer rows. *)
Theorem scored_row_count (A : Type) (logits : list A) (inplen : Z)
    (cont_toks : list Z) :
  0 <= inplen <= Np.len logits ->
  Np.len (EvalHarness.scored logits inplen cont_toks) = Np.len cont_toks
  <-> Np.len cont_toks <= inplen.
Proof.
  intros H. unfold EvalHarness.scored.
  destruct (Z_le_gt_dec (Np.len cont_toks) inplen) as [L|G].
  - rewrite py_slice_length by (unfold Np.len in *; lia). lia.
  - split; [|lia]. unfold Np.py_slice.
    replace (inplen - Np.len cont_toks <? 0) with true
      by (symmetry; apply Z.ltb_lt; lia).
    replace (inplen <? 0) with false by (symmetry; apply Z.ltb_ge; lia).
    unfold Np.len in *. rewrite length_firstn, length_skipn. lia.
Qed.

Lemma scored_row_count_witness :
  Np.len (EvalHarness.scored [10; 20; 30; 40] 2 [6; 7; 8]) = Np.len [6; 7; 8]
  <-> Np.len [6; 7; 8] <= 2.
Proof.
  apply (scored_row_count Z [10; 20; 30; 40] 2 [6; 7; 8]).
  vm_compute. split; discriminate.
Defined.

(** *** Padding of the batch under deepspeed *)

Lemma new_size_multiple (n micro_batch_size : Z) :
  0 < micro_batch_size ->
  exists k,
    EvalHarness.new_size n micro_batch_size = Ok (k * micro_batch_size)
    /\ n <= k * micro_batch_size < n + micro_batch_size.
Proof.
  intros H. exists ((n + micro_batch_size - 1) / micro_batch_size). split.
  - unfold EvalHarness.new_size.
    replace (micro_batch_size =? 0) with false
      by (symmetry; apply Z.eqb_neq; lia).
    reflexivity.
  - pose proof (Z.div_mod (n + micro_batch_size - 1) micro_batch_size ltac:(lia)).
    pose proof (Z.mod_pos_bound (n + micro_batch_size - 1) micro_batch_size H).
    nia.
Qed.

(** X27: For a positive micro batch size [new_size] is the least multiple of it
    that is not below the number of rows, and it is the only multiple in
    that range. *)
Theorem new_size_least_multiple (n micro_batch_size size : Z) :
  0 < micro_batch_size ->
  EvalHarness.new_size n micro_batch_size = Ok size ->
  (micro_batch_size | size)
  /\ n <= size < n + micro_batch_size
  /\ forall j, n <= j * micro_batch_size -> size <= j * micro_batch_size.
Proof.
  intros H E.
  destruct (new_size_multiple n micro_batch_size H) as (k & E' & Hk).
  rewrite E' in E. injection E as <-.
  split; [exists k; reflexivity|]. split; [exact Hk|].
  intros j Hj.
  destruct (Z_le_gt_dec k j) as [L|G].
  - apply Z.mul_le_mono_nonneg_r; lia.
  - assert ((j + 1) * micro_batch_size <= k * micro_batch_size)
      by (apply Z.mul_le_mono_nonneg_r; lia).
    lia.
Qed.

Lemma new_size_least_multiple_witness :
  (4 | 8)
  /\ 5 <= 8 < 5 + 4
  /\ forall j, 5 <= j * 4 -> 8 <= j * 4.
Proof. apply (new_size_least_multiple 5 4 8); [lia|reflexivity]. Defined.

(** X28: The padded batch keeps the rows of the batch in front and appends
    [new_size] rows, not the difference to [new_size]: it has
    len(inps) + new_size rows, at least twice as many as the batch, and its
    number of rows is a multiple of the micro batch size only if that of
    the batch already is. *)
Theorem padded_row_count (inps : list (list Z)) (micro_batch_size : Z) :
  0 < micro_batch_size ->
  exists size rows,
    EvalHarness.new_size (Np.len inps) micro_batch_size = Ok size
    /\ EvalHarness.padded inps micro_batch_size = Ok rows
    /\ Np.len rows = Np.len inps + size
    /\ 2 * Np.len inps <= Np.len rows
    /\ Np.len rows mod micro_batch_size = Np.len inps mod micro_batch_size
    /\ firstn (length inps) rows = inps.
Proof.
  intros H.
  destruct (new_size_multiple (Np.len inps) micro_batch_size H) as (k & E & Hk).
  exists (k * micro_batch_size). eexists. split; [exact E|].
  unfold EvalHarness.padded. rewrite E. cbn [bind].
  split; [reflexivity|].
  assert (L : Np.len (inps ++ repeat (repeat 1 match inps with
                                               | [] => O
                                               | r :: _ => length r
                                               end)
                                (Z.to_nat (k * micro_batch_size)))
              = Np.len inps + k * micro_batch_size).
  { unfold Np.len in *. rewrite length_app, repeat_length. lia. }
  split; [exact L|]. rewrite L. split; [lia|]. split.
  - apply Z.mod_add. lia.
  - rewrite firstn_app, Nat.sub_diag, firstn_all. cbn [firstn]. apply app_nil_r.
Qed.

Lemma padded_row_count_witness :
  exists size rows,
    EvalHarness.new_size (Np.len [[1; 2]; [3; 4]; [5; 6]]) 2 = Ok size
    /\ EvalHarness.padded [[1; 2]; [3; 4]; [5; 6]] 2 = Ok rows
    /\ Np.len rows = Np.len [[1; 2]; [3; 4]; [5; 6]] + size
    /\ 2 * Np.len [[1; 2]; [3; 4]; [5; 6]] <= Np.len rows
    /\ Np.len rows mod 2 = Np.len [[1; 2]; [3; 4]; [5; 6]] mod 2
    /\ firstn (length [[1; 2]; [3; 4]; [5; 6]]) rows = [[1; 2]; [3; 4]; [5; 6]].
Proof. apply (padded_row_count [[1; 2]; [3; 4]; [5; 6]] 2). lia. Defined.

(** ** Dataset builder *)

Lemma index_spans (doc_idx sizes : list Z) (max_len : Z) (m : list Packer.sample) :
  0 <= max_len ->
  Forall (fun s => 0 <= s) sizes ->
  Packer.get_samples_mapping None doc_idx sizes max_len = Ok m ->
  Forall (Forall (span_in (combine doc_idx sizes))) m.
Proof.
  intros Hm Hs H. unfold Packer.get_samples_mapping in H.
  apply bind_Ok_inv in H. destruct H as [st [Hb H]]. injection H as <-.
  unfold Packer.build in Hb.
  assert (Ha : accounted max_len ([] ++ combine doc_idx sizes) st).
  { apply (accounted_build_loop max_len (combine doc_idx sizes))
      with (st := Packer.build_init);
      [apply combine_nonneg, Hs | | exact Hb].
    split; [simpl; lia|]. split; [reflexivity|constructor]. }
  cbn [app] in Ha. destruct Ha as (_ & _ & Hsp).
  apply Forall_forall. intros s Hin. apply Forall_forall. intros sp Hsp'.
  rewrite Forall_forall in Hsp. apply Hsp. unfold all_spans.
  apply in_or_app. left. apply in_concat. exists s. split; assumption.
Qed.

Lemma in_combine_nth (A B : Type) (a : list A) (b : list B) (x : A) (y : B) :
  In (x, y) (combine a b) ->
  exists i, nth_error a i = Some x /\ nth_error b i = Some y.
Proof.
  revert b. induction a as [|x0 a IH]; intros [|y0 b] H; try contradiction.
  destruct H as [E|H].
  - injection E as -> ->. exists O. split; reflexivity.
  - destruct (IH b H) as (i & Ha & Hb). exists (S i). split; assumption.
Qed.

Lemma nth_error_py_slice (A : Type) (l : list A) (s e : Z) (i : nat) (x : A) :
  0 <= s ->
  nth_error (Np.py_slice l s e) i = Some x ->
  nth_error l (Z.to_nat s + i) = Some x.
Proof.
  intros Hs H. unfold Np.py_slice in H.
  replace (s <? 0) with false in H by (symmetry; apply Z.ltb_ge; lia).
  match type of H with nth_error (firstn ?c _) _ = _ => set (cnt := c) in * end.
  assert (Hi : (i < cnt)%nat).
  { destruct (Nat.lt_ge_cases i cnt) as [L|G]; [exact L|].
    assert (N : nth_error (firstn cnt (skipn (Z.to_nat (Z.min s (Np.len l))) l)) i
                = None)
      by (apply nth_error_None; rewrite length_firstn; lia).
    rewrite N in H. discriminate H. }
  rewrite nth_error_firstn in H.
  replace (i <? cnt)%nat with true in H by (symmetry; apply Nat.ltb_lt; exact Hi).
  rewrite nth_error_skipn in H.
  destruct (Z_le_gt_dec s (Np.len l)) as [L|G].
  - rewrite Z.min_l in H by exact L. exact H.
  - rewrite Z.min_r in H by lia.
    assert (N : nth_error l (Z.to_nat (Np.len l) + i) = None)
      by (apply nth_error_None; unfold Np.len; lia).
    rewrite N in H. discriminate H.
Qed.

Lemma nth_error_py_slice_bound (A : Type) (l : list A) (s e : Z) (i : nat) (x : A) :
  0 <= s -> 0 <= e ->
  nth_error (Np.py_slice l s e) i = Some x -> Z.of_nat i < e - s.
Proof.
  intros Hs He H.
  assert (Hi : (i < length (Np.py_slice l s e))%nat)
    by (apply nth_error_Some; rewrite H; discriminate).
  unfold Np.py_slice in Hi.
  replace (s <? 0) with false in Hi by (symmetry; apply Z.ltb_ge; lia).
  replace (e <? 0) with false in Hi by (symmetry; apply Z.ltb_ge; lia).
  rewrite length_firstn in Hi. lia.
Qed.

Lemma total_size_combine (a b : list Z) :
  total_size (combine a b) = sumZ (firstn (length a) b).
Proof.
  revert b. induction a as [|x a IH]; intros [|y b]; try reflexivity.
  cbn [combine length firstn]. unfold total_size, sumZ in *.
  cbn [fold_right snd]. rewrite IH. reflexivity.
Qed.

Lemma set_doc_idx_restored (ids : Dataset.indexed_dataset) (doc_idx : list Z) :
  Builder.set_doc_idx (Builder.set_doc_idx ids doc_idx) (Dataset.doc_idx ids) = ids.
Proof. destruct ids. reflexivity. Qed.

Lemma build_dataset_inv (fuel : nat) (tok : Dataset.tokenizer)
    (ids : Dataset.indexed_dataset) (splits : list Z) (p : Q) (W seed index : Z)
    (cache : option (list Packer.sample)) (ds : Dataset.NonCausalMLMDataset) :
  Builder.build_dataset fuel cache tok ids splits p W seed index
  = Some (Ok (Some ds)) ->
  exists lo hi ds0,
    Np.py_index splits index = Ok lo
    /\ Np.py_index splits (index + 1) = Ok hi
    /\ lo < hi
    /\ Dataset.init fuel cache tok
         (Builder.set_doc_idx ids (Np.py_slice (Dataset.doc_idx ids) lo (hi + 1)))
         p W seed = Some (Ok ds0)
    /\ ds = Builder.after_set_doc_idx ds0 (Dataset.doc_idx ids).
Proof.
  unfold Builder.build_dataset. intros H.
  destruct (Np.py_index splits (index + 1)) as [hi|e]; [|discriminate H].
  destruct (Np.py_index splits index) as [lo|e]; [|discriminate H].
  destruct (hi >? lo) eqn:E; [|discriminate H]. apply Z.gtb_lt in E.
  destruct (Dataset.init fuel cache tok _ p W seed) as [[ds0|e]|] eqn:EI;
    try discriminate H.
  injection H as <-. exists lo, hi, ds0. repeat split; try reflexivity; assumption.
Qed.

(** X29: The dataset of a split is indexed against the sizes of the first
    documents of the corpus: every span of its index names the i-th
    document of the split, [doc_idx[lo + i]] with i <= hi - lo, and lies
    within [sizes[i]], the size of the i-th document of the whole corpus,
    wherever the split starts; the entry [doc_idx[hi]], which bounds the
    split, is treated as one of its documents. The dataset returned refers
    to the indexed dataset with its full document index. *)
Theorem split_spans_follow_first_sizes (fuel : nat) (tok : Dataset.tokenizer)
    (ids : Dataset.indexed_dataset) (splits : list Z) (p : Q) (W seed index : Z)
    (lo hi : Z) (ds : Dataset.NonCausalMLMDataset) :
  Builder.build_dataset fuel None tok ids splits p W seed index
  = Some (Ok (Some ds)) ->
  Np.py_index splits index = Ok lo ->
  Np.py_index splits (index + 1) = Ok hi ->
  0 <= lo ->
  1 <= W ->
  Forall (fun s => 0 <= s) (Dataset.sizes ids) ->
  Dataset.the_indexed_dataset ds = ids
  /\ Forall (Forall (fun sp =>
               exists i, Z.of_nat i <= hi - lo /\ span_of_split ids lo i sp))
       (Dataset.samples_mapping ds).
Proof.
  intros H Hlo Hhi H0 HW Hs.
  destruct (build_dataset_inv _ _ _ _ _ _ _ _ _ _ H)
    as (lo' & hi' & ds0 & Elo & Ehi & Hlt & Hi & ->).
  rewrite Hlo in Elo. injection Elo as <-.
  rewrite Hhi in Ehi. injection Ehi as <-.
  destruct (init_inv _ _ _ _ _ _ _ _ Hi) as (T & tl & m & EP & EM & ->).
  destruct (compute_inv_any fuel W p 3 T tl ltac:(lra) EP) as (T0 & ES & HT).
  destruct (search_sound W p 3 ltac:(lra) fuel W T0 ES) as (H1 & _ & _).
  unfold Builder.after_set_doc_idx, dataset_of.
  cbn [Dataset.the_indexed_dataset Dataset.samples_mapping].
  split; [apply set_doc_idx_restored|].
  cbn [Builder.set_doc_idx Dataset.doc_idx Dataset.sizes] in EM.
  pose proof (index_spans _ _ T m ltac:(lia) Hs EM) as Hsp.
  eapply Forall_impl; [|exact Hsp]. cbv beta. intros s Hsamp.
  eapply Forall_impl; [|exact Hsamp]. cbv beta.
  intros [[doc st] en] (Hr & size & Hin & Hle).
  destruct (in_combine_nth _ _ _ _ _ _ Hin) as (i & Ha & Hb).
  exists i. split.
  - pose proof (nth_error_py_slice_bound Z (Dataset.doc_idx ids) lo (hi + 1) i doc
                  H0 ltac:(lia) Ha).
    lia.
  - split; [eapply nth_error_py_slice; eassumption|].
    exists size. split; [exact Hb|]. lia.
Qed.

Lemma split_spans_follow_first_sizes_witness :
  Dataset.the_indexed_dataset
    (dataset_of example_tokenizer example_split_corpus 1234 (15 # 100) 10 10 4
       [[(3, 0, 6); (4, 0, 4)]])
  = example_split_corpus
  /\ Forall (Forall (fun sp =>
               exists i, Z.of_nat i <= 5 - 3
                         /\ span_of_split example_split_corpus 3 i sp))
       (Dataset.samples_mapping
          (dataset_of example_tokenizer example_split_corpus 1234 (15 # 100)
             10 10 4 [[(3, 0, 6); (4, 0, 4)]])).
Proof.
  apply (split_spans_follow_first_sizes 5 example_tokenizer example_split_corpus
           example_splits (15 # 100) 10 1234 1 3 5).
  - vm_compute. reflexivity.
  - reflexivity.
  - reflexivity.
  - lia.
  - lia.
  - repeat constructor; lia.
Defined.

(** X30: The number of samples of the dataset of a split [lo, hi) follows from
    the summed sizes of the first hi - lo + 1 documents of the corpus, not
    from the sizes of the documents of the split: with T the raw length of
    a sample, len(dataset) * T <= sizes[0] + ... + sizes[hi - lo]
    <= (len(dataset) + 1) * T. *)
Theorem split_dataset_len_bounds (fuel : nat) (tok : Dataset.tokenizer)
    (ids : Dataset.indexed_dataset) (splits : list Z) (p : Q) (W seed index : Z)
    (lo hi : Z) (ds : Dataset.NonCausalMLMDataset) :
  Builder.build_dataset fuel None tok ids splits p W seed index
  = Some (Ok (Some ds)) ->
  Np.py_index splits index = Ok lo ->
  Np.py_index splits (index + 1) = Ok hi ->
  0 <= lo ->
  hi + 1 <= Np.len (Dataset.doc_idx ids) ->
  1 <= W ->
  Forall (fun s => 0 <= s) (Dataset.sizes ids) ->
  Dataset.ds_len ds * Dataset.expanded_inputs_length ds
  <= sumZ (firstn (Z.to_nat (hi - lo + 1)) (Dataset.sizes ids))
  /\ sumZ (firstn (Z.to_nat (hi - lo + 1)) (Dataset.sizes ids))
     <= (Dataset.ds_len ds + 1) * Dataset.expanded_inputs_length ds.
Proof.
  intros H Hlo Hhi H0 Hb HW Hs.
  destruct (build_dataset_inv _ _ _ _ _ _ _ _ _ _ H)
    as (lo' & hi' & ds0 & Elo & Ehi & Hlt & Hi & ->).
  rewrite Hlo in Elo. injection Elo as <-.
  rewrite Hhi in Ehi. injection Ehi as <-.
  destruct (init_inv _ _ _ _ _ _ _ _ Hi) as (T & tl & m & EP & EM & ->).
  destruct (compute_inv_any fuel W p 3 T tl ltac:(lra) EP) as (T0 & ES & HT).
  destruct (search_sound W p 3 ltac:(lra) fuel W T0 ES) as (H1 & _ & _).
  unfold Dataset.ds_len, Builder.after_set_doc_idx, dataset_of.
  cbn [Dataset.samples_mapping Dataset.expanded_inputs_length].
  cbn [Builder.set_doc_idx Dataset.doc_idx Dataset.sizes] in EM.
  pose proof (index_size _ _ T m ltac:(lia) Hs EM) as Hsz.
  rewrite total_size_combine in Hsz.
  pose proof (py_slice_length Z (Dataset.doc_idx ids) lo (hi + 1) ltac:(lia) Hb)
    as Hl.
  replace (length (Np.py_slice (Dataset.doc_idx ids) lo (hi + 1)))
    with (Z.to_nat (hi - lo + 1)) in Hsz
    by (unfold Np.len in Hl; lia).
  exact Hsz.
Qed.

Lemma split_dataset_len_bounds_witness :
  Dataset.ds_len
    (dataset_of example_tokenizer example_split_corpus 1234 (15 # 100) 10 10 4
       [[(3, 0, 6); (4, 0, 4)]])
  * Dataset.expanded_inputs_length
      (dataset_of example_tokenizer example_split_corpus 1234 (15 # 100) 10 10 4
         [[(3, 0, 6); (4, 0, 4)]])
  <= sumZ (firstn (Z.to_nat (5 - 3 + 1)) (Dataset.sizes example_split_corpus))
  /\ sumZ (firstn (Z.to_nat (5 - 3 + 1)) (Dataset.sizes example_split_corpus))
     <= (Dataset.ds_len
           (dataset_of example_tokenizer example_split_corpus 1234 (15 # 100)
              10 10 4 [[(3, 0, 6); (4, 0, 4)]]) + 1)
        * Dataset.expanded_inputs_length
            (dataset_of example_tokenizer example_split_corpus 1234 (15 # 100)
               10 10 4 [[(3, 0, 6); (4, 0, 4)]]).
Proof.
  apply (split_dataset_len_bounds 5 example_tokenizer example_split_corpus
           example_splits (15 # 100) 10 1234 1 3 5).
  - vm_compute. reflexivity.
  - reflexivity.
  - reflexivity.
  - lia.
  - vm_compute. discriminate.
  - lia.
  - repeat constructor; lia.
Defined.

(** ** Length planner and generator in binary64 *)

(** *** The exponent from above, and exact results *)

Lemma ilog2_upper (x : Q) : (0 < x)%Q -> (x < F64.pow2 (F64.ilog2 x + 1))%Q.
Proof.
  intros Hx. unfold F64.ilog2.
  set (e := Z.log2 (Qnum x) - Z.log2 (Z.pos (Qden x))).
  destruct (Qle_bool (F64.pow2 e) x) eqn:E.
  - destruct x as [n d]. cbn [Qnum Qden] in *.
    assert (Hn : 0 < n) by (revert Hx; unfold Qlt; simpl; lia).
    destruct (Z.log2_spec n Hn) as [_ Ha].
    destruct (Z.log2_spec (Z.pos d) ltac:(lia)) as [Hb _].
    pose proof (Z.log2_nonneg n) as Ha0.
    pose proof (Z.log2_nonneg (Z.pos d)) as Hb0.
    set (a := Z.log2 n) in *. set (b := Z.log2 (Z.pos d)) in *.
    assert (Hp : (F64.pow2 (e + 1) * F64.pow2 b == F64.pow2 (a + 1))%Q).
    { unfold F64.pow2. rewrite <- Qpower_plus by discriminate.
      replace (e + 1 + b) with (a + 1) by (unfold e; lia). reflexivity. }
    rewrite (pow2_nonneg_exp (a + 1) ltac:(lia)), (pow2_nonneg_exp b Hb0) in Hp.
    assert (Hd : (inject_Z (2 ^ b) <= inject_Z (Z.pos d))%Q)
      by (rewrite <- Zle_Qle; exact Hb).
    replace (Z.succ a) with (a + 1) in Ha by lia.
    assert (Hn' : (inject_Z n < inject_Z (2 ^ (a + 1)))%Q)
      by (rewrite <- Zlt_Qlt; exact Ha).
    assert (Hx' : ((n # d) * inject_Z (Z.pos d) == inject_Z n)%Q).
    { unfold Qeq, Qmult, inject_Z. simpl. lia. }
    assert (Hd0 : (0 < inject_Z (2 ^ b))%Q)
      by (rewrite <- (Zlt_Qlt 0); apply Z.pow_pos_nonneg; lia).
    pose proof (pow2_pos (e + 1)) as Hp0.
    revert Hp Hd Hn' Hx' Hd0 Hp0 Hx.
    generalize (F64.pow2 (e + 1)) (inject_Z (2 ^ b)) (inject_Z (2 ^ (a + 1)))
      (inject_Z (Z.pos d)) (inject_Z n) (n # d).
    intros P B A1 D N X Hp Hd Hn' Hx' Hd0 Hp0 Hx. nra.
  - replace (e - 1 + 1) with e by lia.
    apply Qnot_le_lt. intros N. apply Qle_bool_iff in N. congruence.
Qed.

Lemma ilog2_ge (x : Q) (E : Z) :
  (0 < x)%Q -> (F64.pow2 E <= x)%Q -> E <= F64.ilog2 x.
Proof.
  intros H0 H.
  assert (E < F64.ilog2 x + 1); [|lia].
  apply pow2_lt_inv. eapply Qle_lt_trans; [exact H | apply ilog2_upper, H0].
Qed.

Lemma round_unique (y : Q) (M : Z) :
  (inject_Z M - (1 # 2) < y)%Q -> (y < inject_Z M + (1 # 2))%Q -> Np.round y = M.
Proof.
  intros H1 H2. destruct (round_near y) as [Hlo Hhi].
  assert (A : Np.round y < M + 1).
  { apply Z_of_Q_lt. rewrite inject_Z_plus. change (inject_Z 1) with 1%Q. lra. }
  assert (B : M < Np.round y + 1).
  { apply Z_of_Q_lt. rewrite inject_Z_plus. change (inject_Z 1) with 1%Q. lra. }
  lia.
Qed.

Lemma Qabs_pos_pos (x : Q) : (0 < x)%Q -> (Qabs x == x)%Q.
Proof. intros H. apply Qabs_pos. lra. Qed.

(** The exponent of the last place of a value in the binade of
    [2 ** (52 - j)] is [- j]. *)
Lemma ulp_exp_binade (x : Q) (j : Z) :
  j <= 1074 ->
  (F64.pow2 (52 - j) <= x)%Q -> (x < F64.pow2 (53 - j))%Q ->
  F64.ulp_exp x = - j.
Proof.
  intros Hj H1 H2.
  assert (Hx : (0 < x)%Q) by (pose proof (pow2_pos (52 - j)); lra).
  pose proof (Qabs_pos_pos x Hx) as Ea.
  assert (Ha : (0 < Qabs x)%Q) by (rewrite Ea; exact Hx).
  assert (L : F64.ilog2 (Qabs x) < 53 - j)
    by (apply ilog2_lt; [exact Ha | rewrite Ea; exact H2]).
  assert (G : 52 - j <= F64.ilog2 (Qabs x))
    by (apply ilog2_ge; [exact Ha | rewrite Ea; exact H1]).
  unfold F64.ulp_exp. lia.
Qed.

(** A value within half a unit in the last place of a binary64 value of its
    binade is rounded to it. *)
Lemma of_Q_exact (x : Q) (j M : Z) :
  0 <= j <= 1074 ->
  (F64.pow2 (52 - j) <= x)%Q -> (x < F64.pow2 (53 - j))%Q ->
  (inject_Z M - (1 # 2) < x * inject_Z (2 ^ j))%Q ->
  (x * inject_Z (2 ^ j) < inject_Z M + (1 # 2))%Q ->
  exists v, F64.of_Q x = F64.Finite v /\ (v * inject_Z (2 ^ j) == inject_Z M)%Q.
Proof.
  intros Hj H1 H2 M1 M2.
  assert (Hx : (0 < x)%Q) by (pose proof (pow2_pos (52 - j)); lra).
  unfold F64.of_Q.
  replace (Qeq_bool x 0) with false
    by (symmetry; apply not_true_iff_false; intros N;
        apply Qeq_bool_iff in N; lra).
  cbv zeta. rewrite (ulp_exp_binade x j ltac:(lia) H1 H2).
  rewrite Z.opp_involutive.
  pose proof (pow2_nonneg_exp j ltac:(lia)) as Ej.
  pose proof (pow2_opp j) as Eo.
  assert (H2j : (0 < inject_Z (2 ^ j))%Q)
    by (rewrite <- (Zlt_Qlt 0); apply Z.pow_pos_nonneg; lia).
  assert (Er : Np.round (x * F64.pow2 j) = M).
  { apply round_unique; rewrite Ej; assumption. }
  rewrite Er.
  assert (Ev : (inject_Z M * F64.pow2 (- j) * inject_Z (2 ^ j) == inject_Z M)%Q).
  { rewrite <- Ej, <- Qmult_assoc, Eo. ring. }
  assert (Hp : (F64.pow2 (53 - j) * F64.pow2 j == F64.pow2 53)%Q).
  { unfold F64.pow2. rewrite <- Qpower_plus by discriminate.
    replace (53 - j + j) with 53 by lia. reflexivity. }
  rewrite Ej, (pow2_nonneg_exp 53) in Hp by lia.
  assert (HM0 : 0 <= M).
  { assert (-1 < M); [|lia]. apply Z_of_Q_lt.
    change (inject_Z (-1)) with (-1)%Q.
    assert ((0 < x * inject_Z (2 ^ j))%Q) by (apply Qmult_lt_0_compat; assumption).
    lra. }
  assert (HM1 : M <= 2 ^ 53).
  { assert (M < 2 ^ 53 + 1); [|lia]. apply Z_of_Q_lt.
    rewrite inject_Z_plus. change (inject_Z 1) with 1%Q.
    assert ((x * inject_Z (2 ^ j) < F64.pow2 (53 - j) * inject_Z (2 ^ j))%Q)
      by (apply Qmult_lt_compat_r; assumption).
    lra. }
  assert (Hle1 : (F64.pow2 (- j) <= 1)%Q).
  { change 1%Q with (F64.pow2 0). apply pow2_le. lia. }
  pose proof (pow2_pos (- j)) as Hpj.
  replace (Qle_bool (F64.pow2 1024) (Qabs (inject_Z M * F64.pow2 (- j))))
    with false.
  - eexists. split; [reflexivity | exact Ev].
  - symmetry. apply not_true_iff_false. intros N. apply Qle_bool_iff in N.
    assert (B53 : (F64.pow2 54 <= F64.pow2 1024)%Q) by (apply pow2_le; lia).
    rewrite (pow2_nonneg_exp 54) in B53 by lia.
    assert (HMq : (0 <= inject_Z M)%Q) by (rewrite <- (Zle_Qle 0); exact HM0).
    assert (HMq' : (inject_Z M <= inject_Z (2 ^ 53))%Q)
      by (rewrite <- Zle_Qle; exact HM1).
    assert (Hv : (inject_Z M * F64.pow2 (- j) <= inject_Z (2 ^ 53))%Q).
    { revert HMq HMq' Hle1 Hpj.
      generalize (inject_Z M) (F64.pow2 (- j)) (inject_Z (2 ^ 53)).
      intros a b c. intros. nra. }
    assert (Hv0 : (0 <= inject_Z M * F64.pow2 (- j))%Q)
      by (apply Qmult_le_0_compat; lra).
    assert (C : (inject_Z (2 ^ 53) < inject_Z (2 ^ 54))%Q)
      by (rewrite <- Zlt_Qlt; lia).
    revert N. apply Qabs_case; intros; lra.
Qed.

(** Between two multiples of [2 ** - j] that are binary64 values the rounded
    value stays finite and between them. *)
Lemma of_Q_between_dyadic (x : Q) (j lo hi : Z) :
  0 <= j <= 1074 ->
  - 2 ^ 53 < lo -> hi < 2 ^ 53 ->
  (inject_Z lo <= x * inject_Z (2 ^ j))%Q ->
  (x * inject_Z (2 ^ j) <= inject_Z hi)%Q ->
  exists v, F64.of_Q x = F64.Finite v
    /\ (inject_Z lo <= v * inject_Z (2 ^ j))%Q
    /\ (v * inject_Z (2 ^ j) <= inject_Z hi)%Q.
Proof.
  intros Hj Hlo Hhi Hl Hh. unfold F64.of_Q.
  assert (H2j : (0 < inject_Z (2 ^ j))%Q)
    by (rewrite <- (Zlt_Qlt 0); apply Z.pow_pos_nonneg; lia).
  destruct (Qeq_bool x 0) eqn:E0.
  - apply Qeq_bool_iff in E0. exists 0%Q. split; [reflexivity|].
    rewrite E0 in Hl, Hh. split; lra.
  - assert (Hx : ~ (x == 0)%Q) by (intros N; apply Qeq_bool_iff in N; congruence).
    cbv zeta.
    assert (Habs : (0 < Qabs x)%Q).
    { pose proof (Qabs_nonneg x) as Ha.
      destruct (Qlt_le_dec 0 (Qabs x)) as [L|G]; [exact L|].
      exfalso. apply Hx. revert G. apply Qabs_case; intros; lra. }
    pose proof (pow2_nonneg_exp j ltac:(lia)) as Ej.
    assert (Hp : (F64.pow2 (53 - j) * F64.pow2 j == F64.pow2 53)%Q).
    { unfold F64.pow2. rewrite <- Qpower_plus by discriminate.
      replace (53 - j + j) with 53 by lia. reflexivity. }
    rewrite Ej, (pow2_nonneg_exp 53) in Hp by lia.
    assert (Qhi : (inject_Z hi < inject_Z (2 ^ 53))%Q)
      by (rewrite <- Zlt_Qlt; exact Hhi).
    assert (Qlo : (- inject_Z (2 ^ 53) < inject_Z lo)%Q)
      by (rewrite <- inject_Z_opp, <- Zlt_Qlt; exact Hlo).
    assert (Hb : (Qabs x < F64.pow2 (53 - j))%Q).
    { pose proof (pow2_pos (53 - j)) as Hpp.
      revert Hl Hh Hp H2j Qhi Qlo Hpp.
      generalize (F64.pow2 (53 - j)) (inject_Z (2 ^ j)) (inject_Z (2 ^ 53))
        (inject_Z lo) (inject_Z hi).
      intros P J C Lo Hi. intros.
      apply Qabs_case; intros; nra. }
    pose proof (ilog2_lt (Qabs x) (53 - j) Habs Hb) as He.
    set (q := F64.ulp_exp x).
    assert (Hq : q <= - j) by (unfold q, F64.ulp_exp; lia).
    set (k := - q). assert (Hk : j <= k) by (unfold k; lia).
    replace (Z.opp q) with k by reflexivity.
    pose proof (pow2_nonneg_exp k ltac:(lia)) as Ek.
    pose proof (pow2_opp k) as Eq. replace (- k) with q in Eq by (unfold k; lia).
    assert (Ekj : 2 ^ k = 2 ^ j * 2 ^ (k - j)).
    { rewrite <- Z.pow_add_r by lia. f_equal. lia. }
    assert (H2d : (0 < inject_Z (2 ^ (k - j)))%Q)
      by (rewrite <- (Zlt_Qlt 0); apply Z.pow_pos_nonneg; lia).
    set (mant := Np.round (x * F64.pow2 k)).
    assert (Hm1 : lo * 2 ^ (k - j) <= mant).
    { unfold mant. rewrite <- (round_inject_Z (lo * 2 ^ (k - j))). apply round_mono.
      rewrite Ek, Ekj, !inject_Z_mult, Qmult_assoc.
      apply Qmult_le_compat_r; lra. }
    assert (Hm2 : mant <= hi * 2 ^ (k - j)).
    { unfold mant. rewrite <- (round_inject_Z (hi * 2 ^ (k - j))). apply round_mono.
      rewrite Ek, Ekj, !inject_Z_mult, Qmult_assoc.
      apply Qmult_le_compat_r; lra. }
    rewrite Zle_Qle, inject_Z_mult in Hm1, Hm2.
    rewrite Ek, Ekj, inject_Z_mult in Eq.
    pose proof (pow2_pos q) as Hpq.
    assert (Ev : (inject_Z mant * F64.pow2 q * inject_Z (2 ^ j) * inject_Z (2 ^ (k - j))
                  == inject_Z mant)%Q).
    { rewrite <- !Qmult_assoc. rewrite Eq. ring. }
    assert (Hv1 : (inject_Z lo <= inject_Z mant * F64.pow2 q * inject_Z (2 ^ j))%Q).
    { revert Ev Hm1 H2d.
      generalize (inject_Z mant * F64.pow2 q * inject_Z (2 ^ j))%Q
        (inject_Z (2 ^ (k - j))) (inject_Z mant) (inject_Z lo).
      intros V D Mt Lo. intros. nra. }
    assert (Hv2 : (inject_Z mant * F64.pow2 q * inject_Z (2 ^ j) <= inject_Z hi)%Q).
    { revert Ev Hm2 H2d.
      generalize (inject_Z mant * F64.pow2 q * inject_Z (2 ^ j))%Q
        (inject_Z (2 ^ (k - j))) (inject_Z mant) (inject_Z hi).
      intros V D Mt Hi. intros. nra. }
    replace (Qle_bool (F64.pow2 1024) (Qabs (inject_Z mant * F64.pow2 q)))
      with false.
    + eexists. split; [reflexivity|]. split; assumption.
    + symmetry. apply not_true_iff_false. intros N. apply Qle_bool_iff in N.
      assert (B53 : (F64.pow2 53 <= F64.pow2 1024)%Q) by (apply pow2_le; lia).
      rewrite (pow2_nonneg_exp 53) in B53 by lia.
      assert (J1 : (1 <= inject_Z (2 ^ j))%Q).
      { change 1%Q with (inject_Z 1). rewrite <- Zle_Qle.
        assert (0 < 2 ^ j) by (apply Z.pow_pos_nonneg; lia). lia. }
      revert N Hv1 Hv2 Qhi Qlo B53 J1.
      generalize (inject_Z mant * F64.pow2 q)%Q (F64.pow2 1024)
        (inject_Z (2 ^ j)) (inject_Z (2 ^ 53)) (inject_Z lo) (inject_Z hi).
      intros V P J C Lo Hi N. revert N.
      apply Qabs_case; intros; nra.
Qed.

(** *** Rounding to binary64 is monotone and near *)

Lemma pow2_add (a b : Z) : (F64.pow2 (a + b) == F64.pow2 a * F64.pow2 b)%Q.
Proof. unfold F64.pow2. apply Qpower_plus. discriminate. Qed.

Lemma ilog2_mono (u v : Q) :
  (0 < u)%Q -> (u <= v)%Q -> F64.ilog2 u <= F64.ilog2 v.
Proof.
  intros Hu Huv.
  assert (F64.ilog2 u < F64.ilog2 v + 1); [|lia].
  apply pow2_lt_inv.
  eapply Qle_lt_trans; [apply ilog2_le, Hu|].
  eapply Qle_lt_trans; [exact Huv|]. apply ilog2_upper. lra.
Qed.

Lemma of_Q_pos_unfold (u a : Q) :
  (0 < u)%Q -> F64.of_Q u = F64.Finite a ->
  a = (inject_Z (Np.round (u * F64.pow2 (- F64.ulp_exp u))) * F64.pow2 (F64.ulp_exp u))%Q.
Proof.
  intros Hu. unfold F64.of_Q.
  replace (Qeq_bool u 0) with false
    by (symmetry; apply not_true_iff_false; intros N;
        apply Qeq_bool_iff in N; lra).
  cbv zeta.
  destruct (Qle_bool _ _); [discriminate|].
  intros H. injection H as <-. reflexivity.
Qed.

Lemma of_Q_mono (u v a b : Q) :
  (0 < u)%Q -> (u <= v)%Q ->
  F64.of_Q u = F64.Finite a -> F64.of_Q v = F64.Finite b -> (a <= b)%Q.
Proof.
  intros Hu Huv Ea Eb.
  assert (Hv : (0 < v)%Q) by lra.
  rewrite (of_Q_pos_unfold u a Hu Ea), (of_Q_pos_unfold v b Hv Eb).
  clear Ea Eb a b.
  pose proof (Qabs_pos_pos u Hu) as Au. pose proof (Qabs_pos_pos v Hv) as Av.
  assert (Hau : (0 < Qabs u)%Q) by (rewrite Au; exact Hu).
  assert (Hav : (0 < Qabs v)%Q) by (rewrite Av; exact Hv).
  assert (Hee : F64.ilog2 (Qabs u) <= F64.ilog2 (Qabs v)).
  { apply ilog2_mono; [exact Hau | rewrite Au, Av; exact Huv]. }
  pose proof (ilog2_upper (Qabs u) Hau) as Uu. rewrite Au in Uu at 1.
  pose proof (ilog2_le (Qabs v) Hav) as Lv. rewrite Av in Lv at 2.
  unfold F64.ulp_exp.
  set (eu := F64.ilog2 (Qabs u)) in *. set (ev := F64.ilog2 (Qabs v)) in *.
  set (qu := Z.max (eu - 52) (-1074)). set (qv := Z.max (ev - 52) (-1074)).
  destruct (Z.eq_dec qu qv) as [E|N].
  - rewrite E. apply Qmult_le_compat_r; [|apply Qlt_le_weak, pow2_pos].
    rewrite <- Zle_Qle. apply round_mono.
    apply Qmult_le_compat_r; [exact Huv | apply Qlt_le_weak, pow2_pos].
  - assert (Hq : eu + 1 <= ev /\ qv = ev - 52 /\ qu < qv) by (unfold qu, qv; lia).
    destruct Hq as (He & Eqv & Hlt).
    apply (Qle_trans _ (F64.pow2 ev)).
    + (* the value rounded from u does not pass 2 ** ev *)
      assert (Hk : 0 <= ev - qu) by lia.
      assert (Hm : Np.round (u * F64.pow2 (- qu)) <= 2 ^ (ev - qu)).
      { rewrite <- (round_inject_Z (2 ^ (ev - qu))). apply round_mono.
        rewrite <- (pow2_nonneg_exp _ Hk).
        replace (ev - qu) with (ev + - qu) by lia. rewrite pow2_add.
        apply Qmult_le_compat_r; [|apply Qlt_le_weak, pow2_pos].
        apply Qlt_le_weak. eapply Qlt_le_trans; [exact Uu|].
        apply pow2_le. lia. }
      rewrite Zle_Qle in Hm. rewrite <- (pow2_nonneg_exp _ Hk) in Hm.
      assert (Es : (F64.pow2 ev == F64.pow2 (ev - qu) * F64.pow2 qu)%Q).
      { rewrite <- pow2_add. replace (ev - qu + qu) with ev by lia. reflexivity. }
      rewrite Es. apply Qmult_le_compat_r; [exact Hm | apply Qlt_le_weak, pow2_pos].
    + (* the value rounded from v is at least 2 ** ev *)
      assert (Hm : 2 ^ 52 <= Np.round (v * F64.pow2 (- qv))).
      { rewrite <- (round_inject_Z (2 ^ 52)). apply round_mono.
        rewrite <- (pow2_nonneg_exp 52) by lia.
        replace 52 with (ev + - qv) at 1 by lia. rewrite pow2_add.
        apply Qmult_le_compat_r; [exact Lv | apply Qlt_le_weak, pow2_pos]. }
      rewrite Zle_Qle in Hm. rewrite <- (pow2_nonneg_exp 52) in Hm by lia.
      assert (Es : (F64.pow2 ev == F64.pow2 52 * F64.pow2 qv)%Q).
      { rewrite <- pow2_add. replace (52 + qv) with ev by lia. reflexivity. }
      rewrite Es. apply Qmult_le_compat_r; [exact Hm | apply Qlt_le_weak, pow2_pos].
Qed.

(** Up to [2 ** 32] the rounded value is within [2 ** -21] of the exact
    one. *)
Lemma of_Q_near (u : Q) :
  (0 <= u)%Q -> (u <= 4294967296)%Q ->
  exists a, F64.of_Q u = F64.Finite a
    /\ (0 <= a)%Q /\ (a - u <= 1 # 2097152)%Q /\ (u - a <= 1 # 2097152)%Q.
Proof.
  intros H0 H1. unfold F64.of_Q.
  destruct (Qeq_bool u 0) eqn:E0.
  - apply Qeq_bool_iff in E0. exists 0%Q. split; [reflexivity|].
    rewrite E0. repeat split; lra.
  - assert (Hu : (0 < u)%Q).
    { destruct (Qlt_le_dec 0 u) as [L|G]; [exact L|]. exfalso.
      assert (N : (u == 0)%Q) by lra. apply Qeq_bool_iff in N. congruence. }
    cbv zeta.
    pose proof (Qabs_pos_pos u Hu) as Au.
    assert (Hau : (0 < Qabs u)%Q) by (rewrite Au; exact Hu).
    assert (Hb : (Qabs u < F64.pow2 33)%Q).
    { rewrite Au, (pow2_nonneg_exp 33) by lia.
      change (inject_Z (2 ^ 33)) with 8589934592%Q. lra. }
    pose proof (ilog2_lt (Qabs u) 33 Hau Hb) as He.
    set (q := F64.ulp_exp u).
    assert (Hq : q <= - 20) by (unfold q, F64.ulp_exp; lia).
    pose proof (pow2_opp (- q)) as Eo. rewrite Z.opp_involutive in Eo.
    pose proof (pow2_pos q) as Pq. pose proof (pow2_pos (- q)) as Pk.
    assert (Hq20 : (F64.pow2 q <= 1 # 1048576)%Q).
    { change (1 # 1048576)%Q with (F64.pow2 (- 20)). apply pow2_le. exact Hq. }
    destruct (round_near (u * F64.pow2 (- q))) as [Rlo Rhi].
    assert (Hm0 : (0 <= inject_Z (Np.round (u * F64.pow2 (- q))))%Q).
    { rewrite <- (Zle_Qle 0). apply round_nonneg.
      apply Qmult_le_0_compat; lra. }
    set (mant := inject_Z (Np.round (u * F64.pow2 (- q)))) in *.
    assert (Eu : (u == u * F64.pow2 (- q) * F64.pow2 q)%Q).
    { rewrite <- Qmult_assoc, (Qmult_comm (F64.pow2 (- q))), Eo. ring. }
    assert (D1 : (mant * F64.pow2 q - u <= 1 # 2097152)%Q).
    { rewrite Eu at 1. revert Rlo Rhi Pq Hq20.
      generalize (u * F64.pow2 (- q))%Q (F64.pow2 q). intros t c. intros. nra. }
    assert (D2 : (u - mant * F64.pow2 q <= 1 # 2097152)%Q).
    { rewrite Eu at 1. revert Rlo Rhi Pq Hq20.
      generalize (u * F64.pow2 (- q))%Q (F64.pow2 q). intros t c. intros. nra. }
    assert (Ha0 : (0 <= mant * F64.pow2 q)%Q) by (apply Qmult_le_0_compat; lra).
    replace (Qle_bool (F64.pow2 1024) (Qabs (mant * F64.pow2 q))) with false.
    + eexists. split; [reflexivity|]. repeat split; assumption.
    + symmetry. apply not_true_iff_false. intros N. apply Qle_bool_iff in N.
      assert (B : (F64.pow2 33 <= F64.pow2 1024)%Q) by (apply pow2_le; lia).
      rewrite (pow2_nonneg_exp 33) in B by lia.
      change (inject_Z (2 ^ 33)) with 8589934592%Q in B.
      revert N. apply Qabs_case; intros; lra.
Qed.

(** *** One more raw token adds at most one input token *)

Section Planner64Step.

Variables x y : Q.
Hypothesis x_pos : (0 < x)%Q.
Hypothesis x_le : (x <= 524287 # 524288)%Q.
Hypothesis y_ge : (524289 # 524288 <= y)%Q.

Lemma lengths64_step (T il tl il' tl' : Z) :
  1 <= T < 2 ^ 32 ->
  Planner64.tokens_length_to_lengths (F64.Finite x) (F64.Finite y) T
  = Ok (il, tl) ->
  Planner64.tokens_length_to_lengths (F64.Finite x) (F64.Finite y) (T + 1)
  = Ok (il', tl') ->
  il' <= il + 1.
Proof.
  intros HT H H'.
  assert (Hy1 : (1 <= y)%Q) by lra.
  assert (Hiy0 : (0 < / y)%Q) by (apply Qinv_lt_0_compat; lra).
  assert (Hiy1 : (/ y <= 524288 # 524289)%Q).
  { change (524288 # 524289)%Q with (/ (524289 # 524288))%Q.
    apply Qinv_le_anti; [reflexivity | exact y_ge]. }
  assert (QT : (1 <= inject_Z T)%Q)
    by (change 1%Q with (inject_Z 1); rewrite <- Zle_Qle; lia).
  assert (QT' : (inject_Z T <= 4294967295)%Q)
    by (change 4294967295%Q with (inject_Z (2 ^ 32 - 1)); rewrite <- Zle_Qle; lia).
  unfold Planner64.tokens_length_to_lengths in H, H'.
  (* the noise count at T *)
  destruct (of_Z_exact T ltac:(lia)) as (l & El & Hl).
  rewrite El in H. cbn [bind F64.mul] in H.
  assert (Hlx : (0 < l * x)%Q) by (apply Qmult_lt_0_compat; lra).
  assert (Hlx' : (l * x <= inject_Z T)%Q).
  { rewrite Hl. rewrite <- (Qmult_1_r (inject_Z T)) at 2.
    apply Qmult_le_l; lra. }
  destruct (of_Q_near (l * x) ltac:(lra) ltac:(lra)) as (a & Ea & Ha0 & Da1 & Da2).
  rewrite Ea in H. cbn [F64.py_round bind] in H.
  (* the noise count at T + 1 *)
  destruct (of_Z_exact (T + 1) ltac:(lia)) as (l' & El' & Hl').
  rewrite inject_Z_plus in Hl'. change (inject_Z 1) with 1%Q in Hl'.
  rewrite El' in H'. cbn [bind F64.mul] in H'.
  assert (Hlx2 : (l' * x == l * x + x)%Q) by (rewrite Hl', Hl; ring).
  destruct (of_Q_near (l' * x) ltac:(lra) ltac:(lra)) as (a' & Ea' & Ha0' & Da1' & Da2').
  rewrite Ea' in H'. cbn [F64.py_round bind] in H'.
  pose proof (of_Q_mono (l * x) (l' * x) a a' Hlx ltac:(lra) Ea Ea') as Hmono.
  pose proof (round_mono a a' Hmono) as Hn1.
  pose proof (round_step a a' ltac:(lra)) as Hn2.
  pose proof (round_nonneg a Ha0) as Hn0.
  assert (HnT : Np.round a <= T + 1).
  { rewrite <- (round_inject_Z (T + 1)). apply round_mono.
    rewrite inject_Z_plus. change (inject_Z 1) with 1%Q. lra. }
  assert (HnT' : Np.round a' <= T + 1).
  { rewrite <- (round_inject_Z (T + 1)). apply round_mono.
    rewrite inject_Z_plus. change (inject_Z 1) with 1%Q.
    assert (Hc : (l' * x <= l' * (524287 # 524288))%Q)
      by (apply Qmult_le_l; lra).
    lra. }
  set (n := Np.round a) in *. set (n' := Np.round a') in *.
  (* the span count at T *)
  destruct (of_Z_exact n ltac:(lia)) as (nq & En & Hnq).
  rewrite En in H. cbn [bind F64.div] in H.
  rewrite (Qeq_bool_neq_0 y Hy1) in H. cbn [bind] in H.
  assert (Qn0 : (0 <= inject_Z n)%Q) by (rewrite <- (Zle_Qle 0); lia).
  assert (Qn1 : (inject_Z n <= 4294967296)%Q).
  { change 4294967296%Q with (inject_Z (2 ^ 32)). rewrite <- Zle_Qle. lia. }
  assert (Hc0 : (0 <= nq / y)%Q).
  { unfold Qdiv. apply Qmult_le_0_compat; lra. }
  assert (Hc1 : (nq / y <= inject_Z n)%Q).
  { unfold Qdiv. rewrite Hnq. revert Qn0 Hiy0 Hiy1.
    generalize (inject_Z n) (/ y)%Q. intros; nra. }
  destruct (of_Q_near (nq / y) Hc0 ltac:(lra)) as (b & Eb & Hb0 & Db1 & Db2).
  rewrite Eb in H. cbn [F64.py_round bind] in H.
  injection H as <- <-.
  destruct (Z.eq_dec n' n) as [Same|Diff].
  - rewrite Same, En in H'. cbn [bind F64.div] in H'.
    rewrite (Qeq_bool_neq_0 y Hy1) in H'. cbn [bind] in H'.
    rewrite Eb in H'. cbn [F64.py_round bind] in H'.
    injection H' as <- <-. lia.
  - assert (Enn : n' = n + 1) by lia.
    destruct (of_Z_exact n' ltac:(lia)) as (nq' & En' & Hnq').
    rewrite En' in H'. cbn [bind F64.div] in H'.
    rewrite (Qeq_bool_neq_0 y Hy1) in H'. cbn [bind] in H'.
    rewrite Enn, inject_Z_plus in Hnq'. change (inject_Z 1) with 1%Q in Hnq'.
    assert (Hq2 : (nq' / y == nq / y + / y)%Q).
    { unfold Qdiv. rewrite Hnq', Hnq. ring. }
    assert (Hc1' : (nq' / y <= 4294967296)%Q).
    { rewrite Hq2. assert (inject_Z n <= 4294967295)%Q; [|lra].
      change 4294967295%Q with (inject_Z (2 ^ 32 - 1)). rewrite <- Zle_Qle. lia. }
    destruct (of_Q_near (nq' / y) ltac:(lra) Hc1') as (b' & Eb' & Hb0' & Db1' & Db2').
    rewrite Eb' in H'. cbn [F64.py_round bind] in H'.
    injection H' as <- <-.
    pose proof (round_step b b' ltac:(lra)) as Hs. lia.
Qed.

End Planner64Step.

(** *** The planner fills the window *)

Lemma search64_stops (W B : Z) (x y : Q) :
  1 <= W -> W < B < 2 ^ 53 -> (0 < x)%Q -> (1 <= y)%Q ->
  (inject_Z (W + 1) <= (1 - x) * inject_Z B)%Q ->
  exists T,
    W <= T < B
    /\ Planner64.search (Z.to_nat (B - W)) W (F64.Finite x) (F64.Finite y) W
       = Some (Ok T).
Proof.
  intros HW HB Hx Hy Hbound.
  assert (HB0 : (0 < inject_Z B)%Q) by (rewrite <- (Zlt_Qlt 0); lia).
  assert (HW0 : (0 < inject_Z (W + 1))%Q) by (rewrite <- (Zlt_Qlt 0); lia).
  assert (Hx1 : (x <= 1)%Q).
  { destruct (Qlt_le_dec 1 x) as [L|G]; [|exact G]. exfalso.
    revert Hbound HB0 HW0 L. generalize (inject_Z (W + 1)) (inject_Z B).
    intros; nra. }
  assert (Hx0 : (0 <= x)%Q) by lra.
  apply (search64_terminates W (F64.Finite x) (F64.Finite y) B); try lia.
  - intros t Ht.
    destruct (lengths64_ok x y Hx0 Hy t t ltac:(lia) ltac:(lia))
      as (nt & ns & E & _).
    { assert (0 <= inject_Z t)%Q by (rewrite <- (Zle_Qle 0); lia). nra. }
    eexists. eexists. exact E.
  - destruct (lengths64_ok x y Hx0 Hy B (B - (W + 1)) ltac:(lia) ltac:(lia))
      as (nt & ns & E & Hns & Hnt).
    { unfold Z.sub at 1. rewrite inject_Z_plus, inject_Z_opp.
      revert Hbound. generalize (inject_Z (W + 1)) (inject_Z B). intros; nra. }
    eexists. eexists. split; [exact E|]. lia.
Qed.

(** X14: When the desired length W is itself a candidate, the planner ends
    its search at a raw length T >= W whose simulated input length is
    exactly W, so that inputs built from T raw tokens need no padding. The
    lengths are simulated in binary64, as the code computes them; the
    density is positive and at most 1 - 2^-19, the mean span length at
    least 1 + 2^-19, and B <= 2^32 is a raw length with
    W + 1 <= (1 - d) * B, which the search does not reach. The planner
    returns T with the target length simulated for T, or one less of each
    when the half-density adjustment applies. *)
Theorem planner_hits_window (W B : Z) (x y : Q) (ilW tlW : Z) :
  1 <= W -> W < B <= 2 ^ 32 ->
  (0 < x)%Q -> (x <= 524287 # 524288)%Q -> (524289 # 524288 <= y)%Q ->
  (inject_Z (W + 1) <= (1 - x) * inject_Z B)%Q ->
  Planner64.tokens_length_to_lengths (F64.Finite x) (F64.Finite y) W
  = Ok (ilW, tlW) ->
  ilW <= W ->
  exists T tl,
    W <= T < B
    /\ Planner64.tokens_length_to_lengths (F64.Finite x) (F64.Finite y) T
       = Ok (W, tl)
    /\ forall fuel, (Z.to_nat (B - W) <= fuel)%nat ->
       Planner64.compute_input_and_target_lengths fuel W
         (F64.Finite x) (F64.Finite y)
       = Some (Ok (if F64.eqb (F64.Finite x) (F64.Finite (1 # 2)) && (tl >? W)
                   then (T - 1, tl - 1) else (T, tl))).
Proof.
  intros HW HB Hx Hxle Hy Hbound EW HfitW.
  assert (Hy1 : (1 <= y)%Q) by lra.
  destruct (search64_stops W B x y HW ltac:(lia) Hx Hy1 Hbound) as (T & HT & ES).
  destruct (search64_sound W _ _ _ W T ES)
    as (_ & (il' & tl' & E' & Hil') & Hfit).
  assert (Hx1 : (x <= 1)%Q) by lra.
  destruct (lengths64_ok x y ltac:(lra) Hy1 T T ltac:(lia) ltac:(lia))
    as (nt & ns & ET & _).
  { assert (0 <= inject_Z T)%Q by (rewrite <- (Zle_Qle 0); lia). nra. }
  set (il := T - nt + ns + 1) in *. set (tl := nt + ns + 1) in *.
  assert (Hle : il <= W).
  { destruct (Z.eq_dec T W) as [->|N].
    - rewrite EW in ET. injection ET as <- <-. exact HfitW.
    - destruct (Hfit T ltac:(lia)) as (il0 & tl0 & E0 & H0).
      rewrite ET in E0. injection E0 as <- <-. exact H0. }
  pose proof (lengths64_step x y Hx Hxle Hy T il tl il' tl' ltac:(lia) ET E')
    as Hstep.
  assert (E : il = W) by lia.
  rewrite E in ET.
  exists T, tl. split; [exact HT|]. split; [exact ET|].
  intros fuel Hf. unfold Planner64.compute_input_and_target_lengths.
  rewrite (search64_fuel_mono W _ _ _ W _ fuel ES Hf).
  cbn [bind]. rewrite ET. cbn [bind].
  destruct (F64.eqb (F64.Finite x) (F64.Finite (1 # 2)) && (tl >? W));
    reflexivity.
Qed.

Lemma planner_hits_window_witness :
  exists T tl,
    334 <= T < 512
    /\ Planner64.tokens_length_to_lengths (F64.of_Q (7 # 100)) (F64.of_Q 3) T
       = Ok (334, tl)
    /\ forall fuel, (Z.to_nat (512 - 334) <= fuel)%nat ->
       Planner64.compute_input_and_target_lengths fuel 334
         (F64.of_Q (7 # 100)) (F64.of_Q 3)
       = Some (Ok (if F64.eqb (F64.of_Q (7 # 100)) (F64.Finite (1 # 2))
                      && (tl >? 334)
                   then (T - 1, tl - 1) else (T, tl))).
Proof.
  assert (Ed : F64.of_Q (7 # 100)
               = F64.Finite (5044031582654956 # 72057594037927936))
    by (vm_compute; reflexivity).
  assert (Em : F64.of_Q 3
               = F64.Finite (6755399441055744 # 2251799813685248))
    by (vm_compute; reflexivity).
  rewrite Ed, Em.
  apply (planner_hits_window 334 512 _ _ 320 32).
  - lia.
  - lia.
  - reflexivity.
  - vm_compute. discriminate.
  - vm_compute. discriminate.
  - vm_compute. discriminate.
  - vm_compute. reflexivity.
  - lia.
Defined.

(** *** The default density and span length in binary64 *)

Lemma of_Q_default_density :
  F64.of_Q (15 # 100) = F64.Finite (5404319552844595 # 36028797018963968).
Proof. vm_compute. reflexivity. Qed.

Lemma of_Q_default_span :
  F64.of_Q 3 = F64.Finite (6755399441055744 # 2251799813685248).
Proof. vm_compute. reflexivity. Qed.

Lemma round_agree (x y : Q) (z : Z) :
  (inject_Z z - (1 # 2) < x)%Q -> (x < inject_Z z + (1 # 2))%Q ->
  (inject_Z z - (1 # 2) < y)%Q -> (y < inject_Z z + (1 # 2))%Q ->
  Np.round x = Np.round y.
Proof.
  intros. rewrite (round_unique x z), (round_unique y z) by assumption.
  reflexivity.
Qed.

(** The product of a length below [2 ** 48] and the binary64 value of 0.15,
    rounded to binary64 and then to an integer, is the integer nearest to
    the exact product with 15/100. *)
Lemma default_product_round (L : Z) (l : Q) :
  0 <= L < 2 ^ 48 -> (l == inject_Z L)%Q ->
  exists v,
    F64.of_Q (l * (5404319552844595 # 36028797018963968)) = F64.Finite v
    /\ Np.round v = Np.round (inject_Z L * (15 # 100)).
Proof.
  intros HL El.
  set (x := (l * (5404319552844595 # 36028797018963968))%Q).
  set (y := (inject_Z L * (15 # 100))%Q).
  pose proof (Z.div_mod (3 * L) 20 ltac:(lia)) as Edm.
  pose proof (Z.mod_pos_bound (3 * L) 20 ltac:(lia)) as Hr.
  set (f := 3 * L / 20) in *. set (r := (3 * L) mod 20) in *.
  assert (Hf : 0 <= f) by (unfold f; apply Z.div_pos; lia).
  assert (Eq : (3 * inject_Z L == 20 * inject_Z f + inject_Z r)%Q).
  { change 3%Q with (inject_Z 3). change 20%Q with (inject_Z 20).
    rewrite <- !inject_Z_mult, <- inject_Z_plus. rewrite Edm. reflexivity. }
  assert (QL0 : (0 <= inject_Z L)%Q) by (rewrite <- (Zle_Qle 0); lia).
  assert (QL1 : (inject_Z L < 281474976710656)%Q).
  { change 281474976710656%Q with (inject_Z (2 ^ 48)). rewrite <- Zlt_Qlt. lia. }
  assert (Qr0 : (0 <= inject_Z r)%Q) by (rewrite <- (Zle_Qle 0); lia).
  assert (Ey : (20 * y == 3 * inject_Z L)%Q) by (unfold y; field).
  assert (Ex : (36028797018963968 * x == 5404319552844595 * inject_Z L)%Q)
    by (unfold x; rewrite El; field).
  destruct (Z_lt_le_dec r 10) as [Rlo|Rhi].
  - (* below the half *)
    assert (Qr : (inject_Z r <= 9)%Q)
      by (change 9%Q with (inject_Z 9); rewrite <- Zle_Qle; lia).
    destruct (of_Q_between_dyadic x 5 (32 * f + -1) (32 * f + 15))
      as (v & Ev & V1 & V2); try lia.
    + rewrite inject_Z_plus, inject_Z_mult.
      change (inject_Z (2 ^ 5)) with 32%Q. change (inject_Z 32) with 32%Q.
      change (inject_Z (-1)) with (-1)%Q. lra.
    + rewrite inject_Z_plus, inject_Z_mult.
      change (inject_Z (2 ^ 5)) with 32%Q. change (inject_Z 32) with 32%Q.
      change (inject_Z 15) with 15%Q. lra.
    + exists v. split; [exact Ev|].
      rewrite inject_Z_plus, inject_Z_mult in V1, V2.
      change (inject_Z (2 ^ 5)) with 32%Q in V1, V2.
      change (inject_Z 32) with 32%Q in V1, V2.
      change (inject_Z (-1)) with (-1)%Q in V1.
      change (inject_Z 15) with 15%Q in V2.
      apply (round_agree v y f); lra.
  - destruct (Z.eq_dec r 10) as [Rtie|Rne].
    + (* the tie: the product is within half a unit in the last place of
         f + 1/2, which is a binary64 value *)
      assert (Hf1 : 1 <= f) by lia.
      assert (Qf1 : (1 <= inject_Z f)%Q)
        by (change 1%Q with (inject_Z 1); rewrite <- Zle_Qle; lia).
      assert (Qr : (inject_Z r == 10)%Q) by (rewrite Rtie; reflexivity).
      assert (Hx0 : (0 < x)%Q) by lra.
      assert (Hx1 : (F64.pow2 0 <= x)%Q) by (change (F64.pow2 0) with 1%Q; lra).
      assert (Hx2 : (x < F64.pow2 48)%Q).
      { rewrite (pow2_nonneg_exp 48) by lia.
        change (inject_Z (2 ^ 48)) with 281474976710656%Q. lra. }
      pose proof (ilog2_le x Hx0) as He1.
      pose proof (ilog2_upper x Hx0) as He2.
      pose proof (ilog2_ge x 0 Hx0 Hx1) as He0.
      pose proof (ilog2_lt x 48 Hx0 Hx2) as He48.
      set (e := F64.ilog2 x) in *.
      set (j := 52 - e).
      assert (E2j : 2 ^ j = 2 * 2 ^ (j - 1)).
      { replace j with (Z.succ (j - 1)) at 1 by lia.
        apply Z.pow_succ_r. unfold j. lia. }
      set (M := (2 * f + 1) * 2 ^ (j - 1)).
      assert (EM : 20 * M = 3 * L * 2 ^ j).
      { unfold M. rewrite E2j. replace (3 * L) with (20 * f + 10) by lia.
        generalize (2 ^ (j - 1)). intros P. ring. }
      assert (QM : (20 * inject_Z M == 3 * (inject_Z L * inject_Z (2 ^ j)))%Q).
      { change 20%Q with (inject_Z 20). change 3%Q with (inject_Z 3).
        rewrite <- !inject_Z_mult.
        replace (3 * (L * 2 ^ j)) with (20 * M) by (rewrite EM; symmetry; apply Z.mul_assoc).
        reflexivity. }
      assert (H2j : (0 < inject_Z (2 ^ j))%Q)
        by (rewrite <- (Zlt_Qlt 0); apply Z.pow_pos_nonneg; unfold j; lia).
      assert (Hp : (F64.pow2 (e + 1) * inject_Z (2 ^ j) == inject_Z (2 ^ 53))%Q).
      { rewrite <- (pow2_nonneg_exp j) by (unfold j; lia).
        rewrite <- (pow2_nonneg_exp 53) by lia.
        unfold F64.pow2. rewrite <- Qpower_plus by discriminate.
        replace (e + 1 + j) with 53 by (unfold j; lia). reflexivity. }
      change (inject_Z (2 ^ 53)) with 9007199254740992%Q in Hp.
      assert (ExJ : (36028797018963968 * (x * inject_Z (2 ^ j))
                     == 5404319552844595 * (inject_Z L * inject_Z (2 ^ j)))%Q)
        by (rewrite Qmult_assoc, Ex; ring).
      assert (HxJ : (x * inject_Z (2 ^ j) < 9007199254740992)%Q).
      { rewrite <- Hp. apply Qmult_lt_compat_r; assumption. }
      assert (HZ0 : (0 <= inject_Z L * inject_Z (2 ^ j))%Q)
        by (apply Qmult_le_0_compat; lra).
      destruct (of_Q_exact x j M) as (v & Ev & EvM).
      * unfold j. lia.
      * replace (52 - j) with e by (unfold j; lia). exact He1.
      * replace (53 - j) with (e + 1) by (unfold j; lia). exact He2.
      * revert QM ExJ HxJ HZ0.
        generalize (x * inject_Z (2 ^ j))%Q (inject_Z L * inject_Z (2 ^ j))%Q
          (inject_Z M).
        intros XJ ZJ Mq. intros. lra.
      * revert QM ExJ HxJ HZ0.
        generalize (x * inject_Z (2 ^ j))%Q (inject_Z L * inject_Z (2 ^ j))%Q
          (inject_Z M).
        intros XJ ZJ Mq. intros. lra.
      * exists v. split; [exact Ev|]. apply round_comp.
        apply (Qmult_inj_r v y (inject_Z (2 ^ j))); [lra|].
        assert (EyJ : (20 * (y * inject_Z (2 ^ j))
                       == 3 * (inject_Z L * inject_Z (2 ^ j)))%Q)
          by (rewrite Qmult_assoc, Ey; ring).
        lra.
    + (* above the half *)
      assert (Qr : (11 <= inject_Z r)%Q)
        by (change 11%Q with (inject_Z 11); rewrite <- Zle_Qle; lia).
      assert (Qr' : (inject_Z r <= 19)%Q)
        by (change 19%Q with (inject_Z 19); rewrite <- Zle_Qle; lia).
      destruct (of_Q_between_dyadic x 5 (32 * f + 17) (32 * f + 32))
        as (v & Ev & V1 & V2); try lia.
      * rewrite inject_Z_plus, inject_Z_mult.
        change (inject_Z (2 ^ 5)) with 32%Q. change (inject_Z 32) with 32%Q.
        change (inject_Z 17) with 17%Q. lra.
      * rewrite inject_Z_plus, inject_Z_mult.
        change (inject_Z (2 ^ 5)) with 32%Q. change (inject_Z 32) with 32%Q.
        lra.
      * exists v. split; [exact Ev|].
        rewrite inject_Z_plus, inject_Z_mult in V1, V2.
        change (inject_Z (2 ^ 5)) with 32%Q in V1, V2.
        change (inject_Z 32) with 32%Q in V1, V2.
        change (inject_Z 17) with 17%Q in V1.
        apply (round_agree v y (f + 1));
          rewrite inject_Z_plus; change (inject_Z 1) with 1%Q; lra.
Qed.

(** The quotient of an integer below [2 ** 48] in absolute value by 3,
    rounded to binary64 and then to an integer, is the integer nearest to
    the exact quotient. *)
Lemma default_quotient_round (n : Z) (nq : Q) :
  - 2 ^ 48 < n < 2 ^ 48 -> (nq == inject_Z n)%Q ->
  exists v,
    F64.of_Q (nq / (6755399441055744 # 2251799813685248)) = F64.Finite v
    /\ Np.round v = Np.round (inject_Z n / 3).
Proof.
  intros Hn En.
  set (x := (nq / (6755399441055744 # 2251799813685248))%Q).
  set (y := (inject_Z n / 3)%Q).
  pose proof (Z.div_mod n 3 ltac:(lia)) as Edm.
  pose proof (Z.mod_pos_bound n 3 ltac:(lia)) as Hr.
  set (f := n / 3) in *. set (r := n mod 3) in *.
  assert (Eq : (inject_Z n == 3 * inject_Z f + inject_Z r)%Q).
  { change 3%Q with (inject_Z 3).
    rewrite <- inject_Z_mult, <- inject_Z_plus. rewrite Edm at 1. reflexivity. }
  assert (Ey : (3 * y == inject_Z n)%Q) by (unfold y; field).
  assert (Ex : (3 * x == inject_Z n)%Q) by (unfold x; rewrite En; field; discriminate).
  assert (Cases : r = 0 \/ r = 1 \/ r = 2) by lia.
  destruct Cases as [R|[R|R]].
  - assert (Qr : (inject_Z r == 0)%Q) by (rewrite R; reflexivity).
    destruct (of_Q_between_dyadic x 3 (8 * f) (8 * f)) as (v & Ev & V1 & V2);
      try lia;
      try (rewrite inject_Z_mult; change (inject_Z (2 ^ 3)) with 8%Q;
           change (inject_Z 8) with 8%Q; lra).
    exists v. split; [exact Ev|].
    rewrite inject_Z_mult in V1, V2.
    change (inject_Z (2 ^ 3)) with 8%Q in V1, V2.
    change (inject_Z 8) with 8%Q in V1, V2.
    apply (round_agree v y f); lra.
  - assert (Qr : (inject_Z r == 1)%Q) by (rewrite R; reflexivity).
    destruct (of_Q_between_dyadic x 3 (8 * f + 2) (8 * f + 3))
      as (v & Ev & V1 & V2);
      try lia;
      try (rewrite inject_Z_plus, inject_Z_mult;
           change (inject_Z (2 ^ 3)) with 8%Q; change (inject_Z 8) with 8%Q;
           change (inject_Z 2) with 2%Q; change (inject_Z 3) with 3%Q; lra).
    exists v. split; [exact Ev|].
    rewrite inject_Z_plus, inject_Z_mult in V1, V2.
    change (inject_Z (2 ^ 3)) with 8%Q in V1, V2.
    change (inject_Z 8) with 8%Q in V1, V2.
    change (inject_Z 2) with 2%Q in V1. change (inject_Z 3) with 3%Q in V2.
    apply (round_agree v y f); lra.
  - assert (Qr : (inject_Z r == 2)%Q) by (rewrite R; reflexivity).
    destruct (of_Q_between_dyadic x 3 (8 * f + 5) (8 * f + 6))
      as (v & Ev & V1 & V2);
      try lia;
      try (rewrite inject_Z_plus, inject_Z_mult;
           change (inject_Z (2 ^ 3)) with 8%Q; change (inject_Z 8) with 8%Q;
           change (inject_Z 5) with 5%Q; change (inject_Z 6) with 6%Q; lra).
    exists v. split; [exact Ev|].
    rewrite inject_Z_plus, inject_Z_mult in V1, V2.
    change (inject_Z (2 ^ 3)) with 8%Q in V1, V2.
    change (inject_Z 8) with 8%Q in V1, V2.
    change (inject_Z 5) with 5%Q in V1. change (inject_Z 6) with 6%Q in V2.
    apply (round_agree v y (f + 1));
      rewrite inject_Z_plus; change (inject_Z 1) with 1%Q; lra.
Qed.

(** *** The counts of the generator and of the planner at 0.15 and 3 *)

Lemma div_default_span (l : Q) :
  F64.div (F64.Finite l) (F64.Finite (6755399441055744 # 2251799813685248))
  = Ok (F64.of_Q (l / (6755399441055744 # 2251799813685248))).
Proof. reflexivity. Qed.

Lemma round_default_product_bounds (T : Z) :
  0 <= T -> 0 <= Np.round (inject_Z T * (15 # 100)) <= T.
Proof.
  intros HT.
  assert (Q0 : (0 <= inject_Z T)%Q) by (rewrite <- (Zle_Qle 0); exact HT).
  apply py_round_between; [change (inject_Z 0) with 0%Q|]; lra.
Qed.

Lemma num_noise_tokens_default (L : Z) :
  0 <= L < 2 ^ 48 ->
  NoiseMask64.num_noise_tokens L (F64.of_Q (15 # 100))
  = Ok (clamped_noise_tokens L (15 # 100)).
Proof.
  intros HL. unfold NoiseMask64.num_noise_tokens. rewrite of_Q_default_density.
  destruct (of_Z_exact L ltac:(lia)) as (l & El & Hl).
  rewrite El. cbn [bind F64.mul].
  destruct (default_product_round L l HL Hl) as (v & Ev & Rv).
  rewrite Ev. cbn [F64.py_round bind]. rewrite Rv. reflexivity.
Qed.

Lemma num_noise_spans_default (n : Z) :
  - 2 ^ 48 < n < 2 ^ 48 ->
  NoiseMask64.num_noise_spans n (F64.of_Q 3) = Ok (span_count n 3).
Proof.
  intros Hn. unfold NoiseMask64.num_noise_spans. rewrite of_Q_default_span.
  destruct (of_Z_exact n ltac:(lia)) as (l & El & Hl).
  rewrite El. cbn [bind]. rewrite div_default_span. cbn [bind].
  destruct (default_quotient_round n l Hn Hl) as (v & Ev & Rv).
  rewrite Ev. cbn [F64.py_round bind]. rewrite Rv. reflexivity.
Qed.

Lemma tokens_length_to_lengths_default (T : Z) :
  0 <= T < 2 ^ 48 ->
  Planner64.tokens_length_to_lengths (F64.of_Q (15 # 100)) (F64.of_Q 3) T
  = Planner.tokens_length_to_lengths (15 # 100) 3 T.
Proof.
  intros HT. unfold Planner64.tokens_length_to_lengths.
  rewrite of_Q_default_density, of_Q_default_span.
  destruct (of_Z_exact T ltac:(lia)) as (l & El & Hl).
  rewrite El. cbn [bind F64.mul].
  destruct (default_product_round T l HT Hl) as (v & Ev & Rv).
  rewrite Ev. cbn [F64.py_round bind]. rewrite Rv.
  pose proof (round_default_product_bounds T ltac:(lia)) as Hn.
  set (n := Np.round (inject_Z T * (15 # 100))) in *.
  destruct (of_Z_exact n ltac:(lia)) as (nq & En & Hnq).
  rewrite En. cbn [bind]. rewrite div_default_span. cbn [bind].
  destruct (default_quotient_round n nq ltac:(lia) Hnq) as (w & Ew & Rw).
  rewrite Ew. cbn [F64.py_round bind]. rewrite Rw.
  rewrite (lengths_ok (15 # 100) 3 ltac:(lra) T). reflexivity.
Qed.

Lemma search_default (fuel : nat) (W : Z) :
  forall T0, 0 <= T0 -> T0 + Z.of_nat fuel < 2 ^ 48 ->
  Planner64.search fuel W (F64.of_Q (15 # 100)) (F64.of_Q 3) T0
  = Planner.search fuel W (15 # 100) 3 T0.
Proof.
  induction fuel as [|fuel IH]; intros T0 H0 Hb; [reflexivity|].
  cbn [Planner64.search Planner.search].
  rewrite tokens_length_to_lengths_default by lia.
  destruct (Planner.tokens_length_to_lengths (15 # 100) 3 (T0 + 1)) as [[il tl]|e];
    [|reflexivity].
  destruct (il <=? W); [|reflexivity].
  apply IH; lia.
Qed.

(** With the density 0.15 and the mean span length 3 every desired length
    from 4 on is itself a candidate, and the planner, computing in binary64,
    returns a raw length whose simulated input length is exactly the
    desired one. *)
Lemma default_window_filled (W : Z) :
  4 <= W < 2 ^ 40 ->
  exists T tl,
    W <= T < 100 * W
    /\ Planner64.tokens_length_to_lengths (F64.of_Q (15 # 100)) (F64.of_Q 3) T
       = Ok (W, tl)
    /\ forall fuel, (Z.to_nat (100 * W) <= fuel)%nat ->
       Planner64.compute_input_and_target_lengths fuel W
         (F64.of_Q (15 # 100)) (F64.of_Q 3)
       = Some (Ok (T, tl)).
Proof.
  intros HW.
  assert (Hd0 : (0 < 15 # 100)%Q) by lra.
  assert (Hd1 : (15 # 100 < 1)%Q) by lra.
  assert (Hm : (1 <= 3)%Q) by lra.
  set (bound := Z.to_nat (100 * W)).
  destruct (search_terminates W (15 # 100) 3 ltac:(lia) Hd0 Hd1 Hm bound W)
    as [T HT].
  { unfold bound. lia. }
  { cbn [Qden]. unfold bound. lia. }
  destruct (search_sound W (15 # 100) 3 Hm bound W T HT) as (H1 & H2 & H3).
  assert (Hfit : input_len (15 # 100) 3 W <= W).
  { assert (G : 1 <= noise_tokens (15 # 100) W).
    { change 1 with (Np.round (inject_Z 4 * (15 # 100))). apply round_mono.
      apply Qmult_le_compat_r; [rewrite <- Zle_Qle; lia | lra]. }
    pose proof (round_half_lt (noise_tokens (15 # 100) W) 3 G ltac:(lra)) as Hh.
    unfold input_len, noise_spans. lia. }
  assert (Hle : input_len (15 # 100) 3 T <= W).
  { destruct (Z.eq_dec T W) as [->|N]; [exact Hfit|]. apply H3. lia. }
  pose proof (input_len_step_le (15 # 100) 3 T Hd0 Hd1 Hm) as Hst.
  assert (E : input_len (15 # 100) 3 T = W) by lia.
  assert (HT100 : T < 100 * W).
  { destruct (Z_lt_le_dec T (100 * W)) as [L|G]; [exact L|].
    pose proof (input_len_large (15 # 100) 3 Hd0 Hd1 Hm W T ltac:(lia)) as Hl.
    cbn [Qden] in Hl. lia. }
  assert (Elen : Planner64.tokens_length_to_lengths (F64.of_Q (15 # 100))
                   (F64.of_Q 3) T
                 = Ok (W, target_len (15 # 100) 3 T)).
  { rewrite tokens_length_to_lengths_default by lia.
    rewrite (lengths_ok (15 # 100) 3 Hm T), E. reflexivity. }
  exists T, (target_len (15 # 100) 3 T).
  split; [lia|]. split; [exact Elen|].
  intros fuel Hf. unfold Planner64.compute_input_and_target_lengths.
  rewrite (search64_fuel_mono W _ _ bound W (Ok T) fuel);
    [| rewrite search_default by (unfold bound; lia); exact HT | exact Hf].
  cbn [bind]. rewrite Elen. cbn [bind].
  rewrite of_Q_default_density. reflexivity.
Qed.


(** X31: At the default density 0.15 and mean span length 3 the rounding of
    the product and of the quotient to binary64 does not change the counts:
    for a length below 2^48 the generator computes the noise count and the
    span count of exact arithmetic and returns what it returns with exact
    counts, and the helper of the planner returns the two lengths of exact
    arithmetic. *)
Theorem default_counts_exact (L : Z) (g : Np.rng) :
  0 <= L < 2 ^ 48 ->
  NoiseMask64.num_noise_tokens L (F64.of_Q (15 # 100))
  = Ok (clamped_noise_tokens L (15 # 100))
  /\ NoiseMask64.num_noise_spans (clamped_noise_tokens L (15 # 100)) (F64.of_Q 3)
     = Ok (span_count (clamped_noise_tokens L (15 # 100)) 3)
  /\ NoiseMask64.random_spans_noise_mask L (F64.of_Q (15 # 100)) (F64.of_Q 3) g
     = NoiseMask.random_spans_noise_mask L (15 # 100) 3 g
  /\ Planner64.tokens_length_to_lengths (F64.of_Q (15 # 100)) (F64.of_Q 3) L
     = Ok (input_len (15 # 100) 3 L, target_len (15 # 100) 3 L).
Proof.
  intros HL.
  pose proof (num_noise_tokens_default L HL) as En.
  assert (Hn : - 2 ^ 48 < clamped_noise_tokens L (15 # 100) < 2 ^ 48).
  { unfold clamped_noise_tokens.
    pose proof (round_default_product_bounds L ltac:(lia)). lia. }
  pose proof (num_noise_spans_default _ Hn) as Es.
  split; [exact En|]. split; [exact Es|]. split.
  - rewrite generator64_unfold, En. cbn [bind]. rewrite Es. cbn [bind].
    rewrite (generator_unfold L (15 # 100) 3 ltac:(lra) g). reflexivity.
  - rewrite tokens_length_to_lengths_default by exact HL.
    apply lengths_ok. lra.
Qed.

Lemma default_counts_exact_witness :
  NoiseMask64.num_noise_tokens 10 (F64.of_Q (15 # 100))
  = Ok (clamped_noise_tokens 10 (15 # 100))
  /\ NoiseMask64.num_noise_spans (clamped_noise_tokens 10 (15 # 100)) (F64.of_Q 3)
     = Ok (span_count (clamped_noise_tokens 10 (15 # 100)) 3)
  /\ NoiseMask64.random_spans_noise_mask 10 (F64.of_Q (15 # 100)) (F64.of_Q 3)
       [3; 1; 4; 1; 5; 9; 2; 6]%nat
     = NoiseMask.random_spans_noise_mask 10 (15 # 100) 3 [3; 1; 4; 1; 5; 9; 2; 6]%nat
  /\ Planner64.tokens_length_to_lengths (F64.of_Q (15 # 100)) (F64.of_Q 3) 10
     = Ok (input_len (15 # 100) 3 10, target_len (15 # 100) 3 10).
Proof.
  apply (default_counts_exact 10 [3; 1; 4; 1; 5; 9; 2; 6]%nat). lia.
Defined.
